(** * gov_agent, day 1: award mining and competitor intelligence

    A shallow embedding of [student/day1/impl/awards_miner_llm.py] and of
    [student/day1/impl/competitor_intel.py], and the properties of the
    extraction and aggregation engine that the specification states about
    them.

    Conventions of the embedding.
    - A Python [str] is the list of its code points ([list Z]); literals are
      written in UTF-8 and decoded by [Py.u].
    - Indices, lengths and counters are [nat]; the plausibility score, which
      can be negative, is a [Z].
    - Python floats are modelled by the exact rationals they approximate
      ([Q]); rounding, infinities and NaN are outside the model.
    - The Unicode character database ([str.isalpha], [str.isdigit], the
      decimal digits behind [\d] and [float]) is a parameter, [Unicode].
    - An exception that can leave a function is a value of [exn] in the
      result type [res]. *)

From Stdlib Require Import String Ascii.
From Stdlib Require Import ZArith QArith Qminmax List Bool Lia Sorted
  Permutation.
Import ListNotations.
Open Scope Z_scope.

(* ================================================================= *)
(** * Python strings and containers *)

Module Py.

Definition str := list Z.

Fixpoint bytes_of (s : string) : list Z :=
  match s with
  | EmptyString => []
  | String a s' => Z.of_N (N_of_ascii a) :: bytes_of s'
  end.

(** UTF-8 decoding of a source literal into code points. *)
Fixpoint utf8_decode (l : list Z) : str :=
  match l with
  | [] => []
  | b0 :: t =>
    if b0 <? 128 then b0 :: utf8_decode t
    else if b0 <? 224 then
      match t with
      | b1 :: t1 =>
        Z.lor (Z.shiftl (Z.land b0 31) 6) (Z.land b1 63) :: utf8_decode t1
      | _ => []
      end
    else if b0 <? 240 then
      match t with
      | b1 :: b2 :: t2 =>
        Z.lor (Z.shiftl (Z.land b0 15) 12)
              (Z.lor (Z.shiftl (Z.land b1 63) 6) (Z.land b2 63))
          :: utf8_decode t2
      | _ => []
      end
    else
      match t with
      | b1 :: b2 :: b3 :: t3 =>
        Z.lor (Z.shiftl (Z.land b0 7) 18)
              (Z.lor (Z.shiftl (Z.land b1 63) 12)
                     (Z.lor (Z.shiftl (Z.land b2 63) 6) (Z.land b3 63)))
          :: utf8_decode t3
      | _ => []
      end
  end.

Definition u (s : string) : str := utf8_decode (bytes_of s).

(** The code point of a one-character literal. *)
Definition ch (s : string) : Z := hd 0 (u s).

Definition in_range (lo hi c : Z) : bool := (lo <=? c) && (c <=? hi).

Definition is_in (chars : str) (c : Z) : bool := existsb (Z.eqb c) chars.

(** [a == b] *)
Fixpoint str_eqb (a b : str) : bool :=
  match a, b with
  | [], [] => true
  | x :: a', y :: b' => (x =? y) && str_eqb a' b'
  | _, _ => false
  end.

(** [a < b]: lexicographic on code points. *)
Fixpoint str_ltb (a b : str) : bool :=
  match a, b with
  | _, [] => false
  | [], _ :: _ => true
  | x :: a', y :: b' => (x <? y) || ((x =? y) && str_ltb a' b')
  end.

Definition str_leb (a b : str) : bool := negb (str_ltb b a).

(** [s.startswith(p)] *)
Fixpoint startswith (p s : str) : bool :=
  match p, s with
  | [], _ => true
  | x :: p', y :: s' => (x =? y) && startswith p' s'
  | _ :: _, [] => false
  end.

(** [p in s] *)
Fixpoint contains (p s : str) : bool :=
  startswith p s || match s with [] => false | _ :: s' => contains p s' end.

(** [any(k in s for k in ks)] *)
Definition contains_any (ks : list str) (s : str) : bool :=
  existsb (fun k => contains k s) ks.

(** [s.replace(old, new)] for a non-empty [old] (every call site passes
    one): occurrences are replaced from left to right, without overlap;
    [skip] counts the characters of the occurrence still to be dropped. *)
Fixpoint replace_go (old new : str) (skip : nat) (s : str) : str :=
  match s with
  | [] => []
  | c :: s' =>
    match skip with
    | S k => replace_go old new k s'
    | O =>
      if startswith old s
      then new ++ replace_go old new (pred (length old)) s'
      else c :: replace_go old new O s'
    end
  end.

Definition replace (old new s : str) : str := replace_go old new 0 s.

(** [s.count(sub)] for a non-empty [sub]: non-overlapping occurrences. *)
Fixpoint count_go (sub : str) (skip : nat) (s : str) : nat :=
  match s with
  | [] => O
  | _ :: s' =>
    match skip with
    | S k => count_go sub k s'
    | O =>
      if startswith sub s
      then S (count_go sub (pred (length sub)) s')
      else count_go sub O s'
    end
  end.

Definition count (sub s : str) : nat := count_go sub 0 s.

(** Unicode white space, as [str.isspace], [str.split()], [str.strip()]
    and the pattern [\s] see it. *)
Definition isspace (c : Z) : bool :=
  in_range 9 13 c || in_range 28 32 c || (c =? 133) || (c =? 160)
  || (c =? 5760) || in_range 8192 8202 c || (c =? 8232) || (c =? 8233)
  || (c =? 8239) || (c =? 8287) || (c =? 12288).

Fixpoint lstrip_by (p : Z -> bool) (s : str) : str :=
  match s with
  | [] => []
  | c :: s' => if p c then lstrip_by p s' else s
  end.

Definition rstrip_by (p : Z -> bool) (s : str) : str :=
  rev (lstrip_by p (rev s)).

Definition strip_by (p : Z -> bool) (s : str) : str :=
  rstrip_by p (lstrip_by p s).

(** [s.strip()] *)
Definition strip : str -> str := strip_by isspace.

(** [s.strip(chars)] *)
Definition strip_chars (chars : str) : str -> str := strip_by (is_in chars).

(** [s.split()]: the maximal runs of non-space characters. *)
Fixpoint split_go (cur : str) (s : str) : list str :=
  match s with
  | [] => match cur with [] => [] | _ => [cur] end
  | c :: s' =>
    if isspace c
    then match cur with [] => split_go [] s' | _ => cur :: split_go [] s' end
    else split_go (cur ++ [c]) s'
  end.

Definition split (s : str) : list str := split_go [] s.

(** [sep.join(l)] *)
Fixpoint join (sep : str) (l : list str) : str :=
  match l with
  | [] => []
  | [x] => x
  | x :: l' => x ++ sep ++ join sep l'
  end.

(** [s[:k]], with Python's reading of a negative bound. *)
Definition slice_to (s : str) (k : Z) : str :=
  if 0 <=? k then firstn (Z.to_nat k) s
  else firstn (length s - Z.to_nat (- k)) s.

(** [s[a:b]] for bounds already clamped to [0 .. len(s)]. *)
Definition slice (s : str) (a b : nat) : str := firstn (b - a) (skipn a s).

(** ** Stable sorting

    [sorted] and [list.sort] are stable; so is this insertion sort, where
    [leb x y] reads "the key of [x] is not after the key of [y]". *)
Section Sort.
Context {A : Type} (leb : A -> A -> bool).

Fixpoint insert (x : A) (l : list A) : list A :=
  match l with
  | [] => [x]
  | y :: l' => if leb x y then x :: l else y :: insert x l'
  end.

Definition sort (l : list A) : list A := fold_right insert [] l.
End Sort.

(** ** [collections.Counter] over strings

    A dict keeps its keys in insertion order, so a counter is the list of
    its items in that order. *)
Definition Counter := list (str * nat).

(** [c[k] += 1] *)
Fixpoint incr (k : str) (c : Counter) : Counter :=
  match c with
  | [] => [(k, 1%nat)]
  | (k', n) :: c' =>
    if str_eqb k k' then (k', S n) :: c' else (k', n) :: incr k c'
  end.

(** [Counter(l)] *)
Definition counter_of (l : list str) : Counter :=
  fold_left (fun c k => incr k c) l [].

(** [c.most_common(n)] is [heapq.nlargest(n, c.items(), key=count)], that
    is [sorted(c.items(), key=count, reverse=True)[:n]]: descending count,
    items of equal count in insertion order. *)
Definition most_common (n : nat) (c : Counter) : list (str * nat) :=
  firstn n (sort (fun a b => Nat.leb (snd b) (snd a)) c).

(** ** Results and exceptions *)
Inductive exn := TypeError | OverflowError.

Inductive res (A : Type) :=
| Ok (a : A)
| Raise (e : exn).
Arguments Ok {A} a.
Arguments Raise {A} e.

Definition bind {A B : Type} (m : res A) (f : A -> res B) : res B :=
  match m with
  | Ok a => f a
  | Raise e => Raise e
  end.

End Py.

Notation "x <- m ;; k" := (Py.bind m (fun x => k))
  (at level 61, m at next level, right associativity).
Notation "' p <- m ;; k" := (Py.bind m (fun p => k))
  (at level 61, p pattern, m at next level, right associativity).

(* ================================================================= *)
(** * The fragment of [re] the two modules use

    Quantifiers occur only on character classes ([Rep]) and as [?] on a
    group ([Opt]); all are greedy.  Matching is the backtracking search of
    [re]: alternatives in order, the longest repetition first.  No pattern
    embedded below can match the empty string ([patterns_nonempty]), so
    the rule [re] has for a match of length zero is not needed: the scan
    just moves on by one character there. *)

Module Re.
Import Py.

Inductive re : Type :=
| Chr (c : Z -> bool)
| Lit (s : str)
| Cat (a b : re)
| Alt (a b : re)
| Opt (a : re)
| Rep (c : Z -> bool) (lo : nat) (hi : option nat)
| Grp (i : nat) (a : re).

(** [k1|k2|...] over literal alternatives. *)
Definition alt_lits (k : str) (ks : list str) : re :=
  fold_left (fun r s => Alt r (Lit s)) ks (Lit k).

Definition caps := list (nat * str).
Definition kont := str -> nat -> caps -> option (nat * caps).

Fixpoint lit_rest (p s : str) : option str :=
  match p, s with
  | [], _ => Some s
  | x :: p', y :: s' => if x =? y then lit_rest p' s' else None
  | _ :: _, [] => None
  end.

Definition may_repeat (hi : option nat) : bool :=
  match hi with
  | Some O => false
  | _ => true
  end.

(** [c{lo,hi}] followed by [k]: take as many characters as allowed, then
    give them back one at a time. *)
Fixpoint rep_greedy (c : Z -> bool) (lo : nat) (hi : option nat)
         (s : str) (pos : nat) (cs : caps) (k : kont) {struct s}
  : option (nat * caps) :=
  let stop := match lo with O => k s pos cs | S _ => None end in
  match s with
  | [] => stop
  | x :: s' =>
    if c x && may_repeat hi then
      match rep_greedy c (pred lo) (option_map pred hi) s' (S pos) cs k with
      | Some r => Some r
      | None => stop
      end
    else stop
  end.

(** [mt r s pos cs k]: match [r] at the head of [s], which starts at
    index [pos] of the subject, then continue with [k]. *)
Fixpoint mt (r : re) (s : str) (pos : nat) (cs : caps) (k : kont)
  : option (nat * caps) :=
  match r with
  | Chr c =>
    match s with
    | x :: s' => if c x then k s' (S pos) cs else None
    | [] => None
    end
  | Lit p =>
    match lit_rest p s with
    | Some s' => k s' (pos + length p)%nat cs
    | None => None
    end
  | Cat a b => mt a s pos cs (fun s1 p1 c1 => mt b s1 p1 c1 k)
  | Alt a b =>
    match mt a s pos cs k with
    | Some x => Some x
    | None => mt b s pos cs k
    end
  | Opt a =>
    match mt a s pos cs k with
    | Some x => Some x
    | None => k s pos cs
    end
  | Rep c lo hi => rep_greedy c lo hi s pos cs k
  | Grp i a =>
    mt a s pos cs (fun s1 p1 c1 => k s1 p1 ((i, firstn (p1 - pos) s) :: c1))
  end.

Record rmatch := { m_start : nat; m_end : nat; m_caps : caps }.

(** [m.span()] *)
Definition span (m : rmatch) : nat * nat := (m_start m, m_end m).

(** [m.group(i)]; [None] when the group took no part in the match. *)
Fixpoint group (i : nat) (cs : caps) : option str :=
  match cs with
  | [] => None
  | (j, s) :: cs' => if Nat.eqb i j then Some s else group i cs'
  end.

(** [m.groups()] of a pattern with [n] groups. *)
Definition groups (n : nat) (m : rmatch) : list (option str) :=
  map (fun i => group i (m_caps m)) (seq 1 n).

Definition match_at (r : re) (s : str) (pos : nat) : option (nat * caps) :=
  mt r s pos [] (fun _ p c => Some (p, c)).

(** [r.finditer(s)], scanning the suffix [s] that starts at [pos]; [skip]
    counts the characters of the last match still to be passed. *)
Fixpoint scan (r : re) (s : str) (pos skip : nat) {struct s} : list rmatch :=
  match skip with
  | S k =>
    match s with
    | [] => []
    | _ :: s' => scan r s' (S pos) k
    end
  | O =>
    match match_at r s pos with
    | Some (e, cs) =>
      {| m_start := pos; m_end := e; m_caps := cs |}
        :: match s with
           | [] => []
           | _ :: s' => scan r s' (S pos) (pred (e - pos))
           end
    | None =>
      match s with
      | [] => []
      | _ :: s' => scan r s' (S pos) O
      end
    end
  end.

Definition finditer (r : re) (s : str) : list rmatch := scan r s 0 0.

(** [r.search(s)] *)
Fixpoint search_from (r : re) (s : str) (pos : nat) : option rmatch :=
  match match_at r s pos with
  | Some (e, cs) => Some {| m_start := pos; m_end := e; m_caps := cs |}
  | None =>
    match s with
    | [] => None
    | _ :: s' => search_from r s' (S pos)
    end
  end.

Definition search (r : re) (s : str) : option rmatch := search_from r s 0.

Definition found (r : re) (s : str) : bool :=
  match search r s with Some _ => true | None => false end.

(** [r.fullmatch(s)] *)
Definition fullmatch (r : re) (s : str) : bool :=
  match mt r s 0 [] (fun s1 p c =>
                       match s1 with [] => Some (p, c) | _ => None end) with
  | Some _ => true
  | None => false
  end.

(** [r.sub(repl, s)] for a replacement without group references. *)
Fixpoint sub_go (r : re) (repl : str) (skip : nat) (s : str) {struct s} : str :=
  match skip with
  | S k =>
    match s with
    | [] => []
    | _ :: s' => sub_go r repl k s'
    end
  | O =>
    match match_at r s 0 with
    | Some (S n, _) =>
      repl ++ match s with
              | [] => []
              | _ :: s' => sub_go r repl n s'
              end
    | Some (O, _) =>
      repl ++ match s with
              | [] => []
              | c :: s' => c :: sub_go r repl O s'
              end
    | None =>
      match s with
      | [] => []
      | c :: s' => c :: sub_go r repl O s'
      end
    end
  end.

Definition sub (r : re) (repl s : str) : str := sub_go r repl 0 s.

(** [r.split(s)] for a pattern without groups. *)
Fixpoint split_go (r : re) (cur : str) (skip : nat) (s : str) {struct s}
  : list str :=
  match s with
  | [] => [cur]
  | c :: s' =>
    match skip with
    | S k => split_go r cur k s'
    | O =>
      match match_at r s 0 with
      | Some (S n, _) => cur :: split_go r [] n s'
      | _ => split_go r (cur ++ [c]) O s'
      end
    end
  end.

Definition split (r : re) (s : str) : list str := split_go r [] 0 s.

(** Classes. *)
Definition any_char (_ : Z) : bool := true.
Definition hangul : Z -> bool := in_range (ch "가") (ch "힣").
Definition upper : Z -> bool := in_range (ch "A") (ch "Z").
Definition lower : Z -> bool := in_range (ch "a") (ch "z").
Definition digit09 : Z -> bool := in_range (ch "0") (ch "9").

(** Under [re.IGNORECASE] the ranges [A-Z] and [a-z] also take the four
    letters whose simple case mapping is an ASCII letter: U+0130, U+0131,
    U+017F and U+212A. *)
Definition ascii_letter_ic (c : Z) : bool :=
  upper c || lower c || (c =? 304) || (c =? 305) || (c =? 383) || (c =? 8490).

End Re.

(* ================================================================= *)
(** * JSON values

    What [json.loads] builds, and what the payloads are made of. *)

Module Json.
Import Py.

#[warnings="-register-all"]
Inductive json : Type :=
| JNull
| JBool (b : bool)
| JInt (z : Z)
| JFloat (q : Q)
| JStr (s : str)
| JList (l : list json)
| JDict (d : list (str * json)).

Definition dict := list (str * json).

(** [d.get(k)] *)
Fixpoint get (k : str) (d : dict) : option json :=
  match d with
  | [] => None
  | (k', v) :: d' => if str_eqb k k' then Some v else get k d'
  end.

(** Python's truth value. *)
Definition truthy (v : json) : bool :=
  match v with
  | JNull => false
  | JBool b => b
  | JInt z => negb (z =? 0)
  | JFloat q => negb (Qeq_bool q 0)
  | JStr s => match s with [] => false | _ => true end
  | JList l => match l with [] => false | _ => true end
  | JDict d => match d with [] => false | _ => true end
  end.

(** [d.get(k) or dflt] *)
Definition get_or (k : str) (dflt : json) (d : dict) : json :=
  match get k d with
  | Some v => if truthy v then v else dflt
  | None => dflt
  end.

(** [for x in v]: the items a loop over [v] sees, or the [TypeError] of a
    value that is not iterable. *)
Definition iterate (v : json) : res (list json) :=
  match v with
  | JList l => Ok l
  | JStr s => Ok (map (fun c => JStr [c]) s)
  | JDict d => Ok (map (fun kv => JStr (fst kv)) d)
  | JNull | JBool _ | JInt _ | JFloat _ => Raise TypeError
  end.

(** Reading a payload: [v[k]] and the items of a list. *)
Definition field (k : string) (v : json) : option json :=
  match v with
  | JDict d => get (u k) d
  | _ => None
  end.

Definition items (v : json) : list json :=
  match v with
  | JList l => l
  | _ => []
  end.

Definition keys (v : json) : list str :=
  match v with
  | JDict d => map fst d
  | _ => []
  end.

End Json.

(* ================================================================= *)
(** * [awards_miner_llm.py] *)

Module Awards.
Import Py Re Json.

(** The Unicode character database, as far as the module consults it. *)
Record Unicode := {
  isalpha : Z -> bool;          (** [ch.isalpha()] *)
  isdigit : Z -> bool;          (** [ch.isdigit()] *)
  decimal : Z -> option Z       (** value of a decimal digit (category Nd) *)
}.

(** ** Pre- and post-processing *)

Definition blank (c : Z) : bool := (c =? 32) || (c =? 9).
Definition newline (c : Z) : bool := c =? 10.

(** [[ \t]+] and [\n{3,}] *)
Definition BLANKS : re := Rep blank 1 None.
Definition NEWLINES3 : re := Rep newline 3 None.

Definition _clean_html_ws (s : str) : str :=
  let s := replace [8203] [] s in
  let s := replace [8204] [] s in
  let s := replace [65279] [] s in
  let s := replace (u "&nbsp;") [32] s in
  let s := replace [160] [32] s in
  let s := replace [13] [10] s in
  let s := Re.sub BLANKS [32] s in
  let s := Re.sub NEWLINES3 [10; 10] s in
  s.

Definition _truncate (s : str) (n : Z) : str :=
  let s := join [32] (Py.split (_clean_html_ws s)) in
  if Z.of_nat (length s) <=? n then s
  else slice_to s (n - 3) ++ u "...".

(** ** Company names *)

Definition BAN_TOKENS : list str := map u
  [ "결정기준"; "결정방식"; "유의사항"; "제안요청서"; "RFP"; "제안서";
    "내용이"; "상세"; "계획서"; "시험운영"; "평가기준"; "가점"; "감점";
    "배점"; "평가표"; "제출서류"; "입찰공고"; "제안요청"; "공고"; "발주";
    "과업"; "범위"; "목적";
    "가 제안한"; "에대해결과"; "에서 제외함"; "통보"; "필요시"; "해야 하며"
  ]%string.

Definition COMPANY_HINTS : list str := map u
  [ "주식회사"; "㈜"; "(주)"; "(유)"; "유한"; "재단"; "협동조합"; "컨소시엄";
    "엔지니어링"; "시스템"; "정보"; "테크"; "솔루션"; "컨설팅";
    "개발"; "산업"; "전자"; "통신"; "소프트"; "데이터";
    "대학교 산학협력단"; "산학협력단"; "협회"; "연구원"; "연구소"; "코리아";
    "INC"; "LTD"; "Co."; "Corp"; "Company"; "Limited"
  ]%string.

(** [[가-힣A-Za-z0-9&.,\-·() ]], compiled with [re.IGNORECASE]. *)
Definition name_char (c : Z) : bool :=
  hangul c || ascii_letter_ic c || digit09 c || is_in (u "&.,-·() ") c.

(** [KOR_COMPANY_PAT], as the patterns compiled with [re.IGNORECASE]
    contain it. *)
Definition KOR_COMPANY_PAT : re :=
  Cat (Opt (Cat (Lit (u "주식회사")) (Rep isspace 0 None)))
      (Cat (Opt (Chr (is_in (u "㈜(주)(유)"))))
           (Cat (Rep isspace 0 None)
                (Rep name_char 2 (Some 60%nat)))).

(** [\s*(?:주식회사|㈜|\(주\)|\(유\))\s*] *)
Definition COMPANY_CLEAN_PAT : re :=
  Cat (Rep isspace 0 None)
      (Cat (alt_lits (u "주식회사") (map u ["㈜"; "(주)"; "(유)"]%string))
           (Rep isspace 0 None)).

Definition _has_company_hint (name : str) : bool :=
  contains_any COMPANY_HINTS name.

(** The cleaned form of a candidate name: what [_norm_company] has in
    [n] when it starts testing. *)
Definition cleaned_name (name : str) : str :=
  let n := _clean_html_ws name in
  let n := strip (Re.sub (Rep isspace 1 None) [32] n) in
  let n := strip (Re.sub COMPANY_CLEAN_PAT [] n) in
  let n := strip_chars (u " ,.;:·-()[]|") n in
  n.

Section WithUnicode.
Context (U : Unicode).

(** [sum(1 for ch in n if ch.isalpha() or ch.isdigit())] *)
Definition letters (n : str) : nat :=
  length (filter (fun c => isalpha U c || isdigit U c) n).

(** [_norm_company] on a string.  The density test
    [letters / max(1, len(n)) < 0.6] is the comparison of the exact
    quotient with 3/5. *)
Definition _norm_company (name : str) : option str :=
  match name with
  | [] => None
  | _ =>
    let n := cleaned_name name in
    if (length n <? 2)%nat then None
    else if contains_any BAN_TOKENS n then None
    else if negb (found (Chr (fun c => hangul c || upper c || lower c)) n)
    then None
    else if negb (contains [32] n) && (16 <=? length n)%nat
            && negb (_has_company_hint n)
    then None
    else if (5 * Z.of_nat (letters n) <? 3 * Z.of_nat (Nat.max 1 (length n)))
    then None
    else if fullmatch (Rep hangul 1 (Some 2%nat)) n then None
    else Some n
  end.

(** [_norm_company] on a value taken from the model's answer: a falsy
    value gives [None]; a value that is no string is cleaned to the empty
    string by [_clean_html_ws], hence [None] as well. *)
Definition norm_company_value (v : json) : option str :=
  match v with
  | JStr s => _norm_company s
  | _ => None
  end.

Definition is_decimal (c : Z) : bool :=
  match decimal U c with Some _ => true | None => false end.

Definition _is_number_like (x : str) : bool :=
  found (Chr is_decimal) x
  || contains_any
       (map u ["원"; "만원"; "억원"; "천만원"; "백만원"; "KRW"; "₩"]%string) x.

(** ** Deterministic extraction: patterns and scoring *)

Definition WINNER_KEYS : list str := map u
  [ "낙찰자"; "낙찰 업체"; "낙찰업체"; "우선협상대상자"; "계약상대자";
    "선정 업체"; "선정업체"; "우선협상 대상자" ]%string.

Definition AGENCY_KEYS : list str := map u
  [ "발주기관"; "수요기관"; "구매기관"; "발주 부서"; "계약기관"; "계약부서";
    "발주처"; "수요처" ]%string.

Definition REASON_KEYS : list str := map u
  [ "사유"; "근거"; "평가"; "정성"; "정량"; "우수"; "기술"; "가격"; "낙찰";
    "선정" ]%string.

Definition alt_keys (ks : list str) : re :=
  match ks with
  | [] => Lit []
  | k :: ks' => alt_lits k ks'
  end.

(** [\s*[:：\-–]?\s*] *)
Definition SEP : re :=
  Cat (Rep isspace 0 None)
      (Cat (Opt (Chr (is_in (u ":：-–")))) (Rep isspace 0 None)).

(** One group. *)
Definition COMPANY_REGEX_A : re :=
  Cat (alt_keys WINNER_KEYS) (Cat SEP (Grp 1 KOR_COMPANY_PAT)).

(** One group. *)
Definition COMPANY_REGEX_B : re :=
  Cat (alt_keys (map u ["업체명"; "사업자"; "제안사"; "업체"]%string))
      (Cat SEP (Grp 1 KOR_COMPANY_PAT)).

(** Four groups. *)
Definition COMPANY_NEAR_WINNER : re :=
  Alt (Cat (Grp 1 (alt_keys WINNER_KEYS))
           (Cat (Rep any_char 0 (Some 40%nat)) (Grp 2 KOR_COMPANY_PAT)))
      (Cat (Grp 3 KOR_COMPANY_PAT)
           (Cat (Rep any_char 0 (Some 40%nat)) (Grp 4 (alt_keys WINNER_KEYS)))).

(** One group. *)
Definition AMOUNT_REGEX : re :=
  Cat (alt_keys (map u ["낙찰금액"; "계약금액"; "추정가격"; "투찰금액"]%string))
      (Cat SEP
           (Grp 1
              (Cat (Chr digit09)
                   (Cat (Rep (fun c => digit09 c || is_in (u ",.") c
                                       || isspace c) 0 None)
                        (Cat (Rep isspace 0 None)
                             (Opt (alt_keys
                                     (map u ["원"; "억원"; "천만원"; "백만원";
                                             "KRW"; "₩"]%string)))))))).

(** One group. *)
Definition AGENCY_REGEX : re :=
  Cat (alt_keys AGENCY_KEYS)
      (Cat SEP (Grp 1 (Rep name_char 2 (Some 60%nat)))).

Definition _company_score (raw_name ctx : str) (key_span : nat * nat) : Z :=
  let n := raw_name in
  let n_norm := match _norm_company n with Some x => x | None => [] end in
  match n_norm with
  | [] => -999
  | _ =>
    let s1 :=
      if _has_company_hint n || _has_company_hint n_norm then 2 else 0 in
    let s2 :=
      if contains [32] n_norm
         || startswith (u "(주)") n || startswith (u "㈜") n
         || startswith (u "(주)") n_norm || startswith (u "㈜") n_norm
         || startswith (u "(유)") n || startswith (u "(유)") n_norm
      then 1 else 0 in
    let s3 :=
      if negb (contains [32] n_norm) && (16 <=? length n_norm)%nat
         && negb (_has_company_hint n_norm)
      then -2 else 0 in
    let '(start, end_) := key_span in
    let start := (start - 40)%nat in
    let end_ := Nat.min (length ctx) (end_ + 40) in
    let window := slice ctx start end_ in
    let s4 := if contains n window || contains n_norm window then 1 else 0 in
    s1 + s2 + s3 + s4
  end.

(** An entry of [winners_raw]. *)
Record Cand := {
  c_name : str;
  c_amount : option str;
  c_score : Z;
  c_pos : nat * nat
}.

(** An entry [{"name": ..., "amount": ...}]. *)
Record Winner := { w_name : str; w_amount : json }.

(** The first group that is set and not empty. *)
Fixpoint first_group (gs : list (option str)) : option str :=
  match gs with
  | [] => None
  | Some (c :: g) :: _ => Some (c :: g)
  | _ :: gs' => first_group gs'
  end.

(** The body of the loop over the matches of one pattern. *)
Definition candidate (text : str) (ngroups : nat) (m : rmatch) : list Cand :=
  match first_group (groups ngroups m) with
  | None => []
  | Some cand =>
    let score := _company_score cand text (span m) in
    if score <? 2 then []
    else match _norm_company cand with
         | Some (c :: nm) =>
           [{| c_name := c :: nm; c_amount := None;
               c_score := score; c_pos := span m |}]
         | _ => []
         end
  end.

Definition candidates (text : str) (rx : re * nat) : list Cand :=
  flat_map (candidate text (snd rx)) (finditer (fst rx) text).

Definition COMPANY_PATTERNS : list (re * nat) :=
  [ (COMPANY_REGEX_A, 1%nat); (COMPANY_REGEX_B, 1%nat);
    (COMPANY_NEAR_WINNER, 4%nat) ].

Definition amount_empty (w : Cand) : bool :=
  match c_amount w with
  | None | Some [] => true
  | Some (_ :: _) => false
  end.

Definition dist (a b : nat) : nat := ((a - b) + (b - a))%nat.

Fixpoint set_amount (i : nat) (amt : str) (ws : list Cand) : list Cand :=
  match ws, i with
  | [], _ => []
  | w :: ws', O =>
    {| c_name := c_name w; c_amount := Some amt;
       c_score := c_score w; c_pos := c_pos w |} :: ws'
  | w :: ws', S j => w :: set_amount j amt ws'
  end.

(** An amount found at index [pos] goes to the first candidate, among the
    three nearest, that has none yet.  The sorted list holds the very
    dicts of [winners_raw]: the update is made in place, at the index the
    candidate has there. *)
Definition assign_amount (amt : str) (pos : nat) (ws : list Cand) : list Cand :=
  let indexed := combine (seq 0 (length ws)) ws in
  let winners_sorted :=
    sort (fun a b => Nat.leb (dist pos (fst (c_pos (snd a))))
                             (dist pos (fst (c_pos (snd b))))) indexed in
  match find (fun iw => amount_empty (snd iw)) (firstn 3 winners_sorted) with
  | Some (i, _) => set_amount i amt ws
  | None => ws
  end.

Definition amount_step (ws : list Cand) (m : rmatch) : list Cand :=
  let amt := strip (match group 1 (m_caps m) with Some g => g | None => [] end) in
  match ws with
  | [] => ws
  | _ => if _is_number_like amt then assign_amount amt (m_start m) ws else ws
  end.

Definition reason_step (reasons : list str) (sent : str) : list str :=
  let s := strip sent in
  match s with
  | [] => reasons
  | _ =>
    if contains_any REASON_KEYS s then
      let s := _truncate s 100 in
      match s with
      | [] => reasons
      | _ => if existsb (str_eqb s) reasons then reasons else reasons ++ [s]
      end
    else reasons
  end.

(** Sort key [(-score, name)]. *)
Definition cand_leb (a b : Cand) : bool :=
  (c_score b <? c_score a)
  || ((c_score a =? c_score b) && str_leb (c_name a) (c_name b)).

Definition winner_of (w : Cand) : Winner :=
  {| w_name := c_name w;
     w_amount := match c_amount w with Some a => JStr a | None => JNull end |}.

(** Keep the first entry of each name ([uniq]). *)
Fixpoint dedup_by {A : Type} (name : A -> str) (seen : list str) (l : list A)
  : list A :=
  match l with
  | [] => []
  | w :: l' =>
    match name w with
    | [] => dedup_by name seen l'
    | nm => if existsb (str_eqb nm) seen then dedup_by name seen l'
            else w :: dedup_by name (nm :: seen) l'
    end
  end.

Definition winners_raw (text : str) : list Cand :=
  flat_map (candidates text) COMPANY_PATTERNS.

Definition _fallback_extract (text : str)
  : list Winner * list str * option str :=
  let text := _clean_html_ws text in
  match text with
  | [] => ([], [], None)
  | _ =>
    let raw := winners_raw text in
    let raw := fold_left amount_step (finditer AMOUNT_REGEX text) raw in
    let agency :=
      match search AGENCY_REGEX text with
      | Some am =>
        match group 1 (m_caps am) with
        | Some g =>
          match _norm_company g with
          | Some (c :: ag) => Some (c :: ag)
          | _ => None
          end
        | None => None
        end
      | None => None
      end in
    let reasons :=
      fold_left reason_step (Re.split (Chr (is_in [10; 46])) text) [] in
    let raw := sort cand_leb raw in
    let dedup_winners := map winner_of (dedup_by c_name [] raw) in
    (firstn 10 dedup_winners, firstn 10 reasons, agency)
  end.

(** ** The model-driven path and its fallback *)

Fixpoint chunk_go (max_len : Z) (cur : str) (paras : list str) : list str :=
  match paras with
  | [] => match cur with [] => [] | _ => [cur] end
  | p :: paras' =>
    if Z.of_nat (length cur) + Z.of_nat (length p) + 2 <=? max_len
    then chunk_go max_len
           (cur ++ (match cur with [] => [] | _ => [10; 10] end) ++ p) paras'
    else match cur with
         | [] => chunk_go max_len p paras'
         | _ => cur :: chunk_go max_len p paras'
         end
  end.

Definition _chunk_text (body : str) (max_len : Z) : list str :=
  let body := _clean_html_ws body in
  if Z.of_nat (length body) <=? max_len then [body]
  else chunk_go max_len [] (Re.split (Rep newline 2 None) body).

(** The text-completion capability.  [llm i title url chunk] is the dict
    [_json_loose_load(_llm_send_with_retry(llm, prompt))] of the [i]-th
    call made during one extraction, whose prompt is built from [title],
    [url] and [chunk]; it is [{}] when the call fails or its answer does
    not parse.  Two calls with the same prompt may answer differently. *)
Definition Llm := nat -> str -> str -> str -> dict.

(** What [_call_llm] returns. *)
Record PageData := {
  d_winners : list Winner;
  d_reasons : list str;
  d_agency : str
}.

(** What the loop over the chunks accumulates. *)
Record Acc := {
  winners_all : list Winner;
  reasons_all : list str;
  agency_votes : Counter
}.

Definition llm_winner (w : json) : list Winner :=
  match w with
  | JDict d =>
    match match get (u "name") d with
          | Some v => norm_company_value v
          | None => None
          end with
    | Some (c :: nm) =>
      [{| w_name := c :: nm;
          w_amount := match get (u "amount") d with
                      | Some v => v
                      | None => JNull
                      end |}]
    | _ => []
    end
  | _ => []
  end.

Definition llm_reason (r : json) : list str :=
  match r with
  | JStr s =>
    match strip s with
    | [] => []
    | rs => [_truncate rs 100]
    end
  | _ => []
  end.

Definition llm_agency (agency : json) (votes : Counter) : Counter :=
  if truthy agency then
    match norm_company_value agency with
    | Some (c :: ag) => incr (c :: ag) votes
    | _ => votes
    end
  else votes.

(** One turn of the loop over the chunks. *)
Definition chunk_step (llm : Llm) (title url : str) (i : nat) (ch : str)
           (acc : Acc) : res Acc :=
  let data := llm i title url ch in
  let winners := get_or (u "winners") (JList []) data in
  let reasons := get_or (u "reasons") (JList []) data in
  let agency := get_or (u "agency") (JStr []) data in
  ws <- iterate winners ;;
  rs <- iterate reasons ;;
  Ok {| winners_all := winners_all acc ++ flat_map llm_winner ws;
        reasons_all := reasons_all acc ++ flat_map llm_reason rs;
        agency_votes := llm_agency agency (agency_votes acc) |}.

Fixpoint chunk_loop (llm : Llm) (title url : str) (i : nat)
         (chunks : list str) (acc : Acc) : res Acc :=
  match chunks with
  | [] => Ok acc
  | ch :: chunks' =>
    acc' <- chunk_step llm title url i ch acc ;;
    chunk_loop llm title url (S i) chunks' acc'
  end.

(** The fallback after the loop, run when no winner was accumulated. *)
Definition page_fallback (body : str) (acc : Acc) : Acc :=
  match winners_all acc with
  | [] =>
    let '(fb_wins, fb_reasons, fb_agency) := _fallback_extract body in
    {| winners_all := fb_wins;
       reasons_all := match reasons_all acc with
                      | [] => fb_reasons
                      | rs => rs
                      end;
       agency_votes := match agency_votes acc, fb_agency with
                       | [], Some (c :: ag) => incr (c :: ag) []
                       | votes, _ => votes
                       end |}
  | _ => acc
  end.

(** [votes.most_common(1)[0][0] if votes else ""] *)
Definition top_agency (votes : Counter) : str :=
  match most_common 1 votes with
  | (ag, _) :: _ => ag
  | [] => []
  end.

(** [_call_llm]; the calls it makes are numbered from [i]. *)
Definition _call_llm (llm : Llm) (i : nat) (title url body : str)
  : res PageData :=
  let chunks := _chunk_text body 9000 in
  acc <- chunk_loop llm title url i chunks
           {| winners_all := []; reasons_all := []; agency_votes := [] |} ;;
  let acc := page_fallback body acc in
  Ok {| d_winners := dedup_by w_name [] (winners_all acc);
        d_reasons := reasons_all acc;
        d_agency := top_agency (agency_votes acc) |}.

(** ** Aggregation over the pages *)

(** A page record [{"url": ..., "title": ..., "text": ...}]; [None] is a
    missing key. *)
Record Page := {
  p_url : option str;
  p_title : option str;
  p_text : option str
}.

Definition or_empty (o : option str) : str :=
  match o with Some s => s | None => [] end.

(** An entry of [evidences]. *)
Record Evidence := { e_url : str; e_title : str; e_snippet : str }.

(** What the loop over the pages accumulates; [calls] numbers the calls
    made to the capability so far. *)
Record PagesAcc := {
  calls : nat;
  all_winners : list Winner;
  all_reasons : list str;
  agency_counts : Counter;
  evidences : list Evidence
}.

Definition page_step (llm : Llm) (acc : PagesAcc) (p : Page) : res PagesAcc :=
  let url := strip (or_empty (p_url p)) in
  let title := strip (or_empty (p_title p)) in
  let text := _clean_html_ws (or_empty (p_text p)) in
  match text with
  | [] => Ok acc
  | _ =>
    data <- _call_llm llm (calls acc) title url text ;;
    Ok {| calls := (calls acc + length (_chunk_text text 9000))%nat;
          all_winners := all_winners acc ++ d_winners data;
          all_reasons := all_reasons acc ++ d_reasons data;
          agency_counts := match d_agency data with
                           | [] => agency_counts acc
                           | ag => incr ag (agency_counts acc)
                           end;
          evidences := evidences acc
                       ++ [{| e_url := url; e_title := title;
                              e_snippet := _truncate text 240 |}] |}
  end.

Fixpoint page_loop (llm : Llm) (acc : PagesAcc) (pages : list Page)
  : res PagesAcc :=
  match pages with
  | [] => Ok acc
  | p :: pages' =>
    acc' <- page_step llm acc p ;;
    page_loop llm acc' pages'
  end.

(** [float(z)] of an int: it overflows from [2^1024 - 2^970] on. *)
Definition float_of_int (z : Z) : res Q :=
  if Z.abs z <? 2 ^ 1024 - 2 ^ 970 then Ok (inject_Z z)
  else Raise OverflowError.

Fixpoint digits_value (acc : Z) (s : str) : option Z :=
  match s with
  | [] => Some acc
  | c :: s' =>
    match decimal U c with
    | Some d => digits_value (10 * acc + d) s'
    | None => None
    end
  end.

Fixpoint break_dot (s : str) : str * option str :=
  match s with
  | [] => ([], None)
  | c :: s' =>
    if c =? 46 then ([], Some s')
    else let '(a, b) := break_dot s' in (c :: a, b)
  end.

(** [float(m)] of a string of decimal digits and dots; [None] is the
    [ValueError]. *)
Definition float_of_str (m : str) : option Q :=
  match break_dot m with
  | ([], None) => None
  | (ip, None) => option_map inject_Z (digits_value 0 ip)
  | ([], Some []) => None
  | (ip, Some fp) =>
    match digits_value 0 ip, digits_value 0 fp with
    | Some a, Some b =>
      Some (Qred (inject_Z a
                  + Qmake b (Z.to_pos (10 ^ Z.of_nat (length fp))))%Q)
    | _, _ => None
    end
  end.

Definition AmountBag := list (str * list Q).

(** [bag[nm].append(q)] on a [defaultdict(list)] *)
Fixpoint bag_append (nm : str) (q : Q) (bag : AmountBag) : AmountBag :=
  match bag with
  | [] => [(nm, [q])]
  | (k, qs) :: bag' =>
    if str_eqb nm k then (k, qs ++ [q]) :: bag'
    else (k, qs) :: bag_append nm q bag'
  end.

(** [bag.get(nm) or []] *)
Fixpoint bag_get (nm : str) (bag : AmountBag) : list Q :=
  match bag with
  | [] => []
  | (k, qs) :: bag' => if str_eqb nm k then qs else bag_get nm bag'
  end.

(** [[^\d.]] *)
Definition NOT_DIGIT_DOT : re :=
  Chr (fun c => negb (is_decimal c || (c =? 46))).

(** One turn of the loop that counts the winners and collects their
    amounts.  A [bool] is an [int] for [isinstance]. *)
Definition count_step (st : Counter * AmountBag) (w : Winner)
  : res (Counter * AmountBag) :=
  let '(win_counter, amount_bag) := st in
  match w_name w with
  | [] => Ok st
  | nm =>
    let win_counter := incr nm win_counter in
    match w_amount w with
    | JInt z =>
      q <- float_of_int z ;; Ok (win_counter, bag_append nm q amount_bag)
    | JBool b =>
      Ok (win_counter, bag_append nm (if b then 1%Q else 0%Q) amount_bag)
    | JFloat q => Ok (win_counter, bag_append nm q amount_bag)
    | JStr amt =>
      match Re.sub NOT_DIGIT_DOT [] amt with
      | [] => Ok (win_counter, amount_bag)
      | m =>
        match float_of_str m with
        | Some q => Ok (win_counter, bag_append nm q amount_bag)
        | None => Ok (win_counter, amount_bag)
        end
      end
    | _ => Ok (win_counter, amount_bag)
    end
  end.

Fixpoint count_loop (st : Counter * AmountBag) (ws : list Winner)
  : res (Counter * AmountBag) :=
  match ws with
  | [] => Ok st
  | w :: ws' => st' <- count_step st w ;; count_loop st' ws'
  end.

(** What the aggregation has computed before the lists are ranked. *)
Record Totals := {
  win_counter : Counter;
  amount_bag : AmountBag;
  reasons : list str;
  agencies : Counter
}.

(** The last resort: when no page gave a winner, the deterministic
    extractor runs once over all the texts. *)
Definition global_fallback (pages : list Page) (t : Totals) : Totals :=
  match win_counter t with
  | [] =>
    let all_text_concat :=
      join [10; 10]
           (map (fun p => _clean_html_ws (or_empty (p_text p))) pages) in
    let '(fb_wins, fb_reasons, fb_agency) :=
      _fallback_extract all_text_concat in
    {| win_counter :=
         fold_left (fun c w => match w_name w with
                               | [] => c
                               | nm => incr nm c
                               end) fb_wins [];
       amount_bag := amount_bag t;
       reasons := match reasons t with
                  | [] => fb_reasons
                  | rs => rs
                  end;
       agencies := match fb_agency with
                   | Some (c :: ag) => incr (c :: ag) (agencies t)
                   | _ => agencies t
                   end |}
  | _ => t
  end.

Definition mean (amts : list Q) : json :=
  match amts with
  | [] => JNull
  | _ =>
    JFloat (Qred (fold_left Qplus amts 0%Q
                  / inject_Z (Z.of_nat (length amts)))%Q)
  end.

Definition jint (n : nat) : json := JInt (Z.of_nat n).

Definition top_winner (bag : AmountBag) (it : str * nat) : json :=
  JDict [ (u "name", JStr (fst it)); (u "wins", jint (snd it));
          (u "avgAmount", mean (bag_get (fst it) bag)) ].

Definition top_reason (it : str * nat) : json :=
  JDict [ (u "reason", JStr (fst it)); (u "freq", jint (snd it)) ].

Definition top_agency_row (it : str * nat) : json :=
  JDict [ (u "name", JStr (fst it)); (u "freq", jint (snd it)) ].

Definition legacy_winner (it : str * nat) : json :=
  JDict [ (u "name", JStr (fst it)); (u "count", jint (snd it)) ].

Definition evidence_row (e : Evidence) : json :=
  JDict [ (u "url", JStr (e_url e)); (u "title", JStr (e_title e));
          (u "snippet", JStr (e_snippet e)) ].

Definition SCORE : json :=
  JDict [ (u "tech", JNull); (u "price", JNull); (u "total", JNull) ].

(** The payload returned when the capability cannot be constructed. *)
Definition UNAVAILABLE (query : str) : json :=
  JDict [ (u "query", JStr query);
          (u "winners", JList []);
          (u "signals", JDict [ (u "topWinners", JList []);
                                (u "topReasons", JList []);
                                (u "agencies", JList []) ]);
          (u "evidences", JList []);
          (u "score", SCORE);
          (u "note", JStr (u "LLM unavailable")) ].

(** [[r.strip() for r in all_reasons if r and r.strip()]] *)
Definition stripped_reasons (rs : list str) : list str :=
  filter (fun r => match r with [] => false | _ => true end) (map strip rs).

(** The payload assembled from the totals and the evidences. *)
Definition snapshot (query : str) (t : Totals) (evs : list Evidence) : json :=
  let top_winners :=
    map (top_winner (amount_bag t)) (most_common 8 (win_counter t)) in
  let reason_counts := counter_of (stripped_reasons (reasons t)) in
  let top_reasons := map top_reason (most_common 8 reason_counts) in
  let top_agencies := map top_agency_row (most_common 6 (agencies t)) in
  let legacy_winners := map legacy_winner (most_common 5 (win_counter t)) in
  JDict [ (u "query", JStr query);
          (u "winners", JList legacy_winners);
          (u "signals", JDict [ (u "topWinners", JList top_winners);
                                (u "topReasons", JList top_reasons);
                                (u "agencies", JList top_agencies) ]);
          (u "evidences", JList (map evidence_row (firstn 20 evs)));
          (u "score", SCORE) ].

(** The totals of one extraction. *)
Definition totals (llm : Llm) (pages : list Page)
  : res (Totals * list Evidence) :=
  acc <- page_loop llm
           {| calls := 0; all_winners := []; all_reasons := [];
              agency_counts := []; evidences := [] |} pages ;;
  '(wc, bag) <- count_loop ([], []) (all_winners acc) ;;
  Ok (global_fallback pages
        {| win_counter := wc; amount_bag := bag;
           reasons := all_reasons acc; agencies := agency_counts acc |},
      evidences acc).

(** [build_awards_snapshot_llm]; [llm] is what [_get_llm()] returned. *)
Definition build_awards_snapshot_llm (llm : option Llm) (pages : list Page)
           (query : str) : res json :=
  match llm with
  | None => Ok (UNAVAILABLE query)
  | Some llm =>
    '(t, evs) <- totals llm pages ;;
    Ok (snapshot query t evs)
  end.

End WithUnicode.
End Awards.

(* ================================================================= *)
(** * [competitor_intel.py] *)

Module Intel.
Import Py Json.

(** A page record; [None] is a missing key, read as [""] by
    [p.get(key, "")]. *)
Record Page := {
  p_url : option str;
  p_title : option str;
  p_text : option str
}.

Definition or_empty (o : option str) : str :=
  match o with Some s => s | None => [] end.

Definition AWARD_CONTEXT : list str := map u
  [ "낙찰"; "개찰"; "입찰 결과"; "낙찰자"; "협상대상자"; "계약 체결" ]%string.

Definition CCI_KEYS : list str := map u
  [ "입찰"; "경쟁"; "제안서"; "기술평가" ]%string.

Record CompetitorIntel := {
  topCompetitors : list json;
  marketLandscape : Q * str;       (** [{"cci": ..., "query": ...}] *)
  evidences : list json
}.

Section Builder.
(** The ranking of the competitors found on the retained pages
    ([_extract_award_fields], [_guess_agency_from_text], [_tags_from_title],
    [_canon] and the aggregation by winner).  It raises nothing and nothing
    stated below depends on what it computes. *)
Variable rank_competitors : list Page -> list json.

(** [" ".join(text.split())[:260]] *)
Definition snippet (text : str) : str :=
  firstn 260 (join [32] (Py.split text)).

(** The loop over the pages: the pages retained for the awards, and the
    evidence items, in order. *)
Fixpoint page_loop (pages : list Page) (awards : list Page)
         (evs : list json) : list Page * list json :=
  match pages with
  | [] => (awards, evs)
  | p :: pages' =>
    let url := or_empty (p_url p) in
    let title := or_empty (p_title p) in
    let text := or_empty (p_text p) in
    match text with
    | [] => page_loop pages' awards evs
    | _ =>
      if negb (contains_any AWARD_CONTEXT (title ++ text))
      then page_loop pages' awards evs
      else page_loop pages' (awards ++ [p])
             (evs ++ [JDict [ (u "url", JStr url);
                              (u "snippet", JStr (snippet text)) ]])
    end
  end.

(** [cci_signal] *)
Definition cci_signal (pages : list Page) : nat :=
  let total_text := join [32] (map (fun p => or_empty (p_text p)) pages) in
  fold_left (fun n k => (n + count k total_text)%nat) CCI_KEYS 0%nat.

(** [min(1.0, x)] *)
Definition min1 (x : Q) : Q := if Qle_bool 1 x then 1%Q else x.

Definition build_competitor_intel_from_pages (pages : list Page)
           (query : str) : CompetitorIntel :=
  let '(awards, evs) := page_loop pages [] [] in
  let ranked := rank_competitors awards in
  let cci := min1 (inject_Z (Z.of_nat (cci_signal pages)) / 40)%Q in
  {| topCompetitors := firstn 5 ranked;
     marketLandscape := (cci, query);
     evidences := firstn 10 evs |}.

End Builder.
End Intel.

(* ================================================================= *)
(** * [competitor_intel.py]: award fields and ranking *)

Module IntelRank.
Import Py Re Json Intel.

(** An [Award]. *)
Record Award := {
  noticeId : str;
  title : str;
  agency : str;
  winner : str;
  amount : option Q;
  openDate : option str;
  topicTags : list str;
  region : option str;
  url : str
}.

(** [m.lastindex]: the group that was closed last. *)
Definition lastindex (m : rmatch) : option nat :=
  match m_caps m with
  | (i, _) :: _ => Some i
  | [] => None
  end.

(** [m.group(i)] of a group that took part in the match. *)
Definition group_or_empty (i : nat) (m : rmatch) : str :=
  match group i (m_caps m) with Some g => g | None => [] end.

(** The line boundaries of [str.splitlines]. *)
Definition is_linebreak (c : Z) : bool :=
  in_range 10 13 c || in_range 28 30 c || (c =? 133) || (c =? 8232)
  || (c =? 8233).

(** [s.splitlines()]; [after_cr] tells that the previous character was a
    carriage return, which takes a following line feed with it. *)
Fixpoint splitlines_go (cur : str) (after_cr : bool) (s : str) : list str :=
  match s with
  | [] => match cur with [] => [] | _ => [cur] end
  | c :: s' =>
    if after_cr && (c =? 10) then splitlines_go cur false s'
    else if is_linebreak c then cur :: splitlines_go [] (c =? 13) s'
    else splitlines_go (cur ++ [c]) false s'
  end.

Definition splitlines (s : str) : list str := splitlines_go [] false s.

(** [list(dict.fromkeys(l))] *)
Fixpoint fromkeys (seen : list str) (l : list str) : list str :=
  match l with
  | [] => []
  | t :: l' =>
    if existsb (str_eqb t) seen then fromkeys seen l'
    else t :: fromkeys (t :: seen) l'
  end.

Definition AGENCY_HINTS : list str := map u
  [ "조달청"; "공단"; "청"; "원"; "부"; "시"; "기관" ]%string.

Fixpoint first_hint_line (lines : list str) : str :=
  match lines with
  | [] => []
  | line :: lines' =>
    if contains_any AGENCY_HINTS line then firstn 60 (strip line)
    else first_hint_line lines'
  end.

Definition _guess_agency_from_text (text : str) : str :=
  first_hint_line (firstn 80 (splitlines text)).

Definition _canon (name : str) : str :=
  let n := name in
  let n := strip (replace (u "주식회사") [] (replace (u "㈜") [] n)) in
  let n := Re.sub (Rep isspace 1 None) [32] n in
  n.

Section Tables.
(** What the module takes from the Unicode database and the standard
    library: the word characters of [\w], [ch.isdigit()], [float(s)]
    ([None] is the [ValueError]) and the round trip
    [datetime.strptime(raw, "%Y-%m-%d").strftime("%Y-%m-%d")] ([None] is
    the exception). *)
Variable isword : Z -> bool.
Variable isdigit : Z -> bool.
Variable py_float : str -> option Q.
Variable strptime_ymd : str -> option str.

(** [[\w\-\(\)&·㈜\s]] *)
Definition winner_char (c : Z) : bool :=
  isword c || is_in (u "-()&·㈜") c || isspace c.

(** [\s*[:：]\s*] *)
Definition COLON : re :=
  Cat (Rep isspace 0 None)
      (Cat (Chr (is_in (u ":："))) (Rep isspace 0 None)).

(** Two groups. *)
Definition WINNER_PAT : re :=
  Cat (Grp 1 (Alt (Alt (Lit (u "낙찰자")) (Lit (u "낙찰업체")))
                  (Cat (Lit (u "낙찰"))
                       (Cat (Rep isspace 0 None) (Lit (u "사"))))))
      (Cat COLON (Grp 2 (Rep winner_char 1 None))).

(** Three groups. *)
Definition AMOUNT_PAT : re :=
  Cat (Grp 1 (Alt (Alt (Lit (u "낙찰금액")) (Lit (u "계약금액")))
                  (Lit (u "금액"))))
      (Cat COLON
           (Cat (Grp 2 (Rep (fun c => digit09 c || (c =? 44)) 1 None))
                (Cat (Rep isspace 0 None)
                     (Opt (Grp 3 (Alt (Lit (u "원")) (Lit (u "KRW")))))))).

Definition date_sep (c : Z) : bool := is_in (u "./-") c.

(** Two groups. *)
Definition DATE_PAT : re :=
  Cat (Grp 1 (Alt (Alt (Lit (u "개찰일")) (Lit (u "계약일")))
                  (Lit (u "발표일"))))
      (Cat COLON
           (Grp 2 (Cat (Rep digit09 4 (Some 4%nat))
                       (Cat (Chr date_sep)
                            (Cat (Rep digit09 1 (Some 2%nat))
                                 (Cat (Chr date_sep)
                                      (Rep digit09 1 (Some 2%nat)))))))).

(** One group. *)
Definition TITLE_WINNER_PAT : re :=
  Cat (Lit (u "낙찰"))
      (Cat (Rep isspace 0 None)
           (Cat (Alt (Alt (Lit (u "자")) (Lit (u "업체"))) (Lit (u "사")))
                (Cat (Rep isspace 0 None)
                     (Cat (Opt (Chr (is_in (u ":："))))
                          (Cat (Rep isspace 0 None)
                               (Grp 1 (Rep winner_char 2 None))))))).

Definition _norm_amount (s : str) : option Q :=
  py_float (strip (replace [44] [] s)).

Definition _extract_award_fields (title text : str)
  : str * option Q * option str :=
  let m := match search WINNER_PAT text with
           | Some m => Some m
           | None => search TITLE_WINNER_PAT title
           end in
  let winner :=
    match m with
    | Some m =>
      strip (match lastindex m with
             | Some i => if (2 <=? i)%nat then group_or_empty 2 m
                         else group_or_empty 1 m
             | None => group_or_empty 1 m
             end)
    | None => []
    end in
  let amount :=
    match search AMOUNT_PAT text with
    | Some am => _norm_amount (group_or_empty 2 am)
    | None => None
    end in
  let open_date :=
    match search DATE_PAT text with
    | Some dm =>
      let raw := replace [47] [45] (replace [46] [45] (group_or_empty 2 dm)) in
      match strptime_ymd raw with
      | Some d => Some d
      | None => Some raw
      end
    | None => None
    end in
  (winner, amount, open_date).

(** [\[[^\]]+\]] *)
Definition BRACKETED : re :=
  Cat (Chr (Z.eqb 91))
      (Cat (Rep (fun c => negb (c =? 93)) 1 None) (Chr (Z.eqb 93))).

(** [[\s/·:,]+] *)
Definition tag_sep (c : Z) : bool := isspace c || is_in (u "/·:,") c.

(** [t.isdigit()] *)
Definition str_isdigit (t : str) : bool :=
  match t with
  | [] => false
  | _ => forallb isdigit t
  end.

Definition _tags_from_title (title : str) : list str :=
  let base := Re.sub BRACKETED [32] title in
  let toks := Re.split (Rep tag_sep 1 None) base in
  let toks :=
    filter (fun t => (2 <=? length t)%nat && negb (str_isdigit t)) toks in
  firstn 8 (fromkeys [] toks).

(** The award read from a retained page. *)
Definition award_of (p : Page) : Award :=
  let url := or_empty (p_url p) in
  let title := or_empty (p_title p) in
  let text := or_empty (p_text p) in
  let '(winner, amount, open_date) := _extract_award_fields title text in
  {| noticeId := firstn 50 title;
     title := strip title;
     agency := _guess_agency_from_text text;
     winner := _canon winner;
     amount := amount;
     openDate := open_date;
     topicTags := _tags_from_title title;
     region := None;
     url := url |}.

(** The value of [by_comp[name]]: the wins and the amounts. *)
Definition ByComp := list (str * (nat * list Q)).

(** [by_comp[a.winner]["wins"] += 1], then the amount when it is
    truthy. *)
Fixpoint tally (name : str) (amt : option Q) (by_comp : ByComp) : ByComp :=
  let add (amounts : list Q) :=
    match amt with
    | Some q => if Qeq_bool q 0 then amounts else amounts ++ [q]
    | None => amounts
    end in
  match by_comp with
  | [] => [(name, (1%nat, add []))]
  | (k, (wins, amounts)) :: rest =>
    if str_eqb name k then (k, (S wins, add amounts)) :: rest
    else (k, (wins, amounts)) :: tally name amt rest
  end.

(** An entry of [ranked]. *)
Record Competitor := {
  c_name : str;
  c_wins : nat;
  c_avgAmount : option Q
}.

Definition average (amounts : list Q) : option Q :=
  match amounts with
  | [] => None
  | _ => Some (Qred (fold_left Qplus amounts 0%Q
                     / inject_Z (Z.of_nat (length amounts)))%Q)
  end.

Definition competitor_of (it : str * (nat * list Q)) : list Competitor :=
  match fst it with
  | [] => []
  | name => [{| c_name := strip name; c_wins := fst (snd it);
                c_avgAmount := average (snd (snd it)) |}]
  end.

(** [x["avgAmount"] or 0] *)
Definition avg_or_0 (c : Competitor) : Q :=
  match c_avgAmount c with
  | Some q => q
  | None => 0%Q
  end.

(** Sort key [(-wins, -(avgAmount or 0))]. *)
Definition competitor_leb (a b : Competitor) : bool :=
  (c_wins b <? c_wins a)%nat
  || ((c_wins a =? c_wins b)%nat
      && Qle_bool (avg_or_0 b) (avg_or_0 a)).

Definition by_comp_of (awards : list Award) : ByComp :=
  fold_left (fun bc a => tally (winner a) (amount a) bc) awards [].

Definition ranked (awards : list Award) : list Competitor :=
  sort competitor_leb (flat_map competitor_of (by_comp_of awards)).

Definition competitor_row (c : Competitor) : json :=
  JDict [ (u "name", JStr (c_name c));
          (u "wins", JInt (Z.of_nat (c_wins c)));
          (u "avgAmount", match c_avgAmount c with
                          | Some q => JFloat q
                          | None => JNull
                          end) ].

(** The ranking that [build_competitor_intel_from_pages] computes from
    the retained pages. *)
Definition rank_competitors (retained : list Page) : list json :=
  map competitor_row (ranked (map award_of retained)).

(** [build_competitor_intel_from_pages], whole. *)
Definition build_intel (pages : list Page) (query : str) : CompetitorIntel :=
  build_competitor_intel_from_pages rank_competitors pages query.

End Tables.
End IntelRank.

(* ================================================================= *)
(** * Notions used to state the properties *)

Module PySpec.
Import Py.

(** [Before l a b]: [a] occurs in [l] ahead of an occurrence of [b]. *)
Definition Before {A : Type} (l : list A) (a b : A) : Prop :=
  exists l1 l2 l3, l = l1 ++ a :: l2 ++ b :: l3.

(** [desc key]: the order of [sorted(..., key=key, reverse=True)]. *)
Definition desc {A : Type} (key : A -> nat) (x y : A) : bool :=
  Nat.leb (key y) (key x).

(** Higher key first; equal keys in the order of [l]. *)
Definition desc_stable {A : Type} (key : A -> nat) (l : list A) (a b : A)
  : Prop :=
  (key b < key a)%nat \/ (key a = key b /\ Before l a b).

(** The length of the longest prefix of [s] in the class [c]. *)
Fixpoint run (c : Z -> bool) (s : str) : nat :=
  match s with
  | [] => O
  | x :: s' => if c x then S (run c s') else O
  end.

(** [z] does not occur in [s]. *)
Definition no_char (z : Z) (s : str) : Prop := Forall (fun c => c <> z) s.

End PySpec.

Module ReSpec.
Import Py Re.

(** A lower bound on the length of what a pattern matches. *)
Fixpoint min_len (r : re) : nat :=
  match r with
  | Chr _ => 1
  | Lit s => length s
  | Cat a b => min_len a + min_len b
  | Alt a b => Nat.min (min_len a) (min_len b)
  | Opt _ => 0
  | Rep _ lo _ => lo
  | Grp _ a => min_len a
  end.

End ReSpec.

Module AwardsSpec.
Import Py Re Json Awards PySpec.

(** [[ \t]+ -> " "] as a left-to-right pass; [prev] tells that the
    previous character was a blank. *)
Fixpoint collapse_blanks (prev : bool) (s : str) : str :=
  match s with
  | [] => []
  | x :: s' =>
    if blank x
    then if prev then collapse_blanks true s'
         else 32 :: collapse_blanks true s'
    else x :: collapse_blanks false s'
  end.

(** [\n{3,} -> "\n\n"] as a left-to-right pass; [k] counts the newlines
    just passed. *)
Fixpoint cap_newlines (k : nat) (s : str) : str :=
  match s with
  | [] => []
  | x :: s' =>
    if newline x
    then if (2 <=? k)%nat then cap_newlines k s'
         else 10 :: cap_newlines (S k) s'
    else x :: cap_newlines 0 s'
  end.

Definition NBSP : str := u "&nbsp;".

(** What a cleaned string looks like. *)
Record cleaned (y : str) : Prop := {
  no_zwsp : no_char 8203 y;
  no_zwnj : no_char 8204 y;
  no_bom : no_char 65279 y;
  no_nbsp_entity : contains NBSP y = false;
  no_nbsp : no_char 160 y;
  no_cr : no_char 13 y;
  blanks_collapsed : collapse_blanks false y = y;
  newlines_capped : cap_newlines 0 y = y
}.

(** A table that covers the characters of the scenarios below: Basic
    Latin letters and digits and the Hangul syllables. *)
Definition basic_unicode : Unicode := {|
  isalpha := fun c => hangul c || upper c || lower c;
  isdigit := digit09;
  decimal := fun c => if digit09 c then Some (c - 48) else None
|}.

(** The capability that answers nothing usable: every call gives [{}]. *)
Definition silent : Llm := fun _ _ _ _ => [].

Definition page (url title text : string) : Awards.Page :=
  {| Awards.p_url := Some (u url); Awards.p_title := Some (u title);
     Awards.p_text := Some (u text) |}.

(** [d[k1][k2]...] *)
Fixpoint path (ks : list string) (v : json) : option json :=
  match ks with
  | [] => Some v
  | k :: ks' =>
    match field k v with
    | Some v' => path ks' v'
    | None => None
    end
  end.

(** The number of items of the list at [ks], when there is one. *)
Definition list_length (ks : list string) (v : json) : option nat :=
  match path ks v with
  | Some (JList l) => Some (length l)
  | _ => None
  end.

Definition at_most (n : nat) (o : option nat) : Prop :=
  exists k, o = Some k /\ (k <= n)%nat.

(** The name and the win count of an entry of [topWinners]. *)
Definition row_name (r : json) : str :=
  match field "name" r with Some (JStr s) => s | _ => [] end.

Definition row_wins (r : json) : nat :=
  match field "wins" r with Some (JInt z) => Z.to_nat z | _ => O end.

Definition row_item (r : json) : str * nat := (row_name r, row_wins r).

(** Descending win count, ties by ascending name. *)
Definition by_wins_then_name (a b : json) : Prop :=
  (row_wins b < row_wins a)%nat
  \/ (row_wins a = row_wins b /\ str_leb (row_name a) (row_name b) = true).

(** The counter of wins the aggregation ends with ([win_counter] after
    the last-resort fallback); empty when the capability is missing. *)
Definition final_counter (U : Unicode) (llm : option Llm)
           (pages : list Awards.Page) : Counter :=
  match llm with
  | Some llm =>
    match totals U llm pages with
    | Ok (t, _) => win_counter t
    | Raise _ => []
    end
  | None => []
  end.

(** What an amount assignment leaves untouched in a candidate. *)
Definition core (c : Cand) : str * Z * (nat * nat) :=
  (c_name c, c_score c, c_pos c).

(** Names that are not empty, not yet seen and pairwise distinct: what
    [dedup_by] produces and leaves alone. *)
Fixpoint fresh {A : Type} (name : A -> str) (seen : list str) (l : list A)
  : Prop :=
  match l with
  | [] => True
  | w :: l' =>
    name w <> [] /\ existsb (str_eqb (name w)) seen = false
    /\ fresh name (name w :: seen) l'
  end.

(** The page of scenario A. *)
Definition scenario_a_text : str :=
  u "낙찰자: 한빛시스템 (주), 낙찰금액: 1,200,000,000원".

Definition scenario_a : list Awards.Page :=
  [ {| Awards.p_url := Some (u "http://a"); Awards.p_title := Some (u "t");
       Awards.p_text := Some scenario_a_text |} ].

(** Two pages, one winner each. *)
Definition two_winner_pages : list Awards.Page :=
  [ page "http://a" "first" "낙찰자: 나라시스템";
    page "http://b" "second" "낙찰자: 가람시스템" ].

End AwardsSpec.

Module IntelSpec.
Import Py Json Intel.

(** A page is retained when its text is not empty and its title followed
    by its text contains an award-context keyword. *)
Definition retained (p : Page) : bool :=
  match or_empty (p_text p) with
  | [] => false
  | text => contains_any AWARD_CONTEXT (or_empty (p_title p) ++ text)
  end.

(** The evidence item of a retained page. *)
Definition evidence_of (p : Page) : json :=
  JDict [ (u "url", JStr (or_empty (p_url p)));
          (u "snippet", JStr (snippet (or_empty (p_text p)))) ].

(** The occurrences of the competitiveness keywords in the page texts. *)
Definition occurrences (pages : list Page) : nat :=
  list_sum
    (map (fun k =>
            list_sum (map (fun p => count k (or_empty (p_text p))) pages))
         CCI_KEYS).

End IntelSpec.

(* ================================================================= *)
(** * Further notions used to state the properties *)

Module MoreSpec.
Import Py Re Json Awards PySpec AwardsSpec.

(** [needs ks r]: by its shape, [r] only matches a text that contains
    one of the literals [ks]. *)
Fixpoint needs (ks : list str) (r : re) : bool :=
  match r with
  | Lit p => contains_any ks p
  | Cat a b => needs ks a || needs ks b
  | Alt a b => needs ks a && needs ks b
  | Grp _ a => needs ks a
  | Chr _ | Opt _ | Rep _ _ _ => false
  end.

(** The words one of which every winner pattern asks for: the winner
    keywords and the company labels. *)
Definition TRIGGERS : list str :=
  WINNER_KEYS ++ map u ["업체명"; "사업자"; "제안사"; "업체"]%string.

(** A chunk is not empty, and it fits the limit unless it is one whole
    paragraph. *)
Definition chunk_ok (max_len : Z) (paras : list str) (c : str) : Prop :=
  c <> [] /\ (Z.of_nat (length c) <= max_len \/ In c paras).

(** The characters [_norm_company] strips from both ends. *)
Definition EDGE : str := u " ,.;:·-()[]|".

(** An amount, when there is one, is a string that looks like a
    number. *)
Definition amount_ok (U : Unicode) (amt : json) : Prop :=
  amt = JNull \/ exists a, amt = JStr a /\ _is_number_like U a = true.

(** A candidate has no amount, or one that looks like a number. *)
Definition cand_amount_ok (U : Unicode) (c : Cand) : Prop :=
  match c_amount c with
  | None => True
  | Some a => _is_number_like U a = true
  end.

(** What the loop over the sentences keeps: distinct reasons of 1 to 100
    characters. *)
Definition reasons_ok (rs : list str) : Prop :=
  NoDup rs /\ Forall (fun r => (1 <= length r <= 100)%nat) rs.

(** The entries of a counter have keys of at least two characters and
    counts of at least one. *)
Definition counter_ok (c : Counter) : Prop :=
  Forall (fun it => (2 <= length (fst it))%nat /\ (1 <= snd it)%nat) c.

(** What the loop over the chunks keeps. *)
Definition acc_ok (acc : Acc) : Prop :=
  Forall (fun w => (2 <= length (w_name w))%nat) (winners_all acc)
  /\ Forall (fun r => (length r <= 100)%nat) (reasons_all acc)
  /\ counter_ok (agency_votes acc).

(** How many of the winners [ws] are named [k]. *)
Definition occ (k : str) (ws : list Winner) : nat :=
  length (filter (fun w => str_eqb k (w_name w)) ws).

(** The evidence a page gives: none without a text. *)
Definition evidence_of_page (p : Awards.Page) : list Evidence :=
  match _clean_html_ws (Awards.or_empty (Awards.p_text p)) with
  | [] => []
  | text =>
    [{| e_url := strip (Awards.or_empty (Awards.p_url p));
        e_title := strip (Awards.or_empty (Awards.p_title p));
        e_snippet := _truncate text 240 |}]
  end.

(** What the loop over the pages keeps; the evidences count the pages
    read so far. *)
Definition pages_ok (acc : PagesAcc) : Prop :=
  Forall (fun w => (2 <= length (w_name w))%nat) (all_winners acc)
  /\ (forall k, (occ k (all_winners acc) <= length (evidences acc))%nat)
  /\ Forall (fun r => (length r <= 100)%nat) (all_reasons acc)
  /\ counter_ok (agency_counts acc)
  /\ NoDup (map fst (agency_counts acc)).

(** A counter of winners: distinct names of at least two characters,
    each counted between once and [n] times. *)
Definition wins_ok (n : nat) (c : Counter) : Prop :=
  NoDup (map fst c)
  /\ Forall (fun it => (2 <= length (fst it))%nat
                       /\ (1 <= snd it <= n)%nat) c.

(** An integer that [float] converts. *)
Definition float_range (z : Z) : Prop := Z.abs z < 2 ^ 1024 - 2 ^ 970.

(** An answer the loops can read: its winners and its reasons can be
    iterated, and no winner carries an integer amount out of the range
    of [float]. *)
Definition answer_ok (d : dict) : Prop :=
  exists ws rs,
    iterate (get_or (u "winners") (JList []) d) = Ok ws
    /\ iterate (get_or (u "reasons") (JList []) d) = Ok rs
    /\ (forall dd z, In (JDict dd) ws ->
                     get (u "amount") dd = Some (JInt z) -> float_range z).

(** An amount that the count of the winners converts without raising. *)
Definition amount_converts (v : json) : Prop :=
  match v with
  | JInt z => float_range z
  | _ => True
  end.

(** The name and the count of an entry of the legacy winners. *)
Definition legacy_item (r : json) : str * nat :=
  (match field "name" r with Some (JStr s) => s | _ => [] end,
   match field "count" r with Some (JInt z) => Z.to_nat z | _ => O end).

(** The counter after the winners [ws], from the counter [c]. *)
Definition count_names (ws : list Winner) (c : Counter) : Counter :=
  fold_left (fun c w => match w_name w with [] => c | nm => incr nm c end)
            ws c.

(** The reason and the frequency of an entry of [topReasons]; the
    frequency of an entry of [agencies]. *)
Definition row_reason (r : json) : str :=
  match field "reason" r with Some (JStr s) => s | _ => [] end.

Definition row_freq (r : json) : nat :=
  match field "freq" r with Some (JInt z) => Z.to_nat z | _ => O end.

(** The amount of a winner converts. *)
Definition converts (w : Winner) : Prop := amount_converts (w_amount w).

(** The state the loop over the pages starts from. *)
Definition no_page : PagesAcc :=
  {| calls := 0; all_winners := []; all_reasons := [];
     agency_counts := []; evidences := [] |}.

(** The texts of the pages, cleaned and joined by blank lines. *)
Definition all_text (pages : list Awards.Page) : str :=
  join [10; 10]
       (map (fun p => _clean_html_ws (Awards.or_empty (Awards.p_text p)))
            pages).

(** A capability that names one winner, with an amount, for every
    chunk. *)
Definition helpful : Llm := fun _ _ _ _ =>
  [ (u "winners",
     JList [ JDict [ (u "name", JStr (u "한빛시스템"));
                     (u "amount", JInt 1200000000) ] ]);
    (u "reasons", JList [ JStr (u "기술평가 우수") ]);
    (u "agency", JStr (u "조달청") ) ].

(** Two pages of which neither names a winner: the label ends the first
    and the company opens the second. *)
Definition split_pages : list Awards.Page :=
  [ page "http://a" "first" "낙찰자:";
    page "http://b" "second" "한빛시스템" ].

End MoreSpec.

Module RankSpec.
Import Py Re Json Intel IntelRank PySpec.

(** Every whitespace character of [s] is a space that a character other
    than whitespace follows. *)
Fixpoint spaced (s : str) : bool :=
  match s with
  | [] => true
  | x :: s' =>
    if isspace x
    then (x =? 32)
         && match s' with [] => false | y :: _ => negb (isspace y) end
         && spaced s'
    else spaced s'
  end.

(** [s] neither starts nor ends with whitespace, and its words are
    separated by single spaces. *)
Definition tidy (s : str) : bool :=
  match s with
  | [] => true
  | x :: _ => negb (isspace x) && spaced s
  end.

(** The labels one of which the date pattern asks for. *)
Definition DATE_LABELS : list str :=
  map u [ "개찰일"; "계약일"; "발표일" ]%string.

(** All the wins counted in [by_comp]. *)
Definition wins_total (bc : ByComp) : nat :=
  list_sum (map (fun it => fst (snd it)) bc).

(** The order of the ranking: more wins first, and among equal wins the
    larger average amount first, a missing average counting as 0. *)
Definition by_rank (a b : Competitor) : Prop :=
  (c_wins b < c_wins a)%nat
  \/ (c_wins a = c_wins b /\ (avg_or_0 b <= avg_or_0 a)%Q).

(** What the aggregation by winner keeps. *)
Definition by_comp_ok (n : nat) (bc : ByComp) : Prop :=
  NoDup (map fst bc)
  /\ Forall (fun it => tidy (fst it) = true /\ (1 <= fst (snd it))%nat) bc
  /\ wins_total bc = n.

(** What the ranking keeps. *)
Definition ranked_ok (n : nat) (cs : list Competitor) : Prop :=
  NoDup (map c_name cs)
  /\ Forall (fun c => c_name c <> [] /\ tidy (c_name c) = true
                      /\ (1 <= c_wins c)%nat) cs
  /\ (list_sum (map c_wins cs) <= n)%nat.

End RankSpec.

(* ================================================================= *)
(** * Properties of the string and container primitives *)

Module PyFacts.
Import Py PySpec.

Lemma str_eqb_eq (a b : str) : str_eqb a b = true <-> a = b.
Proof.
  revert b. induction a as [|x a IH]; intros [|y b]; simpl;
    try (split; [discriminate | congruence]); [tauto|].
  rewrite andb_true_iff, Z.eqb_eq, IH. split.
  - intros [-> ->]. reflexivity.
  - intros H. injection H as -> ->. auto.
Qed.

Section SortFacts.
Context {A : Type} (leb : A -> A -> bool).

Lemma In_insert (a x : A) (l : list A) :
  In a (insert leb x l) <-> a = x \/ In a l.
Proof.
  induction l as [|y l IH]; simpl.
  - intuition.
  - destruct (leb x y); simpl; [intuition|].
    rewrite IH. intuition.
Qed.

Lemma In_sort (a : A) (l : list A) : In a (sort leb l) <-> In a l.
Proof.
  induction l as [|x l IH]; simpl; [tauto|].
  rewrite In_insert, IH. intuition.
Qed.


End SortFacts.

Lemma StronglySorted_impl {A : Type} (R R' : A -> A -> Prop) (l : list A) :
  (forall a b, R a b -> R' a b) ->
  StronglySorted R l -> StronglySorted R' l.
Proof.
  intros HR. induction 1 as [|a l Hs IH Hf]; constructor; auto.
  eapply Forall_impl; [|exact Hf]. auto.
Qed.

Lemma StronglySorted_firstn {A : Type} (R : A -> A -> Prop) (n : nat)
      (l : list A) :
  StronglySorted R l -> StronglySorted R (firstn n l).
Proof.
  intros H. revert n. induction H as [|a l Hs IH Hf]; intros [|n]; simpl;
    try constructor; auto.
  apply Forall_forall. intros b Hb.
  rewrite Forall_forall in Hf. apply Hf.
  revert Hb. clear. revert l. induction n as [|n IHn]; intros [|x l]; simpl;
    try tauto. intros [->|H]; auto.
Qed.

Lemma StronglySorted_map {A B : Type} (f : A -> B) (R : B -> B -> Prop)
      (l : list A) :
  StronglySorted (fun a b => R (f a) (f b)) l -> StronglySorted R (map f l).
Proof.
  induction 1 as [|a l Hs IH Hf]; simpl; constructor; auto.
  apply Forall_map. exact Hf.
Qed.

(** ** Stability of the descending sort behind [most_common] *)
Section Stable.
Context {A : Type} (key : A -> nat).

Lemma desc_stable_cons (x : A) (l : list A) (a b : A) :
  desc_stable key l a b -> desc_stable key (x :: l) a b.
Proof.
  intros [H|[H (l1 & l2 & l3 & ->)]]; [now left|right].
  split; [exact H|]. exists (x :: l1), l2, l3. reflexivity.
Qed.

Lemma insert_desc_stable (x : A) (l s : list A) :
  StronglySorted (desc_stable key (x :: l)) s ->
  (forall w, In w s -> In w l) ->
  StronglySorted (desc_stable key (x :: l)) (insert (desc key) x s).
Proof.
  induction 1 as [|y s Hs IH Hf]; intros Hin; simpl.
  - repeat constructor.
  - rewrite Forall_forall in Hf. unfold desc at 1.
    destruct (Nat.leb (key y) (key x)) eqn:Hxy.
    + apply Nat.leb_le in Hxy.
      constructor; [constructor; auto; apply Forall_forall; auto|].
      apply Forall_forall. intros w Hw.
      assert (Hkw : (key w <= key x)%nat).
      { destruct Hw as [<-|Hw]; [exact Hxy|].
        destruct (Hf w Hw) as [H|[H _]]; lia. }
      destruct (Nat.eq_dec (key x) (key w)) as [E|E].
      * right. split; [exact E|].
        destruct (in_split w l (Hin w Hw)) as (l2 & l3 & ->).
        exists [], l2, l3. reflexivity.
      * left. lia.
    + apply Nat.leb_gt in Hxy.
      constructor.
      * apply IH. intros w Hw. apply Hin. now right.
      * apply Forall_forall. intros w Hw.
        apply In_insert in Hw. destruct Hw as [->|Hw]; [now left|].
        apply Hf, Hw.
Qed.

Lemma sort_desc_stable (l : list A) :
  StronglySorted (desc_stable key l) (sort (desc key) l).
Proof.
  induction l as [|x l IH]; simpl; [constructor|].
  apply insert_desc_stable.
  - eapply StronglySorted_impl; [|exact IH].
    intros a b. apply desc_stable_cons.
  - intros w. apply In_sort.
Qed.
End Stable.

Lemma most_common_sorted (n : nat) (c : Counter) :
  StronglySorted (desc_stable snd c) (most_common n c).
Proof.
  unfold most_common. apply StronglySorted_firstn.
  apply (sort_desc_stable snd).
Qed.

(** ** Counting occurrences across a join *)
Section CountJoin.
Variable sep : Z.
Variable k : str.
Hypothesis k_nonempty : k <> [].
Hypothesis k_no_sep : is_in k sep = false.

Lemma startswith_length (p s : str) :
  startswith p s = true -> (length p <= length s)%nat.
Proof.
  revert s. induction p as [|x p IH]; intros [|y s]; simpl;
    try lia; try discriminate.
  intros H. apply andb_true_iff in H. destruct H as [_ H].
  apply IH in H. lia.
Qed.

Lemma startswith_before_sep (p a b : str) :
  is_in p sep = false ->
  p <> [] ->
  startswith p (a ++ sep :: b) = startswith p a.
Proof.
  revert a. induction p as [|x p IH]; intros a Hp Hne; [congruence|].
  unfold is_in in Hp. simpl in Hp. apply orb_false_iff in Hp.
  destruct Hp as [Hx Hp].
  destruct a as [|y a]; simpl.
  - rewrite Z.eqb_sym, Hx. reflexivity.
  - destruct p as [|x' p'].
    + reflexivity.
    + rewrite IH; [reflexivity | exact Hp | discriminate].
Qed.

Lemma count_go_before_sep (b : str) :
  forall (a : str) (skip : nat),
    (skip <= length a)%nat ->
    count_go k skip (a ++ sep :: b)
    = (count_go k skip a + count_go k 0 b)%nat.
Proof.
  induction a as [|c a IH]; intros skip Hskip.
  - simpl in Hskip. assert (skip = O) by lia. subst skip.
    simpl. destruct k as [|x k'] eqn:Hk; [congruence|].
    unfold is_in in k_no_sep. simpl in k_no_sep.
    apply orb_false_iff in k_no_sep. destruct k_no_sep as [Hx _].
    simpl. rewrite Z.eqb_sym, Hx. reflexivity.
  - destruct skip as [|j].
    + change (count_go k 0 ((c :: a) ++ sep :: b))
        with (if startswith k ((c :: a) ++ sep :: b)
              then S (count_go k (pred (length k)) (a ++ sep :: b))
              else count_go k 0 (a ++ sep :: b)).
      change (count_go k 0 (c :: a))
        with (if startswith k (c :: a)
              then S (count_go k (pred (length k)) a)
              else count_go k 0 a).
      rewrite startswith_before_sep by assumption.
      destruct (startswith k (c :: a)) eqn:Hs.
      * apply startswith_length in Hs. simpl in Hs.
        rewrite IH by lia. reflexivity.
      * apply IH. lia.
    + simpl. apply IH. simpl in Hskip. lia.
Qed.

Lemma count_join (texts : list str) :
  count k (join [sep] texts) = list_sum (map (count k) texts).
Proof.
  induction texts as [|a texts IH]; [reflexivity|].
  destruct texts as [|b texts].
  - simpl. lia.
  - change (join [sep] (a :: b :: texts))
      with (a ++ sep :: join [sep] (b :: texts)).
    unfold count at 1. rewrite count_go_before_sep by lia.
    fold (count k a). fold (count k (join [sep] (b :: texts))).
    rewrite IH. reflexivity.
Qed.
End CountJoin.

Lemma In_firstn {A : Type} (n : nat) (l : list A) (a : A) :
  In a (firstn n l) -> In a l.
Proof.
  revert l. induction n as [|n IH]; intros [|x l]; simpl; try tauto.
  intros [->|H]; auto.
Qed.


End PyFacts.

(* ================================================================= *)
(** * Properties of the patterns *)

Module ReFacts.
Import Py Re PySpec ReSpec.

(** ** No empty match *)

Lemma lit_rest_length (p s s' : str) :
  lit_rest p s = Some s' -> length s = (length p + length s')%nat.
Proof.
  revert s. induction p as [|x p IH]; intros [|y s]; simpl;
    try discriminate.
  - intros H. injection H as <-. reflexivity.
  - intros H. injection H as <-. reflexivity.
  - destruct (x =? y); [|discriminate]. intros H. rewrite (IH _ H).
    reflexivity.
Qed.

Lemma rep_greedy_advances (c : Z -> bool) (s : str) :
  forall lo hi pos cs k x,
    rep_greedy c lo hi s pos cs k = Some x ->
    exists s1 p1 c1, k s1 p1 c1 = Some x /\ (pos + lo <= p1)%nat.
Proof.
  induction s as [|y s IH]; intros lo hi pos cs k x; simpl.
  - destruct lo; [|discriminate]. intros H.
    exists [], pos, cs. split; [exact H | lia].
  - assert (Hstop : match lo with O => k (y :: s) pos cs | S _ => None end
                    = Some x ->
                    exists s1 p1 c1, k s1 p1 c1 = Some x
                                     /\ (pos + lo <= p1)%nat).
    { destruct lo; [|discriminate]. intros H.
      exists (y :: s), pos, cs. split; [exact H | lia]. }
    destruct (c y && may_repeat hi); [|exact Hstop].
    destruct (rep_greedy c (pred lo) (option_map pred hi) s (S pos) cs k)
      as [r|] eqn:Hr; [|exact Hstop].
    intros H. injection H as <-.
    destruct (IH _ _ _ _ _ _ Hr) as (s1 & p1 & c1 & Hk & Hp).
    exists s1, p1, c1. split; [exact Hk | lia].
Qed.

(** A match of [r] ends at least [min_len r] characters further. *)
Lemma mt_advances (r : re) :
  forall s pos cs k x,
    mt r s pos cs k = Some x ->
    exists s1 p1 c1, k s1 p1 c1 = Some x /\ (pos + min_len r <= p1)%nat.
Proof.
  induction r as [c|p|a IHa b IHb|a IHa b IHb|a IHa|c lo hi|i a IHa];
    intros s pos cs k x; simpl.
  - destruct s as [|y s]; [discriminate|].
    destruct (c y); [|discriminate]. intros H.
    exists s, (S pos), cs. split; [exact H | lia].
  - destruct (lit_rest p s) as [s'|]; [|discriminate]. intros H.
    exists s', (pos + length p)%nat, cs. split; [exact H | lia].
  - intros H. destruct (IHa _ _ _ _ _ H) as (s1 & p1 & c1 & H1 & Hp1).
    destruct (IHb _ _ _ _ _ H1) as (s2 & p2 & c2 & H2 & Hp2).
    exists s2, p2, c2. split; [exact H2 | lia].
  - destruct (mt a s pos cs k) as [r|] eqn:Ha.
    + intros H. injection H as <-.
      destruct (IHa _ _ _ _ _ Ha) as (s1 & p1 & c1 & H1 & Hp1).
      exists s1, p1, c1. split; [exact H1 | lia].
    + intros H. destruct (IHb _ _ _ _ _ H) as (s1 & p1 & c1 & H1 & Hp1).
      exists s1, p1, c1. split; [exact H1 | lia].
  - destruct (mt a s pos cs k) as [r|] eqn:Ha.
    + intros H. injection H as <-.
      destruct (IHa _ _ _ _ _ Ha) as (s1 & p1 & c1 & H1 & Hp1).
      exists s1, p1, c1. split; [exact H1 | lia].
    + intros H. exists s, pos, cs. split; [exact H | lia].
  - apply rep_greedy_advances.
  - intros H. destruct (IHa _ _ _ _ _ H) as (s1 & p1 & c1 & H1 & Hp1).
    eexists _, p1, _. split; [exact H1 | exact Hp1].
Qed.

Lemma match_at_nonempty (r : re) (s : str) (pos e : nat) (cs : caps) :
  (0 < min_len r)%nat ->
  match_at r s pos = Some (e, cs) -> (pos < e)%nat.
Proof.
  intros Hr H. unfold match_at in H.
  destruct (mt_advances _ _ _ _ _ _ H) as (s1 & p1 & c1 & H1 & Hp).
  injection H1 as -> _. lia.
Qed.

(** ** Repetition of a class *)

Lemma rep_greedy_run (c : Z -> bool) (s : str) :
  forall lo pos cs,
    rep_greedy c lo None s pos cs (fun _ p c0 => Some (p, c0))
    = if (lo <=? run c s)%nat then Some ((pos + run c s)%nat, cs) else None.
Proof.
  induction s as [|x s IH]; intros lo pos cs; simpl.
  - destruct lo; simpl; [rewrite Nat.add_0_r|]; reflexivity.
  - destruct (c x); simpl.
    + rewrite IH. destruct lo as [|lo]; simpl.
      * rewrite Nat.add_succ_r. reflexivity.
      * destruct (lo <=? run c s)%nat; [|reflexivity].
        rewrite Nat.add_succ_r. reflexivity.
    + destruct lo; simpl; [rewrite Nat.add_0_r|]; reflexivity.
Qed.

Lemma match_at_rep (c : Z -> bool) (lo : nat) (s : str) :
  match_at (Rep c lo None) s 0
  = if (lo <=? run c s)%nat then Some (run c s, []) else None.
Proof. unfold match_at. simpl. apply rep_greedy_run. Qed.

Section SubRep.
Variables (c : Z -> bool) (lo : nat) (repl : str).
Hypothesis lo_pos : (0 < lo)%nat.

Lemma sub_go_skip (k : nat) (s : str) :
  sub_go (Rep c lo None) repl k s
  = sub_go (Rep c lo None) repl 0 (skipn k s).
Proof.
  revert s. induction k as [|k IH]; intros s; [reflexivity|].
  destruct s as [|x s]; simpl.
  - rewrite match_at_rep. simpl. destruct lo; [lia|reflexivity].
  - apply IH.
Qed.

Lemma sub_rep_nil : Re.sub (Rep c lo None) repl [] = [].
Proof.
  unfold Re.sub. simpl. rewrite match_at_rep. simpl.
  destruct lo; [lia|reflexivity].
Qed.

Lemma sub_rep_other (x : Z) (s : str) :
  c x = false ->
  Re.sub (Rep c lo None) repl (x :: s) = x :: Re.sub (Rep c lo None) repl s.
Proof.
  intros Hx. unfold Re.sub.
  change (sub_go (Rep c lo None) repl 0 (x :: s))
    with (match match_at (Rep c lo None) (x :: s) 0 with
          | Some (S n, _) => repl ++ sub_go (Rep c lo None) repl n s
          | Some (O, _) => repl ++ x :: sub_go (Rep c lo None) repl 0 s
          | None => x :: sub_go (Rep c lo None) repl 0 s
          end).
  rewrite match_at_rep. simpl. rewrite Hx.
  destruct lo; [lia|reflexivity].
Qed.

Lemma sub_rep_short (x : Z) (s : str) :
  (run c (x :: s) < lo)%nat ->
  Re.sub (Rep c lo None) repl (x :: s) = x :: Re.sub (Rep c lo None) repl s.
Proof.
  intros Hr. unfold Re.sub.
  change (sub_go (Rep c lo None) repl 0 (x :: s))
    with (match match_at (Rep c lo None) (x :: s) 0 with
          | Some (S n, _) => repl ++ sub_go (Rep c lo None) repl n s
          | Some (O, _) => repl ++ x :: sub_go (Rep c lo None) repl 0 s
          | None => x :: sub_go (Rep c lo None) repl 0 s
          end).
  rewrite match_at_rep.
  destruct (lo <=? run c (x :: s))%nat eqn:E; [|reflexivity].
  apply Nat.leb_le in E. lia.
Qed.

Lemma sub_rep_long (x : Z) (s : str) :
  c x = true ->
  (lo <= run c (x :: s))%nat ->
  Re.sub (Rep c lo None) repl (x :: s)
  = repl ++ Re.sub (Rep c lo None) repl (skipn (run c s) s).
Proof.
  intros Hx Hr. unfold Re.sub.
  change (sub_go (Rep c lo None) repl 0 (x :: s))
    with (match match_at (Rep c lo None) (x :: s) 0 with
          | Some (S n, _) => repl ++ sub_go (Rep c lo None) repl n s
          | Some (O, _) => repl ++ x :: sub_go (Rep c lo None) repl 0 s
          | None => x :: sub_go (Rep c lo None) repl 0 s
          end).
  rewrite match_at_rep.
  destruct (lo <=? run c (x :: s))%nat eqn:E;
    [|apply Nat.leb_gt in E; lia].
  simpl run. rewrite Hx. rewrite sub_go_skip. reflexivity.
Qed.
End SubRep.

End ReFacts.

(* ================================================================= *)
(** * Properties of [awards_miner_llm.py] *)

Module AwardsFacts.
Import Py Re Json Awards PySpec AwardsSpec ReFacts.

(** ** No pattern matches the empty string *)

Lemma patterns_nonempty (U : Unicode) :
  Forall (fun r => (0 < ReSpec.min_len r)%nat)
         [ BLANKS; NEWLINES3; Rep isspace 1 None; COMPANY_CLEAN_PAT;
           Chr (fun c => hangul c || upper c || lower c);
           Chr (is_decimal U); COMPANY_REGEX_A; COMPANY_REGEX_B;
           COMPANY_NEAR_WINNER; AMOUNT_REGEX; AGENCY_REGEX;
           Chr (is_in [10; 46]); Rep newline 2 None; NOT_DIGIT_DOT U ].
Proof.
  repeat (apply Forall_cons; [cbv; lia|]). apply Forall_nil.
Qed.

(** ** The text normalizer *)

Lemma collapse_blanks_run (s : str) :
  collapse_blanks true s = collapse_blanks false (skipn (run blank s) s).
Proof.
  induction s as [|x s IH]; simpl; [reflexivity|].
  destruct (blank x) eqn:Hx; simpl; [exact IH|].
  rewrite Hx. reflexivity.
Qed.

Lemma length_skipn_run (c : Z -> bool) (s : str) :
  (length (skipn (run c s) s) <= length s)%nat.
Proof. rewrite length_skipn. lia. Qed.

Lemma sub_blanks (s : str) : Re.sub BLANKS [32] s = collapse_blanks false s.
Proof.
  remember (length s) as n eqn:Hn. revert s Hn.
  induction n as [n IH] using lt_wf_ind. intros s Hn.
  destruct s as [|x s].
  - apply sub_rep_nil. lia.
  - unfold BLANKS. destruct (blank x) eqn:Hx.
    + rewrite sub_rep_long; [|lia|exact Hx|simpl; rewrite Hx; lia].
      simpl. rewrite Hx. rewrite collapse_blanks_run.
      f_equal. eapply IH; [|reflexivity].
      subst n. simpl. pose proof (length_skipn_run blank s). lia.
    + rewrite sub_rep_other; [|lia|exact Hx].
      simpl. rewrite Hx. f_equal.
      eapply IH; [|reflexivity]. subst n. simpl. lia.
Qed.

Lemma newline_eq (x : Z) : newline x = true -> x = 10.
Proof. apply Z.eqb_eq. Qed.

Lemma cap_newlines_run (s : str) :
  forall k, (k <= 2)%nat ->
    cap_newlines k s
    = repeat 10 (Nat.min (run newline s) (2 - k))
      ++ cap_newlines 0 (skipn (run newline s) s).
Proof.
  induction s as [|x s IH]; intros k Hk; cbn [cap_newlines run skipn];
    [reflexivity|].
  destruct (newline x) eqn:Hx; cbn [skipn].
  - destruct (2 <=? k)%nat eqn:E.
    + apply Nat.leb_le in E. assert (k = 2%nat) by lia. subst k.
      rewrite IH by lia. rewrite !Nat.sub_diag, !Nat.min_0_r. reflexivity.
    + apply Nat.leb_gt in E. rewrite IH by lia.
      replace (2 - k)%nat with (S (2 - S k)) by lia.
      rewrite <- Nat.succ_min_distr. reflexivity.
  - cbn [repeat Nat.min app cap_newlines]. rewrite Hx. reflexivity.
Qed.

Lemma sub_newlines (s : str) :
  Re.sub NEWLINES3 [10; 10] s = cap_newlines 0 s.
Proof.
  remember (length s) as n eqn:Hn. revert s Hn.
  induction n as [n IH] using lt_wf_ind. intros s Hn.
  destruct s as [|x s].
  - apply sub_rep_nil. lia.
  - unfold NEWLINES3. destruct (newline x) eqn:Hx.
    + destruct (le_lt_dec 3 (run newline (x :: s))) as [Hr|Hr].
      * rewrite sub_rep_long; [|lia|exact Hx|exact Hr].
        rewrite (cap_newlines_run (x :: s)) by lia.
        simpl run. rewrite Hx. simpl skipn.
        simpl in Hr. rewrite Hx in Hr.
        replace (Nat.min (S (run newline s)) (2 - 0)) with 2%nat by lia.
        simpl repeat. simpl app. do 2 f_equal.
        eapply IH; [|reflexivity].
        subst n. simpl. pose proof (length_skipn_run newline s). lia.
      * rewrite sub_rep_short; [|lia|exact Hr].
        simpl. rewrite Hx. simpl. rewrite (newline_eq _ Hx). f_equal.
        simpl in Hr. rewrite Hx in Hr.
        rewrite (cap_newlines_run s 1) by lia.
        rewrite (IH (length s)); [|subst n; simpl; lia|reflexivity].
        rewrite (cap_newlines_run s 0) by lia.
        f_equal. f_equal. lia.
    + rewrite sub_rep_other; [|lia|exact Hx].
      simpl. rewrite Hx. f_equal.
      eapply IH; [|reflexivity]. subst n. simpl. lia.
Qed.

(** ** Replacement *)

Lemma replace_go_skip (old new : str) (k : nat) (s : str) :
  replace_go old new k s = replace_go old new 0 (skipn k s).
Proof.
  revert s. induction k as [|k IH]; intros [|c s]; simpl; auto.
Qed.

Lemma replace_go_Forall (P : Z -> Prop) (old new : str) (s : str) :
  Forall P new -> Forall P s ->
  forall k, Forall P (replace_go old new k s).
Proof.
  intros Hnew. induction 1 as [|c s Hc Hs IH]; intros k; simpl;
    [constructor|].
  destruct k as [|k]; [|apply IH].
  destruct (startswith old (c :: s)).
  - apply Forall_app. split; [exact Hnew | apply IH].
  - constructor; [exact Hc | apply IH].
Qed.

Lemma replace_fixed (old new s : str) :
  contains old s = false -> replace old new s = s.
Proof.
  unfold replace. induction s as [|c s IH]; [reflexivity|].
  intros H. cbn [contains] in H. apply orb_false_iff in H.
  destruct H as [Hs Hc]. cbn [replace_go]. rewrite Hs.
  f_equal. apply IH, Hc.
Qed.

Lemma no_char_contains (z : Z) (s : str) :
  no_char z s -> contains [z] s = false.
Proof.
  induction 1 as [|c s Hc Hs IH]; [reflexivity|].
  cbn [contains startswith]. rewrite IH.
  destruct (z =? c) eqn:E; [|reflexivity].
  apply Z.eqb_eq in E. congruence.
Qed.

Lemma replace_char_no_char (z : Z) (new s : str) :
  no_char z new -> forall k, no_char z (replace_go [z] new k s).
Proof.
  intros Hnew. induction s as [|c s IH]; intros k; simpl; [constructor|].
  destruct k as [|k]; [|apply IH].
  destruct (z =? c) eqn:E; simpl.
  - apply Forall_app. split; [exact Hnew | apply IH].
  - constructor; [|apply IH]. apply Z.eqb_neq in E. congruence.
Qed.

Lemma replace_char_map (z r : Z) (s : str) :
  replace [z] [r] s = map (fun c => if c =? z then r else c) s.
Proof.
  unfold replace. induction s as [|c s IH]; [reflexivity|].
  cbn [replace_go startswith map]. rewrite (Z.eqb_sym z c), andb_true_r.
  destruct (c =? z); simpl; rewrite IH; reflexivity.
Qed.

(** ** Occurrences of a pattern after a pass *)

Section Occurrences.
Variable p : str.
Hypothesis p_nonempty : p <> [].

Lemma contains_nil : contains p [] = false.
Proof. destruct p; [congruence|reflexivity]. Qed.

(** A pass that maps every character to itself or to [r], where [r]
    is no character of [p]. *)
Lemma startswith_map_back (f : Z -> Z) (r : Z) (q : str) :
  (forall c, f c = c \/ f c = r) -> no_char r q ->
  forall s, startswith q (map f s) = true -> startswith q s = true.
Proof.
  intros Hf. induction 1 as [|x q Hx Hq IH]; intros s; [reflexivity|].
  destruct s as [|c s]; simpl; [discriminate|].
  intros H. apply andb_true_iff in H. destruct H as [H1 H2].
  apply Z.eqb_eq in H1. rewrite (IH _ H2), andb_true_r.
  apply Z.eqb_eq. destruct (Hf c); congruence.
Qed.

Lemma contains_map_back (f : Z -> Z) (r : Z) :
  (forall c, f c = c \/ f c = r) -> no_char r p ->
  forall s, contains p (map f s) = true -> contains p s = true.
Proof.
  intros Hf Hp. induction s as [|c s IH].
  - cbn [map]. rewrite contains_nil. discriminate.
  - change (map f (c :: s)) with (f c :: map f s).
    cbn [contains]. intros H. apply orb_true_iff in H.
    apply orb_true_iff. destruct H as [H|H].
    + left. apply (startswith_map_back f r p Hf Hp (c :: s)), H.
    + right. apply IH, H.
Qed.

(** Replacing [old] by one character [r] that is not in [p]. *)
Lemma startswith_replace_back (old : str) (r : Z) (q : str) :
  no_char r q ->
  forall s, startswith q (replace old [r] s) = true ->
            startswith q s = true.
Proof.
  unfold replace.
  induction 1 as [|x q Hx Hq IH]; intros s; [reflexivity|].
  destruct s as [|c s]; [simpl; discriminate|].
  cbn [replace_go]. destruct (startswith old (c :: s)).
  - simpl. intros H. apply andb_true_iff in H. destruct H as [H _].
    apply Z.eqb_eq in H. congruence.
  - simpl. intros H. apply andb_true_iff in H. destruct H as [H1 H2].
    rewrite H1. apply IH, H2.
Qed.

Lemma replace_no_occurrence (r : Z) :
  no_char r p ->
  forall s, contains p (replace p [r] s) = false.
Proof.
  intros Hp s.
  remember (length s) as n eqn:Hn. revert s Hn.
  induction n as [n IH] using lt_wf_ind. intros s Hn.
  destruct s as [|c s]; [apply contains_nil|].
  unfold replace. cbn [replace_go].
  destruct (startswith p (c :: s)) eqn:Hs.
  - rewrite replace_go_skip. cbn [app contains].
    fold (replace p [r] (skipn (pred (length p)) s)).
    rewrite (IH (length (skipn (pred (length p)) s)));
      [|subst n; rewrite length_skipn; simpl; lia|reflexivity].
    rewrite orb_false_r.
    destruct p as [|x q]; [congruence|]. inversion Hp; subst.
    simpl. destruct (x =? r) eqn:E; [|reflexivity].
    apply Z.eqb_eq in E. congruence.
  - cbn [contains]. fold (replace p [r] s).
    rewrite (IH (length s)); [|subst n; simpl; lia|reflexivity].
    rewrite orb_false_r.
    destruct (startswith p (c :: replace p [r] s)) eqn:Hs'; [|reflexivity].
    assert (H : startswith p (replace p [r] (c :: s)) = true).
    { unfold replace. cbn [replace_go]. rewrite Hs. exact Hs'. }
    apply (startswith_replace_back p r p Hp) in H. congruence.
Qed.

(** Collapsing blanks, for a pattern without blanks. *)
Lemma startswith_collapse_back (q : str) :
  Forall (fun c => blank c = false) q ->
  forall s, startswith q (collapse_blanks false s) = true ->
            startswith q s = true.
Proof.
  induction 1 as [|x q Hx Hq IH]; intros s; [reflexivity|].
  destruct s as [|c s]; [simpl; discriminate|].
  cbn [collapse_blanks]. destruct (blank c) eqn:Hc.
  - simpl. intros H. apply andb_true_iff in H. destruct H as [H _].
    apply Z.eqb_eq in H. subst x. discriminate.
  - simpl. intros H. apply andb_true_iff in H. destruct H as [H1 H2].
    rewrite H1. apply IH, H2.
Qed.

Lemma contains_collapse_back :
  Forall (fun c => blank c = false) p ->
  forall s b, contains p (collapse_blanks b s) = true ->
              contains p s = true.
Proof.
  intros Hp. induction s as [|c s IH]; intros b.
  - cbn [collapse_blanks]. rewrite contains_nil. discriminate.
  - cbn [collapse_blanks]. destruct (blank c) eqn:Hc.
    + destruct b.
      * intros H. cbn [contains]. rewrite (IH _ H). apply orb_true_r.
      * cbn [contains]. intros H. apply orb_true_iff in H.
        destruct H as [H|H].
        -- destruct p as [|x q]; [congruence|]. inversion Hp; subst.
           simpl in H. apply andb_true_iff in H. destruct H as [H _].
           apply Z.eqb_eq in H. subst x. discriminate.
        -- rewrite (IH _ H). apply orb_true_r.
    + cbn [contains]. intros H. apply orb_true_iff in H.
      apply orb_true_iff. destruct H as [H|H].
      * left. apply (startswith_collapse_back p Hp (c :: s)).
        cbn [collapse_blanks]. rewrite Hc. exact H.
      * right. apply (IH _ H).
Qed.

(** Capping newlines, for a pattern without newlines. *)
Lemma startswith_cap_back (q : str) :
  Forall (fun c => newline c = false) q ->
  forall s, startswith q (cap_newlines 0 s) = true ->
            startswith q s = true.
Proof.
  induction 1 as [|x q Hx Hq IH]; intros s; [reflexivity|].
  destruct s as [|c s]; [simpl; discriminate|].
  cbn [cap_newlines Nat.leb]. destruct (newline c) eqn:Hc.
  - simpl. intros H. apply andb_true_iff in H. destruct H as [H _].
    apply Z.eqb_eq in H. subst x. discriminate.
  - simpl. intros H. apply andb_true_iff in H. destruct H as [H1 H2].
    rewrite H1. apply IH, H2.
Qed.

Lemma contains_cap_back :
  Forall (fun c => newline c = false) p ->
  forall s k, contains p (cap_newlines k s) = true ->
              contains p s = true.
Proof.
  intros Hp. induction s as [|c s IH]; intros k.
  - cbn [cap_newlines]. rewrite contains_nil. discriminate.
  - cbn [cap_newlines]. destruct (newline c) eqn:Hc.
    + destruct (2 <=? k)%nat.
      * intros H. cbn [contains]. rewrite (IH _ H). apply orb_true_r.
      * cbn [contains]. intros H. apply orb_true_iff in H.
        destruct H as [H|H].
        -- destruct p as [|x q]; [congruence|]. inversion Hp; subst.
           simpl in H. apply andb_true_iff in H. destruct H as [H _].
           apply Z.eqb_eq in H. subst x. discriminate.
        -- rewrite (IH _ H). apply orb_true_r.
    + cbn [contains]. intros H. apply orb_true_iff in H.
      apply orb_true_iff. destruct H as [H|H].
      * left. apply (startswith_cap_back p Hp (c :: s)).
        cbn [cap_newlines]. rewrite Hc. exact H.
      * right. apply (IH _ H).
Qed.
End Occurrences.

(** ** The two passes *)

Lemma collapse_blanks_Forall (P : Z -> Prop) (s : str) :
  P 32 -> Forall P s -> forall b, Forall P (collapse_blanks b s).
Proof.
  intros H32. induction 1 as [|c s Hc Hs IH]; intros b; simpl;
    [constructor|].
  destruct (blank c); [destruct b|]; try constructor; auto.
Qed.

Lemma cap_newlines_Forall (P : Z -> Prop) (s : str) :
  P 10 -> Forall P s -> forall k, Forall P (cap_newlines k s).
Proof.
  intros H10. induction 1 as [|c s Hc Hs IH]; intros k;
    cbn [cap_newlines]; [constructor|].
  destruct (newline c); [destruct (2 <=? k)%nat|]; try constructor; auto.
Qed.

Lemma collapse_blanks_length (s : str) :
  forall b, (length (collapse_blanks b s) <= length s)%nat.
Proof.
  induction s as [|c s IH]; intros b; simpl; [lia|].
  destruct (blank c); [destruct b|]; simpl;
    match goal with |- context [collapse_blanks ?b s] =>
                    specialize (IH b) end; lia.
Qed.

Lemma collapse_blanks_idem (s : str) :
  forall b, collapse_blanks b (collapse_blanks b s) = collapse_blanks b s.
Proof.
  induction s as [|c s IH]; intros b; [reflexivity|].
  cbn [collapse_blanks]. destruct (blank c) eqn:Hc.
  - destruct b; [apply IH|].
    cbn [collapse_blanks]. change (blank 32) with true. cbn iota.
    f_equal. apply IH.
  - cbn [collapse_blanks]. rewrite Hc. f_equal. apply IH.
Qed.

Lemma cap_newlines_idem (s : str) :
  forall k, cap_newlines k (cap_newlines k s) = cap_newlines k s.
Proof.
  induction s as [|c s IH]; intros k; [reflexivity|].
  cbn [cap_newlines]. destruct (newline c) eqn:Hc.
  - destruct (2 <=? k)%nat eqn:E; [apply IH|].
    cbn [cap_newlines]. change (newline 10) with true. cbn iota.
    rewrite E. f_equal. apply IH.
  - cbn [cap_newlines]. rewrite Hc. f_equal. apply IH.
Qed.

(** Capping newlines never brings two blanks together. *)
Lemma collapse_blanks_cap_newlines (v : str) :
  forall b k,
    ((0 < k)%nat -> b = false) ->
    collapse_blanks b v = v ->
    collapse_blanks b (cap_newlines k v) = cap_newlines k v.
Proof.
  induction v as [|x v IH]; intros b k Hbk; [reflexivity|].
  cbn [collapse_blanks]. destruct (blank x) eqn:Hx.
  - destruct b.
    + intros H. pose proof (collapse_blanks_length v true) as Hl.
      rewrite H in Hl. simpl in Hl. lia.
    + intros H. injection H as H32 Hv. subst x.
      cbn [cap_newlines]. change (newline 32) with false. cbn iota.
      cbn [collapse_blanks]. change (blank 32) with true. cbn iota.
      f_equal. apply IH; [lia | exact Hv].
  - intros H. injection H as Hv.
    cbn [cap_newlines]. destruct (newline x) eqn:Hn.
    + apply newline_eq in Hn. subst x.
      destruct (2 <=? k)%nat eqn:E.
      * apply Nat.leb_le in E. rewrite (Hbk ltac:(lia)).
        apply IH; [reflexivity | exact Hv].
      * cbn [collapse_blanks]. change (blank 10) with false. cbn iota.
        f_equal. apply IH; [reflexivity | exact Hv].
    + cbn [collapse_blanks]. rewrite Hx. f_equal.
      apply IH; [reflexivity | exact Hv].
Qed.

Lemma clean_html_ws_passes (s : str) :
  _clean_html_ws s
  = cap_newlines 0
      (collapse_blanks false
         (replace [13] [10]
            (replace [160] [32]
               (replace NBSP [32]
                  (replace [65279] []
                     (replace [8204] [] (replace [8203] [] s))))))).
Proof.
  unfold _clean_html_ws. cbv zeta. rewrite sub_newlines, sub_blanks.
  reflexivity.
Qed.

Ltac chars :=
  unfold no_char, replace;
  repeat first
         [ apply replace_char_no_char
         | apply cap_newlines_Forall
         | apply collapse_blanks_Forall
         | apply replace_go_Forall ];
  try solve [repeat constructor; discriminate].

Lemma clean_html_ws_cleaned (s : str) : cleaned (_clean_html_ws s).
Proof.
  rewrite clean_html_ws_passes. constructor.
  - chars.
  - chars.
  - chars.
  - match goal with |- ?b = false => destruct b eqn:E; [|reflexivity] end.
    exfalso.
    apply contains_cap_back in E;
      [|discriminate|repeat constructor].
    apply contains_collapse_back in E;
      [|discriminate|repeat constructor].
    rewrite !replace_char_map in E.
    apply (contains_map_back NBSP ltac:(discriminate) _ 10) in E;
      [|intros c; destruct (c =? 13); auto
       |repeat constructor; discriminate].
    apply (contains_map_back NBSP ltac:(discriminate) _ 32) in E;
      [|intros c; destruct (c =? 160); auto
       |repeat constructor; discriminate].
    rewrite (replace_no_occurrence NBSP ltac:(discriminate) 32) in E;
      [discriminate|repeat constructor; discriminate].
  - chars.
  - chars.
  - apply collapse_blanks_cap_newlines; [lia|].
    apply collapse_blanks_idem.
  - apply cap_newlines_idem.
Qed.

Lemma cleaned_fixed (y : str) : cleaned y -> _clean_html_ws y = y.
Proof.
  intros [H1 H2 H3 H4 H5 H6 H7 H8]. rewrite clean_html_ws_passes.
  rewrite (replace_fixed [8203]) by (apply no_char_contains, H1).
  rewrite (replace_fixed [8204]) by (apply no_char_contains, H2).
  rewrite (replace_fixed [65279]) by (apply no_char_contains, H3).
  rewrite (replace_fixed NBSP) by exact H4.
  rewrite (replace_fixed [160]) by (apply no_char_contains, H5).
  rewrite (replace_fixed [13]) by (apply no_char_contains, H6).
  rewrite H7. exact H8.
Qed.

(** C8. The text normalizer is idempotent: cleaning a cleaned string
    changes nothing. *)
Theorem clean_html_ws_idempotent (x : str) :
  _clean_html_ws (_clean_html_ws x) = _clean_html_ws x.
Proof. apply cleaned_fixed, clean_html_ws_cleaned. Qed.

Section Facts.
Context (U : Unicode).

(** ** Unavailable capability *)

(** C5. When the capability cannot be constructed, the extraction
    returns, without raising, a payload that has every key of an award
    snapshot (query, winners, signals with topWinners, topReasons and
    agencies, evidences, score) and a note that flags the
    unavailability. *)
Theorem unavailable_payload_valid (pages : list Awards.Page) (query : str) :
  exists d,
    build_awards_snapshot_llm U None pages query = Ok d
    /\ keys d = map u ["query"; "winners"; "signals"; "evidences"; "score";
                       "note"]%string
    /\ path ["query"]%string d = Some (JStr query)
    /\ path ["winners"]%string d = Some (JList [])
    /\ path ["signals"; "topWinners"]%string d = Some (JList [])
    /\ path ["signals"; "topReasons"]%string d = Some (JList [])
    /\ path ["signals"; "agencies"]%string d = Some (JList [])
    /\ path ["evidences"]%string d = Some (JList [])
    /\ path ["score"; "tech"]%string d = Some JNull
    /\ path ["score"; "price"]%string d = Some JNull
    /\ path ["score"; "total"]%string d = Some JNull
    /\ path ["note"]%string d = Some (JStr (u "LLM unavailable")).
Proof.
  exists (UNAVAILABLE query).
  repeat split; reflexivity.
Qed.

(** ** The ban list *)

(** C7. A name whose cleaned form contains a phrase of the ban list is
    rejected: [_norm_company] returns [None].  The cleaned form is the
    string the tests are made on: the name after [_clean_html_ws], with
    white space collapsed, the corporate markers removed and the
    punctuation at both ends stripped. *)
Theorem norm_company_rejects_banned (name : str) :
  contains_any BAN_TOKENS (cleaned_name name) = true ->
  _norm_company U name = None.
Proof.
  intros Hban. unfold _norm_company.
  destruct name as [|c name']; [reflexivity|].
  cbv zeta. rewrite Hban.
  destruct (length (cleaned_name (c :: name')) <? 2)%nat; reflexivity.
Qed.

(** ** The deterministic extractor *)

Lemma set_amount_core (i : nat) (amt : str) (ws : list Cand) :
  map core (set_amount i amt ws) = map core ws.
Proof.
  revert i. induction ws as [|w ws IH]; intros [|i]; simpl;
    try reflexivity.
  rewrite IH. reflexivity.
Qed.

Lemma amount_step_core (ws : list Cand) (m : rmatch) :
  map core (amount_step U ws m) = map core ws.
Proof.
  unfold amount_step. destruct ws as [|w ws]; [reflexivity|].
  destruct (_is_number_like U _); [|reflexivity].
  unfold assign_amount.
  destruct (find _ _) as [[i ?]|]; [|reflexivity].
  apply set_amount_core.
Qed.

Lemma amount_loop_core (ms : list rmatch) (ws : list Cand) :
  map core (fold_left (amount_step U) ms ws) = map core ws.
Proof.
  revert ws. induction ms as [|m ms IH]; intros ws; simpl; [reflexivity|].
  rewrite IH. apply amount_step_core.
Qed.

Lemma dedup_by_In {A : Type} (name : A -> str) (seen : list str)
      (l : list A) (a : A) :
  In a (dedup_by name seen l) -> In a l.
Proof.
  revert seen. induction l as [|w l IH]; intros seen; simpl; [tauto|].
  destruct (name w) as [|c nm].
  - intros H. right. eapply IH, H.
  - destruct (existsb _ seen).
    + intros H. right. eapply IH, H.
    + intros [->|H]; [now left | right; eapply IH, H].
Qed.

(** A candidate of [winners_raw] comes from a match of one of the three
    patterns, scores at least 2 there, and carries the normalized name. *)
Lemma winners_raw_scored (text : str) (c : Cand) :
  In c (winners_raw U text) ->
  exists rx m cand,
    In rx COMPANY_PATTERNS
    /\ In m (finditer (fst rx) text)
    /\ first_group (groups (snd rx) m) = Some cand
    /\ c_score c = _company_score U cand text (span m)
    /\ 2 <= c_score c
    /\ _norm_company U cand = Some (c_name c)
    /\ c_name c <> [].
Proof.
  unfold winners_raw. rewrite in_flat_map.
  intros (rx & Hrx & Hc). unfold candidates in Hc.
  rewrite in_flat_map in Hc. destruct Hc as (m & Hm & Hc).
  unfold candidate in Hc.
  destruct (first_group (groups (snd rx) m)) as [cand|] eqn:Hg; [|easy].
  destruct (_company_score U cand text (span m) <? 2) eqn:Hs; [easy|].
  destruct (_norm_company U cand) as [[|x nm]|] eqn:Hn; try easy.
  destruct Hc as [<-|[]]. simpl.
  exists rx, m, cand. apply Z.ltb_ge in Hs.
  repeat split; auto. discriminate.
Qed.

(** The winners the extractor returns are candidates of [winners_raw],
    up to the amount. *)
Lemma fallback_winner_raw (text : str) (w : Winner) :
  In w (fst (fst (_fallback_extract U text))) ->
  exists c, In c (winners_raw U (_clean_html_ws text))
            /\ c_name c = w_name w.
Proof.
  unfold _fallback_extract. cbv zeta.
  destruct (_clean_html_ws text) as [|x t] eqn:Ht; cbn [fst];
    [intros []|].
  intros H. apply PyFacts.In_firstn in H.
  apply in_map_iff in H. destruct H as (c & <- & H).
  apply dedup_by_In in H. apply PyFacts.In_sort in H.
  assert (Hc : In (core c) (map core (winners_raw U (x :: t)))).
  { rewrite <- (amount_loop_core (finditer AMOUNT_REGEX (x :: t))).
    apply in_map, H. }
  apply in_map_iff in Hc. destruct Hc as (c0 & Hcore & Hc0).
  exists c0. split; [exact Hc0|].
  unfold core in Hcore. simpl. congruence.
Qed.

(** C6. No winner with a plausibility score below 2 leaves the
    deterministic extractor: every name it returns is the normalized form
    of a candidate that one of the three patterns matched in the cleaned
    text and that [_company_score] rates at least 2 for that text and the
    span of that match. *)
Theorem fallback_winner_scores_at_least_two (text : str) (w : Winner) :
  In w (fst (fst (_fallback_extract U text))) ->
  exists rx m cand,
    In rx COMPANY_PATTERNS
    /\ In m (finditer (fst rx) (_clean_html_ws text))
    /\ first_group (groups (snd rx) m) = Some cand
    /\ 2 <= _company_score U cand (_clean_html_ws text) (span m)
    /\ _norm_company U cand = Some (w_name w).
Proof.
  intros H. apply fallback_winner_raw in H. destruct H as (c & Hc & Hname).
  apply winners_raw_scored in Hc.
  destruct Hc as (rx & m & cand & Hrx & Hm & Hg & Hsc & Hge & Hn & _).
  exists rx, m, cand. rewrite <- Hname, <- Hsc. auto.
Qed.

(** ** The fallback of a page *)

Lemma norm_company_length (name n : str) :
  _norm_company U name = Some n -> (2 <= length n)%nat.
Proof.
  unfold _norm_company. destruct name as [|c name']; [discriminate|].
  cbv zeta.
  destruct (length (cleaned_name (c :: name')) <? 2)%nat eqn:Hlen;
    [discriminate|].
  apply Nat.ltb_ge in Hlen.
  repeat match goal with
         | |- (if ?b then _ else _) = _ -> _ => destruct b; [discriminate|]
         end.
  intros H. injection H as <-. exact Hlen.
Qed.




Lemma dedup_by_fresh {A : Type} (name : A -> str) (l : list A) :
  forall seen, fresh name seen (dedup_by name seen l).
Proof.
  induction l as [|w l IH]; intros seen; simpl; [exact I|].
  destruct (name w) as [|c nm] eqn:Hw; [apply IH|].
  destruct (existsb _ seen) eqn:Hs; [apply IH|].
  simpl. rewrite Hw. repeat split; [discriminate | exact Hs | apply IH].
Qed.


Lemma fresh_firstn {A : Type} (name : A -> str) (n : nat) (l : list A) :
  forall seen, fresh name seen l -> fresh name seen (firstn n l).
Proof.
  revert l. induction n as [|n IH]; intros [|w l] seen; simpl; auto.
  intros (Hne & Hs & Hl). repeat split; auto.
Qed.

Lemma fresh_map {A B : Type} (f : A -> B) (name : B -> str) (l : list A) :
  forall seen, fresh (fun a => name (f a)) seen l -> fresh name seen (map f l).
Proof.
  induction l as [|w l IH]; intros seen; simpl; auto.
  intros (Hne & Hs & Hl). repeat split; auto.
Qed.

(** The winners of the extractor are already deduplicated. *)
Lemma fallback_winners_fresh (text : str) :
  fresh w_name [] (fst (fst (_fallback_extract U text))).
Proof.
  unfold _fallback_extract. cbv zeta.
  destruct (_clean_html_ws text) as [|x t]; cbn [fst]; [exact I|].
  apply fresh_firstn, fresh_map. apply (dedup_by_fresh c_name).
Qed.




(** ** The order of the top winners *)

Lemma row_item_top_winner (bag : AmountBag) (it : str * nat) :
  row_item (top_winner bag it) = it.
Proof.
  destruct it as [nm n]. unfold row_item, row_name, row_wins. simpl.
  rewrite Nat2Z.id. reflexivity.
Qed.

(** C2, as the code has it.  The top winners come in descending win
    count; entries of equal count keep the order in which their names
    entered the counter of wins (the order of first appearance), not the
    order of the names. *)
Theorem top_winners_sorted_by_wins_then_first_seen
        (llm : option Llm) (pages : list Awards.Page) (query : str)
        (d : json) :
  build_awards_snapshot_llm U llm pages query = Ok d ->
  exists tw,
    path ["signals"; "topWinners"]%string d = Some (JList tw)
    /\ StronglySorted
         (fun a b => desc_stable snd (final_counter U llm pages)
                       (row_item a) (row_item b)) tw
    /\ StronglySorted (fun a b => (row_wins b <= row_wins a)%nat) tw.
Proof.
  unfold build_awards_snapshot_llm, final_counter.
  destruct llm as [llm|].
  - destruct (totals U llm pages) as [[t evs]|e]; cbn [bind];
      [|discriminate].
    intros H. injection H as <-.
    eexists. split; [reflexivity|].
    assert (Hs : StronglySorted
              (fun a b => desc_stable snd (win_counter t)
                            (row_item a) (row_item b))
              (map (top_winner (amount_bag t))
                   (most_common 8 (win_counter t)))).
    { apply PyFacts.StronglySorted_map.
      eapply PyFacts.StronglySorted_impl;
        [|apply (PyFacts.most_common_sorted 8 (win_counter t))].
      intros a b. rewrite !row_item_top_winner. auto. }
    split; [exact Hs|].
    eapply PyFacts.StronglySorted_impl; [|exact Hs].
    intros a b [H|[H _]]; unfold row_item in H; simpl in H; lia.
  - intros H. injection H as <-.
    eexists. split; [reflexivity|]. split; constructor.
Qed.

(** ** Caps *)

Lemma most_common_length (n : nat) (c : Counter) :
  (length (most_common n c) <= n)%nat.
Proof. unfold most_common. apply firstn_le_length. Qed.

Lemma snapshot_caps (query : str) (t : Totals) (evs : list Evidence) :
  let d := snapshot query t evs in
  at_most 8 (list_length ["signals"; "topWinners"]%string d)
  /\ at_most 8 (list_length ["signals"; "topReasons"]%string d)
  /\ at_most 6 (list_length ["signals"; "agencies"]%string d)
  /\ at_most 20 (list_length ["evidences"]%string d)
  /\ at_most 5 (list_length ["winners"]%string d).
Proof.
  cbv zeta. unfold at_most.
  repeat split; eexists; (split; [reflexivity|]);
    rewrite length_map;
    solve [apply most_common_length | apply firstn_le_length].
Qed.

(** C3. Whatever the pages, the query and the capability, the payload the
    extraction returns respects every cap at once: at most 8 top winners,
    8 top reasons, 6 agencies, 20 evidences and 5 legacy winners. *)
Theorem awards_snapshot_caps (llm : option Llm) (pages : list Awards.Page)
        (query : str) (d : json) :
  build_awards_snapshot_llm U llm pages query = Ok d ->
  at_most 8 (list_length ["signals"; "topWinners"]%string d)
  /\ at_most 8 (list_length ["signals"; "topReasons"]%string d)
  /\ at_most 6 (list_length ["signals"; "agencies"]%string d)
  /\ at_most 20 (list_length ["evidences"]%string d)
  /\ at_most 5 (list_length ["winners"]%string d).
Proof.
  unfold build_awards_snapshot_llm.
  destruct llm as [llm|].
  - destruct (totals U llm pages) as [[t evs]|e]; simpl; intros H.
    + injection H as <-. apply snapshot_caps.
    + discriminate.
  - intros H. injection H as <-.
    unfold at_most. repeat split; eexists; (split; [reflexivity|]); simpl; lia.
Qed.

End Facts.

Lemma awards_snapshot_caps_witness :
  exists d,
    build_awards_snapshot_llm basic_unicode (Some silent)
      [page "http://a" "t" "낙찰자: 한빛시스템 (주), 낙찰금액: 1,200,000,000원"]
      (u "q") = Ok d
    /\ at_most 8 (list_length ["signals"; "topWinners"]%string d)
    /\ at_most 8 (list_length ["signals"; "topReasons"]%string d)
    /\ at_most 6 (list_length ["signals"; "agencies"]%string d)
    /\ at_most 20 (list_length ["evidences"]%string d)
    /\ at_most 5 (list_length ["winners"]%string d).
Proof.
  eexists. split.
  - vm_compute. reflexivity.
  - apply (awards_snapshot_caps basic_unicode (Some silent)
             [page "http://a" "t"
                   "낙찰자: 한빛시스템 (주), 낙찰금액: 1,200,000,000원"]
             (u "q")).
    vm_compute. reflexivity.
Defined.

Lemma fallback_winner_scores_at_least_two_witness :
  let text := u "낙찰자: 한빛시스템 (주), 낙찰금액: 1,200,000,000원" in
  let w := {| w_name := u "한빛시스템, 낙찰금액";
              w_amount := JStr (u "1,200,000,000원") |} in
  In w (fst (fst (_fallback_extract basic_unicode text)))
  /\ exists rx m cand,
      In rx (COMPANY_PATTERNS)
      /\ In m (finditer (fst rx) (_clean_html_ws text))
      /\ first_group (groups (snd rx) m) = Some cand
      /\ 2 <= _company_score basic_unicode cand (_clean_html_ws text) (span m)
      /\ _norm_company basic_unicode cand = Some (w_name w).
Proof.
  cbv zeta. split.
  - vm_compute. left. reflexivity.
  - apply (fallback_winner_scores_at_least_two basic_unicode).
    vm_compute. left. reflexivity.
Defined.



(** ** Scenario A *)

(** C1, as stated, fails.  With the capability unavailable the payload
    has no top winner at all, so not exactly one with one win. *)
Lemma scenario_a_unavailable_has_no_winner :
  ~ exists d r,
      build_awards_snapshot_llm basic_unicode None scenario_a (u "q") = Ok d
      /\ path ["signals"; "topWinners"]%string d = Some (JList [r])
      /\ row_wins r = 1%nat.
Proof.
  intros (d & r & Hd & Hp & _).
  vm_compute in Hd. injection Hd as <-.
  vm_compute in Hp. discriminate.
Qed.

(** C1, as the code has it by design.  On the single page of
    scenario A:
    - with the capability unavailable, the extraction returns the flagged
      payload, whose lists are all empty: the guard [if llm is None]
      returns before any page is read;
    - the deterministic extractor, run on the text of the page, returns
      exactly one winner, whose amount is the string of the text;
    - with a capability that is available and gives no winner, the
      fallback puts that winner into the payload: [topWinners] has
      exactly one entry, with one win.
    Nothing is said of the name of that winner. *)
Theorem scenario_a_deterministic_fallback :
  build_awards_snapshot_llm basic_unicode None scenario_a (u "q")
  = Ok (UNAVAILABLE (u "q"))
  /\ (exists w,
        fst (fst (_fallback_extract basic_unicode scenario_a_text)) = [w]
        /\ w_amount w = JStr (u "1,200,000,000원"))
  /\ (exists d r,
        build_awards_snapshot_llm basic_unicode (Some silent) scenario_a
          (u "q") = Ok d
        /\ path ["signals"; "topWinners"]%string d = Some (JList [r])
        /\ row_wins r = 1%nat).
Proof.
  split; [reflexivity|]. split.
  - eexists. split; vm_compute; reflexivity.
  - eexists. eexists. split; [vm_compute; reflexivity|].
    split; vm_compute; reflexivity.
Qed.

Lemma top_winners_sorted_by_wins_then_first_seen_witness :
  exists d tw,
    build_awards_snapshot_llm basic_unicode (Some silent) two_winner_pages
      (u "q") = Ok d
    /\ path ["signals"; "topWinners"]%string d = Some (JList tw)
    /\ StronglySorted
         (fun a b => desc_stable snd
                       (final_counter basic_unicode (Some silent)
                          two_winner_pages)
                       (row_item a) (row_item b)) tw
    /\ StronglySorted (fun a b => (row_wins b <= row_wins a)%nat) tw.
Proof.
  eexists.
  destruct (top_winners_sorted_by_wins_then_first_seen basic_unicode
              (Some silent) two_winner_pages (u "q") _ eq_refl)
    as (tw & Hp & Hs).
  exists tw. split; [reflexivity|]. split; [exact Hp|exact Hs].
Defined.

(** C2, as stated, fails.  Two pages, a capability that answers nothing:
    the fallback finds one winner on each page.  Both have one win, and
    the winner of the first page comes first although its name is the
    greater of the two. *)
Lemma top_winners_tie_not_by_name :
  exists d tw,
    build_awards_snapshot_llm basic_unicode (Some silent) two_winner_pages
      (u "q") = Ok d
    /\ path ["signals"; "topWinners"]%string d = Some (JList tw)
    /\ map row_item tw = [ (u "나라시스템", 1%nat); (u "가람시스템", 1%nat) ]
    /\ ~ StronglySorted by_wins_then_name tw.
Proof.
  eexists. eexists. split; [vm_compute; reflexivity|].
  split; [vm_compute; reflexivity|].
  split; [vm_compute; reflexivity|].
  intros H. inversion H as [|a l Hs Hf]; subst.
  inversion Hf as [|b l' Hab _]; subst.
  destruct Hab as [Hab|[_ Hab]].
  - vm_compute in Hab. lia.
  - vm_compute in Hab. discriminate.
Qed.

Lemma norm_company_rejects_banned_witness :
  contains_any BAN_TOKENS (cleaned_name (u "㈜ 한빛 제안서 작성")) = true
  /\ _norm_company basic_unicode (u "㈜ 한빛 제안서 작성") = None.
Proof.
  split.
  - vm_compute. reflexivity.
  - apply (norm_company_rejects_banned basic_unicode). vm_compute. reflexivity.
Defined.

(** ** Worked examples *)

Example clean_html_ws_example :
  _clean_html_ws ([97; 32; 32; 9; 98] ++ u "&nbsp;"
                  ++ [99; 13; 10; 10; 10; 100; 8203; 160; 101])
  = [97; 32; 98; 32; 99; 10; 10; 100; 32; 101].
Proof. vm_compute. reflexivity. Qed.

Example truncate_example : _truncate (u "abcdefghij") 8 = u "abcde...".
Proof. vm_compute. reflexivity. Qed.

Example norm_company_strips_marker :
  _norm_company basic_unicode (u "한빛시스템 (주)") = Some (u "한빛시스템").
Proof. vm_compute. reflexivity. Qed.

(** Scenario C: a single token of 20 characters without a corporate hint
    is rejected. *)
Example norm_company_long_token :
  _norm_company basic_unicode (u "가나다라마바사아자차카타파하가나다라마바") = None.
Proof. vm_compute. reflexivity. Qed.

(** The ban list is consulted after the corporate markers are removed: a
    banned phrase that the raw name only shows across a marker is gone
    by then. *)
Remark banned_phrase_lost_with_marker :
  contains_any BAN_TOKENS (u "한빛개발주식회사") = true
  /\ _norm_company basic_unicode (u "한빛개발주식회사") = Some (u "한빛개발").
Proof. split; vm_compute; reflexivity. Qed.

(** Scenario B: two pages that name the same winner once each. *)
Example scenario_b_two_pages :
  exists d r,
    build_awards_snapshot_llm basic_unicode (Some silent)
      [ page "http://a" "1" "낙찰자: 가나다전자";
        page "http://b" "2" "낙찰자: 가나다전자" ] (u "q") = Ok d
    /\ path ["signals"; "topWinners"]%string d = Some (JList [r])
    /\ row_item r = (u "가나다전자", 2%nat).
Proof.
  eexists. eexists. split; [vm_compute; reflexivity|].
  split; vm_compute; reflexivity.
Qed.

(** Scenario D: no page. *)
Example scenario_d_no_page :
  exists d,
    build_awards_snapshot_llm basic_unicode (Some silent) [] (u "q") = Ok d
    /\ list_length ["signals"; "topWinners"]%string d = Some 0%nat
    /\ list_length ["signals"; "topReasons"]%string d = Some 0%nat
    /\ list_length ["signals"; "agencies"]%string d = Some 0%nat
    /\ list_length ["evidences"]%string d = Some 0%nat
    /\ list_length ["winners"]%string d = Some 0%nat.
Proof. eexists. repeat split; vm_compute; reflexivity. Qed.

(** An answer whose winners are a number: the loop over them raises. *)
Example winners_not_iterable :
  build_awards_snapshot_llm basic_unicode
    (Some (fun _ _ _ _ => [(u "winners", JInt 5)]))
    [ page "http://a" "1" "본문" ] (u "q")
  = Raise TypeError.
Proof. vm_compute. reflexivity. Qed.

End AwardsFacts.

(* ================================================================= *)
(** * Properties of [competitor_intel.py] *)

Module IntelFacts.
Import Py Json Intel IntelSpec.

Section Facts.
Variable rank_competitors : list Page -> list json.

Lemma page_loop_retained (pages : list Page) :
  forall awards evs,
    page_loop pages awards evs
    = (awards ++ filter retained pages,
       evs ++ map evidence_of (filter retained pages)).
Proof.
  induction pages as [|p pages IH]; intros awards evs;
    cbn [page_loop filter map].
  - rewrite !app_nil_r. reflexivity.
  - assert (Hr : retained p
                 = match or_empty (p_text p) with
                   | [] => false
                   | text =>
                     contains_any AWARD_CONTEXT (or_empty (p_title p) ++ text)
                   end) by reflexivity.
    rewrite Hr. clear Hr.
    destruct (or_empty (p_text p)) as [|c text] eqn:Ht; [apply IH|].
    destruct (contains_any AWARD_CONTEXT (or_empty (p_title p) ++ c :: text));
      cbn [negb map]; rewrite IH; [|reflexivity].
    unfold evidence_of. rewrite Ht, <- !app_assoc. reflexivity.
Qed.

Lemma snippet_length (text : str) : (length (snippet text) <= 260)%nat.
Proof. unfold snippet. apply firstn_le_length. Qed.

(** C10. The evidences of the competitor intelligence are at most 10;
    each holds a url and a snippet of at most 260 characters and nothing
    else; and they are, in the order of the pages and up to the cap, the
    items of the pages that have a text and an award-context keyword in
    their title followed by their text, and of no other page. *)
Theorem intel_evidences_shape (pages : list Page) (query : str) :
  let intel := build_competitor_intel_from_pages rank_competitors pages query in
  (length (evidences intel) <= 10)%nat
  /\ Forall (fun e => exists url sn,
                 e = JDict [ (u "url", JStr url); (u "snippet", JStr sn) ]
                 /\ (length sn <= 260)%nat) (evidences intel)
  /\ evidences intel = firstn 10 (map evidence_of (filter retained pages)).
Proof.
  cbv zeta. unfold build_competitor_intel_from_pages.
  rewrite page_loop_retained. cbn [evidences app].
  split; [apply firstn_le_length|]. split; [|reflexivity].
  apply Forall_forall. intros e He.
  apply PyFacts.In_firstn in He. apply in_map_iff in He.
  destruct He as (p & <- & _).
  eexists. eexists. split; [reflexivity|]. apply snippet_length.
Qed.

Lemma fold_left_add (f : str -> nat) (ks : list str) (n : nat) :
  fold_left (fun n k => (n + f k)%nat) ks n = (n + list_sum (map f ks))%nat.
Proof.
  revert n. induction ks as [|k ks IH]; intros n; simpl; [lia|].
  rewrite IH. lia.
Qed.

Lemma cci_keys_plain :
  Forall (fun k => k <> [] /\ is_in k 32 = false) CCI_KEYS.
Proof. repeat constructor; discriminate. Qed.

Lemma cci_signal_occurrences (pages : list Page) :
  cci_signal pages = occurrences pages.
Proof.
  unfold cci_signal, occurrences. cbv zeta. rewrite fold_left_add, Nat.add_0_l.
  f_equal. apply map_ext_in. intros k Hk.
  pose proof cci_keys_plain as Hplain. rewrite Forall_forall in Hplain.
  destruct (Hplain k Hk) as [Hne Hsp].
  rewrite (PyFacts.count_join 32 k Hne Hsp), map_map. reflexivity.
Qed.

(** C9. The concentration signal lies in [0, 1]: it is the number of
    occurrences of the four competitiveness keywords in the page texts,
    divided by 40 and clamped at 1. *)
Theorem cci_bounded (pages : list Page) (query : str) :
  let intel := build_competitor_intel_from_pages rank_competitors pages query in
  let cci := fst (marketLandscape intel) in
  (0 <= cci)%Q /\ (cci <= 1)%Q
  /\ (cci == Qmin 1 (inject_Z (Z.of_nat (occurrences pages)) / 40))%Q.
Proof.
  cbv zeta. unfold build_competitor_intel_from_pages.
  destruct (page_loop pages [] []) as [awards evs]. cbn [marketLandscape fst].
  rewrite cci_signal_occurrences.
  set (x := (inject_Z (Z.of_nat (occurrences pages)) / 40)%Q).
  assert (Hx : (0 <= x)%Q).
  { unfold x. apply Qle_shift_div_l; [reflexivity|].
    rewrite Qmult_0_l. change 0%Q with (inject_Z 0).
    rewrite <- Zle_Qle. lia. }
  unfold min1. destruct (Qle_bool 1 x) eqn:Hle.
  - apply Qle_bool_iff in Hle. repeat split; try easy.
    symmetry. apply Q.min_l. exact Hle.
  - assert (Hlt : (x < 1)%Q).
    { apply Qnot_le_lt. intros H. apply Qle_bool_iff in H. congruence. }
    repeat split; [exact Hx | apply Qlt_le_weak, Hlt |].
    symmetry. apply Q.min_r. apply Qlt_le_weak, Hlt.
Qed.

End Facts.

(** Scenario E: a page without an award-context keyword gives no
    evidence; its text still counts for the concentration signal. *)
Example scenario_e_page_without_keyword :
  let pages :=
    [ {| p_url := Some (u "http://a"); p_title := Some (u "결과");
         p_text := Some (u "낙찰자: 가나다전자, 입찰 경쟁") |};
      {| p_url := Some (u "http://b"); p_title := Some (u "안내");
         p_text := Some (u "기술평가 일정 안내") |} ] in
  let intel := build_competitor_intel_from_pages (fun _ => []) pages (u "q") in
  evidences intel
  = [ JDict [ (u "url", JStr (u "http://a"));
              (u "snippet", JStr (u "낙찰자: 가나다전자, 입찰 경쟁")) ] ]
  /\ fst (marketLandscape intel) = (3 # 40)%Q.
Proof. split; vm_compute; reflexivity. Qed.

End IntelFacts.

(* ================================================================= *)
(** * More on the string primitives and the patterns *)

Module StrFacts.
Import Py Re PySpec ReSpec MoreSpec.

(** ** Stripping *)

Lemma lstrip_by_head (p : Z -> bool) (s : str) :
  match lstrip_by p s with
  | [] => True
  | x :: _ => p x = false
  end.
Proof.
  induction s as [|c s IH]; simpl; [exact I|].
  destruct (p c) eqn:Hc; [exact IH | exact Hc].
Qed.

Lemma lstrip_by_suffix (p : Z -> bool) (s : str) :
  exists t, s = t ++ lstrip_by p s /\ Forall (fun c => p c = true) t.
Proof.
  induction s as [|c s (t & Ht & Hf)]; simpl.
  - exists []. split; [reflexivity | constructor].
  - destruct (p c) eqn:Hc.
    + exists (c :: t). split; [simpl; congruence | constructor; auto].
    + exists []. split; [reflexivity | constructor].
Qed.

Lemma rstrip_by_prefix (p : Z -> bool) (s : str) :
  exists t, s = rstrip_by p s ++ t /\ Forall (fun c => p c = true) t.
Proof.
  unfold rstrip_by.
  destruct (lstrip_by_suffix p (rev s)) as (t & Ht & Hf).
  exists (rev t). split.
  - rewrite <- rev_app_distr, <- Ht, rev_involutive. reflexivity.
  - apply Forall_rev, Hf.
Qed.

Lemma rstrip_by_last (p : Z -> bool) (s : str) (x : Z) (t : str) :
  rstrip_by p s = t ++ [x] -> p x = false.
Proof.
  unfold rstrip_by. intros H.
  pose proof (lstrip_by_head p (rev s)) as Hh.
  assert (E : lstrip_by p (rev s) = x :: rev t).
  { rewrite <- (rev_involutive (lstrip_by p (rev s))), H, rev_app_distr.
    reflexivity. }
  rewrite E in Hh. exact Hh.
Qed.

Lemma rstrip_by_head (p : Z -> bool) (x : Z) (s : str) :
  p x = false -> exists t, rstrip_by p (x :: s) = x :: t.
Proof.
  intros Hx. destruct (rstrip_by_prefix p (x :: s)) as (t & Ht & Hf).
  destruct (rstrip_by p (x :: s)) as [|y r].
  - simpl in Ht. subst t. inversion Hf; subst. congruence.
  - simpl in Ht. injection Ht as <- _. eauto.
Qed.

(** What [strip_by] returns neither starts nor ends with a stripped
    character. *)
Lemma strip_by_edges (p : Z -> bool) (s : str) :
  (forall x t, strip_by p s = x :: t -> p x = false)
  /\ (forall x t, strip_by p s = t ++ [x] -> p x = false).
Proof.
  unfold strip_by. split.
  - intros x t H. pose proof (lstrip_by_head p s) as Hh.
    destruct (lstrip_by p s) as [|y r] eqn:E.
    + unfold rstrip_by in H. simpl in H. discriminate.
    + destruct (rstrip_by_head p y r Hh) as (t' & Ht').
      rewrite Ht' in H. injection H as <- _. exact Hh.
  - intros x t H. eapply rstrip_by_last, H.
Qed.

Lemma lstrip_by_length (p : Z -> bool) (s : str) :
  (length (lstrip_by p s) <= length s)%nat.
Proof.
  induction s as [|c s IH]; simpl; [lia|].
  destruct (p c); simpl; lia.
Qed.

Lemma strip_by_length (p : Z -> bool) (s : str) :
  (length (strip_by p s) <= length s)%nat.
Proof.
  unfold strip_by, rstrip_by. rewrite length_rev.
  etransitivity; [apply lstrip_by_length|].
  rewrite length_rev. apply lstrip_by_length.
Qed.

(** ** Searching for one character *)

Lemma search_from_chr (p : Z -> bool) (s : str) :
  forall pos,
    (match search_from (Chr p) s pos with Some _ => true | None => false end)
    = existsb p s.
Proof.
  induction s as [|c s IH]; intros pos; [reflexivity|].
  cbn [search_from]. unfold match_at. cbn [mt existsb].
  destruct (p c); [reflexivity|]. apply IH.
Qed.

Lemma found_chr (p : Z -> bool) (s : str) : found (Chr p) s = existsb p s.
Proof. unfold found, search. apply search_from_chr. Qed.

(** ** Substrings *)

Lemma startswith_app (k a b : str) :
  startswith k a = true -> startswith k (a ++ b) = true.
Proof.
  revert a. induction k as [|x k IH]; intros [|y a]; simpl; auto;
    try discriminate.
  intros H. apply andb_true_iff in H. destruct H as [H1 H2].
  rewrite H1. apply IH, H2.
Qed.

Lemma contains_app_l (k a b : str) :
  contains k a = true -> contains k (a ++ b) = true.
Proof.
  induction a as [|y a IH]; cbn [contains app].
  - rewrite orb_false_r. intros H.
    destruct k; [destruct b; reflexivity | discriminate].
  - intros H. apply orb_true_iff in H. apply orb_true_iff.
    destruct H as [H|H]; [left | right; apply IH, H].
    apply (startswith_app k (y :: a) b H).
Qed.

Lemma contains_app_r (k a b : str) :
  contains k b = true -> contains k (a ++ b) = true.
Proof.
  intros H. induction a as [|y a IH]; [exact H|].
  cbn [contains app]. rewrite IH. apply orb_true_r.
Qed.

Lemma contains_any_app_l (ks : list str) (a b : str) :
  contains_any ks a = true -> contains_any ks (a ++ b) = true.
Proof.
  unfold contains_any. rewrite !existsb_exists.
  intros (k & Hk & H). exists k. split; [exact Hk | apply contains_app_l, H].
Qed.

Lemma contains_any_app_r (ks : list str) (a b : str) :
  contains_any ks b = true -> contains_any ks (a ++ b) = true.
Proof.
  unfold contains_any. rewrite !existsb_exists.
  intros (k & Hk & H). exists k. split; [exact Hk | apply contains_app_r, H].
Qed.

(** ** What a match has read *)

Lemma lit_rest_app (p s s' : str) : lit_rest p s = Some s' -> s = p ++ s'.
Proof.
  revert s. induction p as [|x p IH]; intros [|y s]; simpl;
    try discriminate.
  - intros H. injection H as <-. reflexivity.
  - intros H. injection H as <-. reflexivity.
  - destruct (x =? y) eqn:E; [|discriminate]. apply Z.eqb_eq in E. subst y.
    intros H. rewrite (IH _ H). reflexivity.
Qed.

Lemma rep_greedy_reads (c : Z -> bool) (s : str) :
  forall lo hi pos cs k x,
    rep_greedy c lo hi s pos cs k = Some x ->
    exists mid s1 p1 c1, s = mid ++ s1 /\ k s1 p1 c1 = Some x.
Proof.
  induction s as [|y s IH]; intros lo hi pos cs k x; simpl.
  - destruct lo; [|discriminate]. intros H. exists [], [], pos, cs. auto.
  - assert (Hstop : match lo with O => k (y :: s) pos cs | S _ => None end
                    = Some x ->
                    exists mid s1 p1 c1,
                      y :: s = mid ++ s1 /\ k s1 p1 c1 = Some x).
    { destruct lo; [|discriminate]. intros H.
      exists [], (y :: s), pos, cs. auto. }
    destruct (c y && may_repeat hi); [|exact Hstop].
    destruct (rep_greedy c (pred lo) (option_map pred hi) s (S pos) cs k)
      as [r|] eqn:Hr; [|exact Hstop].
    intros H. injection H as <-.
    destruct (IH _ _ _ _ _ _ Hr) as (mid & s1 & p1 & c1 & -> & Hk).
    exists (y :: mid), s1, p1, c1. auto.
Qed.

(** A match of [r] reads a prefix of the text and hands the rest to its
    continuation. *)
Lemma mt_reads (r : re) :
  forall s pos cs k x,
    mt r s pos cs k = Some x ->
    exists mid s1 p1 c1, s = mid ++ s1 /\ k s1 p1 c1 = Some x.
Proof.
  induction r as [c|p|a IHa b IHb|a IHa b IHb|a IHa|c lo hi|i a IHa];
    intros s pos cs k x; simpl.
  - destruct s as [|y s]; [discriminate|].
    destruct (c y); [|discriminate]. intros H.
    exists [y], s, (S pos), cs. auto.
  - destruct (lit_rest p s) as [s'|] eqn:E; [|discriminate]. intros H.
    apply lit_rest_app in E. exists p, s', (pos + length p)%nat, cs. auto.
  - intros H. destruct (IHa _ _ _ _ _ H) as (m1 & s1 & p1 & c1 & -> & H1).
    destruct (IHb _ _ _ _ _ H1) as (m2 & s2 & p2 & c2 & -> & H2).
    exists (m1 ++ m2), s2, p2, c2. rewrite app_assoc. auto.
  - destruct (mt a s pos cs k) as [r|] eqn:Ha.
    + intros H. injection H as <-. apply (IHa _ _ _ _ _ Ha).
    + apply IHb.
  - destruct (mt a s pos cs k) as [r|] eqn:Ha.
    + intros H. injection H as <-. apply (IHa _ _ _ _ _ Ha).
    + intros H. exists [], s, pos, cs. auto.
  - apply rep_greedy_reads.
  - intros H. destruct (IHa _ _ _ _ _ H) as (m1 & s1 & p1 & c1 & -> & H1).
    eexists m1, s1, p1, _. split; [reflexivity | exact H1].
Qed.

(** A pattern that needs one of [ks] has read one of them. *)
Lemma mt_needs (ks : list str) (r : re) :
  needs ks r = true ->
  forall s pos cs k x,
    mt r s pos cs k = Some x ->
    exists mid s1 p1 c1,
      s = mid ++ s1 /\ contains_any ks mid = true /\ k s1 p1 c1 = Some x.
Proof.
  induction r as [c|p|a IHa b IHb|a IHa b IHb|a IHa|c lo hi|i a IHa];
    cbn [needs]; try discriminate; intros Hn s pos cs k x.
  - cbn [mt]. destruct (lit_rest p s) as [s'|] eqn:E; [|discriminate].
    intros H. apply lit_rest_app in E.
    exists p, s', (pos + length p)%nat, cs. auto.
  - cbn [mt]. intros H. apply orb_true_iff in Hn. destruct Hn as [Hn|Hn].
    + destruct (IHa Hn _ _ _ _ _ H) as (m1 & s1 & p1 & c1 & -> & Hc & H1).
      destruct (mt_reads _ _ _ _ _ _ H1) as (m2 & s2 & p2 & c2 & -> & H2).
      exists (m1 ++ m2), s2, p2, c2. rewrite app_assoc.
      split; [reflexivity|]. split; [apply contains_any_app_l, Hc | exact H2].
    + destruct (mt_reads _ _ _ _ _ _ H) as (m1 & s1 & p1 & c1 & -> & H1).
      destruct (IHb Hn _ _ _ _ _ H1) as (m2 & s2 & p2 & c2 & -> & Hc & H2).
      exists (m1 ++ m2), s2, p2, c2. rewrite app_assoc.
      split; [reflexivity|]. split; [apply contains_any_app_r, Hc | exact H2].
  - cbn [mt]. apply andb_true_iff in Hn. destruct Hn as [Ha Hb].
    destruct (mt a s pos cs k) as [r|] eqn:Hm.
    + intros H. injection H as <-. apply (IHa Ha _ _ _ _ _ Hm).
    + apply (IHb Hb).
  - cbn [mt]. intros H.
    destruct (IHa Hn _ _ _ _ _ H) as (m1 & s1 & p1 & c1 & -> & Hc & H1).
    eexists m1, s1, p1, _. split; [reflexivity|]. split; [exact Hc | exact H1].
Qed.

Lemma match_at_needs (ks : list str) (r : re) (s : str) (pos : nat)
      (x : nat * caps) :
  needs ks r = true -> match_at r s pos = Some x -> contains_any ks s = true.
Proof.
  intros Hn H. unfold match_at in H.
  destruct (mt_needs ks r Hn _ _ _ _ _ H) as (mid & s1 & _ & _ & -> & Hc & _).
  apply contains_any_app_l, Hc.
Qed.

Lemma contains_any_cons (ks : list str) (c : Z) (s : str) :
  contains_any ks s = true -> contains_any ks (c :: s) = true.
Proof. apply (contains_any_app_r ks [c] s). Qed.

(** Without any of the literals it needs, a pattern is found nowhere. *)
Lemma scan_needs (ks : list str) (r : re) (s : str) :
  needs ks r = true ->
  contains_any ks s = false ->
  forall pos skip, scan r s pos skip = [].
Proof.
  intros Hn. induction s as [|c s IH]; intros Hc pos skip.
  - destruct skip; cbn [scan]; [|reflexivity].
    destruct (match_at r [] pos) as [[e cs]|] eqn:E; [|reflexivity].
    apply (match_at_needs ks) in E; [congruence | exact Hn].
  - assert (Hs : contains_any ks s = false).
    { destruct (contains_any ks s) eqn:E; [|reflexivity].
      apply (contains_any_cons ks c) in E. congruence. }
    destruct skip; cbn [scan]; [|apply IH, Hs].
    destruct (match_at r (c :: s) pos) as [[e cs]|] eqn:E; [|apply IH, Hs].
    apply (match_at_needs ks) in E; [congruence | exact Hn].
Qed.

Lemma finditer_needs (ks : list str) (r : re) (s : str) :
  needs ks r = true -> contains_any ks s = false -> finditer r s = [].
Proof. intros Hn Hc. apply scan_needs with (ks := ks); assumption. Qed.

Lemma search_needs (ks : list str) (r : re) (s : str) :
  needs ks r = true -> contains_any ks s = false -> search r s = None.
Proof.
  intros Hn. unfold search. generalize 0%nat.
  induction s as [|c s IH]; intros pos Hc; cbn [search_from].
  - destruct (match_at r [] pos) as [[e cs]|] eqn:E; [|reflexivity].
    apply (match_at_needs ks) in E; [congruence | exact Hn].
  - assert (Hs : contains_any ks s = false).
    { destruct (contains_any ks s) eqn:E; [|reflexivity].
      apply (contains_any_cons ks c) in E. congruence. }
    destruct (match_at r (c :: s) pos) as [[e cs]|] eqn:E; [|apply IH, Hs].
    apply (match_at_needs ks) in E; [congruence | exact Hn].
Qed.

End StrFacts.

(* ================================================================= *)
(** * More properties of [awards_miner_llm.py] *)

Module AwardsMore.
Import Py Re Json Awards PySpec AwardsSpec MoreSpec ReFacts StrFacts.

(** ** Independent of the Unicode tables *)

(** The length of what [_truncate] returns. *)
Lemma truncate_le (s : str) (n : Z) :
  3 <= n -> Z.of_nat (length (_truncate s n)) <= n.
Proof.
  intros Hn. unfold _truncate. cbv zeta.
  set (t := join [32] (Py.split (_clean_html_ws s))).
  destruct (Z.of_nat (length t) <=? n) eqn:E; [apply Z.leb_le, E|].
  unfold slice_to. replace (0 <=? n - 3) with true
    by (symmetry; apply Z.leb_le; lia).
  rewrite length_app.
  pose proof (firstn_le_length (Z.to_nat (n - 3)) t) as Hf.
  change (length (u "...")) with 3%nat. lia.
Qed.

(** X1. For a limit of at least 3, what [_truncate] returns is never
    longer than the limit. *)
Theorem truncate_length (s : str) (n : Z) :
  3 <= n -> Z.of_nat (length (_truncate s n)) <= n.
Proof. exact (truncate_le s n). Qed.

Lemma truncate_length_witness :
  3 <= 8 /\ Z.of_nat (length (_truncate (u "abcdefghij") 8)) <= 8.
Proof. split; [lia | apply (truncate_length (u "abcdefghij") 8); lia]. Defined.

(** X7. Cleaning a text beforehand changes nothing for the functions
    that clean their argument themselves: the extractor, the chunker and
    the truncation. *)
Theorem cleaning_first_is_harmless (U : Unicode) (s : str) (n : Z) :
  _fallback_extract U (_clean_html_ws s) = _fallback_extract U s
  /\ _chunk_text (_clean_html_ws s) n = _chunk_text s n
  /\ _truncate (_clean_html_ws s) n = _truncate s n.
Proof.
  pose proof (AwardsFacts.cleaned_fixed _ (AwardsFacts.clean_html_ws_cleaned s))
    as H.
  unfold _fallback_extract, _chunk_text, _truncate. cbv zeta.
  rewrite H. auto.
Qed.

(** ** The chunker *)

Lemma chunk_go_ok (max_len : Z) (paras ps : list str) :
  forall cur,
    (cur = [] \/ chunk_ok max_len paras cur) ->
    incl ps paras ->
    Forall (chunk_ok max_len paras) (chunk_go max_len cur ps).
Proof.
  induction ps as [|p ps IH]; intros cur Hcur Hin; cbn [chunk_go].
  - destruct cur as [|c cur']; [constructor|].
    destruct Hcur as [Hc|Hc]; [discriminate|].
    constructor; [exact Hc | constructor].
  - assert (Hps : incl ps paras) by (intros x Hx; apply Hin; now right).
    destruct (Z.of_nat (length cur) + Z.of_nat (length p) + 2 <=? max_len)
      eqn:E.
    + apply Z.leb_le in E. apply IH; [|exact Hps].
      destruct cur as [|c cur'].
      * simpl. destruct p as [|x p']; [now left|right].
        split; [discriminate|]. left. simpl in *. lia.
      * right. split; [discriminate|]. left.
        rewrite !length_app. simpl length in *. lia.
    + assert (Hp : p = [] \/ chunk_ok max_len paras p).
      { destruct p as [|x p']; [now left|right].
        split; [discriminate|]. right. apply Hin. now left. }
      destruct cur as [|c cur']; [apply IH; assumption|].
      constructor; [|apply IH; assumption].
      destruct Hcur as [Hc|Hc]; [discriminate | exact Hc].
Qed.

(** X8. A body that fits the limit is one chunk, the cleaned body.  A
    longer body is cut into chunks that are not empty and that fit the
    limit, except for a chunk that is one whole paragraph of the cleaned
    body. *)
Theorem chunk_text_chunks (body : str) (max_len : Z) :
  let b := _clean_html_ws body in
  (Z.of_nat (length b) <= max_len -> _chunk_text body max_len = [b])
  /\ (max_len < Z.of_nat (length b) ->
      Forall (fun c =>
                c <> []
                /\ (Z.of_nat (length c) <= max_len
                    \/ In c (Re.split (Rep newline 2 None) b)))
             (_chunk_text body max_len)).
Proof.
  cbv zeta. unfold _chunk_text. cbv zeta.
  destruct (Z.of_nat (length (_clean_html_ws body)) <=? max_len) eqn:E.
  - split; [reflexivity|]. apply Z.leb_le in E. lia.
  - apply Z.leb_gt in E. split; [lia|]. intros _.
    apply (chunk_go_ok max_len
             (Re.split (Rep newline 2 None) (_clean_html_ws body)));
      [now left | apply incl_refl].
Qed.

Section WithTables.
Context (U : Unicode).

(** ** Accepted names *)

Lemma norm_company_inv (name n : str) :
  _norm_company U name = Some n ->
  n = cleaned_name name
  /\ (length n <? 2)%nat = false
  /\ contains_any BAN_TOKENS n = false
  /\ found (Chr (fun c => hangul c || upper c || lower c)) n = true
  /\ negb (contains [32] n) && (16 <=? length n)%nat
     && negb (_has_company_hint n) = false
  /\ (5 * Z.of_nat (letters U n) <? 3 * Z.of_nat (Nat.max 1 (length n)))
     = false
  /\ fullmatch (Rep hangul 1 (Some 2%nat)) n = false.
Proof.
  unfold _norm_company. destruct name as [|c name']; [discriminate|].
  cbv zeta. set (n0 := cleaned_name (c :: name')).
  destruct (length n0 <? 2)%nat eqn:H1; [discriminate|].
  destruct (contains_any BAN_TOKENS n0) eqn:H2; [discriminate|].
  destruct (found (Chr (fun c0 => hangul c0 || upper c0 || lower c0)) n0)
    eqn:H3; [|discriminate]. cbn [negb].
  destruct (negb (contains [32] n0) && (16 <=? length n0)%nat
            && negb (_has_company_hint n0)) eqn:H4; [discriminate|].
  destruct (5 * Z.of_nat (letters U n0)
            <? 3 * Z.of_nat (Nat.max 1 (length n0))) eqn:H5; [discriminate|].
  destruct (fullmatch (Rep hangul 1 (Some 2%nat)) n0) eqn:H6; [discriminate|].
  intros H. injection H as <-. repeat split; assumption.
Qed.

(** X2. A name that [_norm_company] accepts is the cleaned form of the
    candidate; it has at least two characters, no phrase of the ban list,
    a Hangul syllable or an ASCII letter, letters and digits for at least
    three fifths of its characters, and it neither starts nor ends with a
    space or one of the stripped punctuation marks. *)
Theorem norm_company_accepts (name n : str) :
  _norm_company U name = Some n ->
  n = cleaned_name name
  /\ (2 <= length n)%nat
  /\ contains_any BAN_TOKENS n = false
  /\ (exists c, In c n /\ (hangul c || upper c || lower c) = true)
  /\ 3 * Z.of_nat (length n) <= 5 * Z.of_nat (letters U n)
  /\ (forall c t, n = c :: t -> is_in EDGE c = false)
  /\ (forall c t, n = t ++ [c] -> is_in EDGE c = false).
Proof.
  intros H. destruct (norm_company_inv _ _ H) as (E & H1 & H2 & H3 & _ & H5 & _).
  apply Nat.ltb_ge in H1. apply Z.ltb_ge in H5.
  split; [exact E|]. split; [exact H1|]. split; [exact H2|].
  split; [|split; [lia|]].
  - rewrite found_chr in H3. apply existsb_exists in H3. exact H3.
  - rewrite E. unfold cleaned_name. cbv zeta.
    apply (strip_by_edges (is_in EDGE)).
Qed.

(** ** The plausibility score *)

(** X3. The score is -999 exactly when the candidate does not normalize.
    Otherwise it lies between 0 and 4: the penalty of 2 for a long
    unbroken name without a corporate hint is never applied, since such
    a name does not normalize.  Without a corporate hint the score is at
    most 2. *)
Theorem company_score_range (raw ctx : str) (sp : nat * nat) :
  let sc := _company_score U raw ctx sp in
  (sc = -999 <-> _norm_company U raw = None)
  /\ (forall n, _norm_company U raw = Some n ->
        0 <= sc <= 4
        /\ (_has_company_hint raw = false -> _has_company_hint n = false ->
            sc <= 2)).
Proof.
  cbv zeta. unfold _company_score. cbv zeta.
  destruct (_norm_company U raw) as [n|] eqn:Hn.
  - destruct (norm_company_inv _ _ Hn) as (_ & H1 & _ & _ & H4 & _).
    apply Nat.ltb_ge in H1.
    destruct n as [|c nm]; [simpl in H1; lia|].
    rewrite H4. destruct sp as [a b].
    assert (Hsc : forall b1 b2 b3 : bool,
               0 <= (if b1 then 2 else 0) + (if b2 then 1 else 0) + 0
                    + (if b3 then 1 else 0) <= 4
               /\ (b1 = false ->
                   (if b1 then 2 else 0) + (if b2 then 1 else 0) + 0
                   + (if b3 then 1 else 0) <= 2)).
    { intros [] [] []; split; try lia; intros; lia. }
    split.
    + split; [|discriminate]. intros E.
      match type of E with
      | (if ?b1 then _ else _) + (if ?b2 then _ else _) + _
        + (if ?b3 then _ else _) = _ =>
        destruct (Hsc b1 b2 b3) as [Hr _]; lia
      end.
    + intros n' En'. injection En' as <-.
      match goal with
      | |- 0 <= (if ?b1 then _ else _) + (if ?b2 then _ else _) + _
                + (if ?b3 then _ else _) <= 4 /\ _ =>
        destruct (Hsc b1 b2 b3) as [Hr Hh]
      end.
      split; [exact Hr|]. intros Hraw Hnorm. apply Hh.
      rewrite Hraw, Hnorm. reflexivity.
  - split; [tauto | discriminate].
Qed.

(** ** What the deterministic extractor returns *)

Lemma existsb_str_eqb (s : str) (l : list str) :
  existsb (str_eqb s) l = true <-> In s l.
Proof.
  rewrite existsb_exists. split.
  - intros (x & Hx & E). apply PyFacts.str_eqb_eq in E. congruence.
  - intros H. exists s. split; [exact H | apply PyFacts.str_eqb_eq; reflexivity].
Qed.

Lemma fresh_NoDup {A : Type} (name : A -> str) (l : list A) :
  forall seen,
    fresh name seen l ->
    NoDup (map name l)
    /\ (forall a, In a l -> name a <> [] /\ ~ In (name a) seen).
Proof.
  induction l as [|w l IH]; intros seen; cbn [fresh map].
  - intros _. split; [constructor | intros a []].
  - intros (Hne & Hs & Hl). destruct (IH _ Hl) as (Hnd & Hall).
    assert (Hw : ~ In (name w) seen).
    { intros Hin. apply existsb_str_eqb in Hin. congruence. }
    split.
    + constructor; [|exact Hnd]. intros Hin. apply in_map_iff in Hin.
      destruct Hin as (a & Ea & Ha). destruct (Hall a Ha) as [_ Hn].
      apply Hn. left. symmetry. exact Ea.
    + intros a [<-|Ha]; [split; assumption|].
      destruct (Hall a Ha) as [H1 H2]. split; [exact H1|].
      intros Hin. apply H2. now right.
Qed.

Lemma NoDup_firstn {A : Type} (n : nat) (l : list A) :
  NoDup l -> NoDup (firstn n l).
Proof.
  revert l. induction n as [|n IH]; intros [|x l] H; simpl;
    try constructor.
  - inversion H; subst. intros Hin. apply PyFacts.In_firstn in Hin. auto.
  - inversion H; subst. auto.
Qed.

Lemma set_amount_ok (amt : str) (ws : list Cand) :
  _is_number_like U amt = true ->
  forall i, Forall (cand_amount_ok U) ws ->
            Forall (cand_amount_ok U) (set_amount i amt ws).
Proof.
  intros Hamt. induction ws as [|w ws IH]; intros i H; destruct i;
    cbn [set_amount]; try constructor; inversion H; subst; auto.
Qed.

Lemma amount_step_ok (ws : list Cand) (m : rmatch) :
  Forall (cand_amount_ok U) ws -> Forall (cand_amount_ok U) (amount_step U ws m).
Proof.
  intros H. unfold amount_step. destruct ws as [|w ws]; [exact H|].
  destruct (_is_number_like U _) eqn:E; [|exact H].
  unfold assign_amount. destruct (find _ _) as [[i ?]|]; [|exact H].
  apply set_amount_ok; assumption.
Qed.

Lemma amount_loop_ok (ms : list rmatch) (ws : list Cand) :
  Forall (cand_amount_ok U) ws ->
  Forall (cand_amount_ok U) (fold_left (amount_step U) ms ws).
Proof.
  revert ws. induction ms as [|m ms IH]; intros ws H; simpl; [exact H|].
  apply IH, amount_step_ok, H.
Qed.

Lemma winners_raw_no_amount (text : str) :
  Forall (cand_amount_ok U) (winners_raw U text).
Proof.
  apply Forall_forall. intros c Hc.
  unfold winners_raw in Hc. apply in_flat_map in Hc.
  destruct Hc as (rx & _ & Hc). unfold candidates in Hc.
  apply in_flat_map in Hc. destruct Hc as (m & _ & Hc).
  unfold candidate in Hc.
  destruct (first_group _) as [cand|]; [|destruct Hc].
  destruct (_ <? 2); [destruct Hc|].
  destruct (_norm_company U cand) as [[|x nm]|];
    [destruct Hc | | destruct Hc].
  destruct Hc as [<-|[]]. exact I.
Qed.

(** What the deterministic extractor keeps of the winners. *)
Lemma fallback_winners_inv (text : str) :
  let ws := fst (fst (_fallback_extract U text)) in
  (length ws <= 10)%nat
  /\ NoDup (map w_name ws)
  /\ Forall (fun w => (2 <= length (w_name w))%nat
                      /\ amount_ok U (w_amount w)) ws.
Proof.
  cbv zeta.
  pose proof (AwardsFacts.fallback_winners_fresh U text) as Hfresh.
  apply fresh_NoDup in Hfresh. destruct Hfresh as [Hnd _].
  split; [|split; [exact Hnd|]].
  - unfold _fallback_extract. cbv zeta.
    destruct (_clean_html_ws text); cbn [fst]; [simpl; lia|].
    apply firstn_le_length.
  - apply Forall_forall. intros w Hw.
    unfold _fallback_extract in Hw. cbv zeta in Hw.
    destruct (_clean_html_ws text) as [|x t] eqn:Ht; cbn [fst] in Hw;
      [destruct Hw|].
    apply PyFacts.In_firstn in Hw. apply in_map_iff in Hw.
    destruct Hw as (c & <- & Hc).
    apply AwardsFacts.dedup_by_In in Hc. apply PyFacts.In_sort in Hc.
    split.
    + assert (Hcore : In (core c) (map core (winners_raw U (x :: t)))).
      { rewrite <- (AwardsFacts.amount_loop_core U
                      (finditer AMOUNT_REGEX (x :: t))).
        apply in_map, Hc. }
      apply in_map_iff in Hcore. destruct Hcore as (c0 & Hcore & Hc0).
      apply AwardsFacts.winners_raw_scored in Hc0.
      destruct Hc0 as (_ & _ & cand & _ & _ & _ & _ & _ & Hn & _).
      apply AwardsFacts.norm_company_length in Hn.
      unfold core in Hcore. cbn [winner_of w_name].
      replace (Awards.c_name c) with (Awards.c_name c0) by congruence.
      exact Hn.
    + pose proof (amount_loop_ok (finditer AMOUNT_REGEX (x :: t)) _
                    (winners_raw_no_amount (x :: t))) as Hok.
      rewrite Forall_forall in Hok. specialize (Hok c Hc).
      unfold cand_amount_ok in Hok. unfold amount_ok.
      cbn [winner_of w_amount].
      destruct (c_amount c) as [a|]; [right; eauto | now left].
Qed.

(** X4. The deterministic extractor returns at most 10 winners.  Their
    names are pairwise distinct and have at least two characters; each
    amount is missing or is a string that looks like a number. *)
Theorem fallback_winners_shape (text : str) :
  let ws := fst (fst (_fallback_extract U text)) in
  (length ws <= 10)%nat
  /\ NoDup (map w_name ws)
  /\ Forall (fun w => (2 <= length (w_name w))%nat
                      /\ amount_ok U (w_amount w)) ws.
Proof. exact (fallback_winners_inv text). Qed.

Lemma reason_step_ok (rs : list str) (sent : str) :
  reasons_ok rs -> reasons_ok (reason_step rs sent).
Proof.
  intros [Hnd Hall]. unfold reason_step. cbv zeta.
  destruct (strip sent) as [|c s]; [split; assumption|].
  destruct (contains_any REASON_KEYS (c :: s)); [|split; assumption].
  pose proof (truncate_le (c :: s) 100 ltac:(lia)) as Hlen.
  destruct (_truncate (c :: s) 100) as [|d r] eqn:Et; [split; assumption|].
  destruct (existsb (str_eqb (d :: r)) rs) eqn:Ex; [split; assumption|].
  split.
  - apply NoDup_app; [exact Hnd | repeat constructor; intros [] |].
    intros y Hy [<-|[]]. apply existsb_str_eqb in Hy. congruence.
  - apply Forall_app. split; [exact Hall|].
    constructor; [|constructor]. simpl length in *. lia.
Qed.

Lemma reason_loop_ok (sents : list str) (rs : list str) :
  reasons_ok rs -> reasons_ok (fold_left reason_step sents rs).
Proof.
  revert rs. induction sents as [|s sents IH]; intros rs H; simpl;
    [exact H|]. apply IH, reason_step_ok, H.
Qed.

Lemma Forall_firstn {A : Type} (P : A -> Prop) (n : nat) (l : list A) :
  Forall P l -> Forall P (firstn n l).
Proof.
  intros H. apply Forall_forall. intros x Hx.
  rewrite Forall_forall in H. apply H. eapply PyFacts.In_firstn, Hx.
Qed.

(** What the deterministic extractor keeps of the reasons. *)
Lemma fallback_reasons_inv (text : str) :
  let rs := snd (fst (_fallback_extract U text)) in
  (length rs <= 10)%nat
  /\ NoDup rs
  /\ Forall (fun r => (1 <= length r <= 100)%nat) rs
  /\ (forall ag, snd (_fallback_extract U text) = Some ag ->
                 (2 <= length ag)%nat).
Proof.
  cbv zeta. unfold _fallback_extract. cbv zeta.
  destruct (_clean_html_ws text) as [|x t]; cbn [fst snd].
  - repeat split; try constructor; [simpl; lia | discriminate].
  - set (rs := fold_left reason_step
                 (Re.split (Chr (is_in [10; 46])) (x :: t)) []).
    assert (Hrs : reasons_ok rs).
    { apply reason_loop_ok. split; constructor. }
    destruct Hrs as [Hnd Hall].
    split; [apply firstn_le_length|].
    split; [apply NoDup_firstn, Hnd|].
    split; [apply Forall_firstn, Hall|].
    intros ag.
    destruct (search AGENCY_REGEX (x :: t)) as [am|]; [|discriminate].
    destruct (group 1 (m_caps am)) as [g|]; [|discriminate].
    destruct (_norm_company U g) as [[|c ag']|] eqn:Hn; try discriminate.
    intros H. injection H as <-.
    apply (AwardsFacts.norm_company_length U _ _ Hn).
Qed.

(** X5. The deterministic extractor returns at most 10 reasons; they are
    pairwise distinct and have between 1 and 100 characters.  An agency,
    when it returns one, has at least two characters. *)
Theorem fallback_reasons_shape (text : str) :
  let rs := snd (fst (_fallback_extract U text)) in
  (length rs <= 10)%nat
  /\ NoDup rs
  /\ Forall (fun r => (1 <= length r <= 100)%nat) rs
  /\ (forall ag, snd (_fallback_extract U text) = Some ag ->
                 (2 <= length ag)%nat).
Proof. exact (fallback_reasons_inv text). Qed.

Lemma amount_loop_nil (ms : list rmatch) :
  fold_left (amount_step U) ms [] = [].
Proof. induction ms as [|m ms IH]; simpl; auto. Qed.

Lemma company_patterns_need_trigger :
  Forall (fun rx => needs TRIGGERS (fst rx) = true) COMPANY_PATTERNS.
Proof. repeat constructor. Qed.

(** X6. A text that holds none of the winner keywords and none of the
    company labels gives no winner. *)
Theorem fallback_needs_trigger (text : str) :
  contains_any TRIGGERS (_clean_html_ws text) = false ->
  fst (fst (_fallback_extract U text)) = [].
Proof.
  intros Hc. unfold _fallback_extract. cbv zeta.
  destruct (_clean_html_ws text) as [|x t] eqn:Ht; [reflexivity|].
  cbn [fst].
  assert (Hraw : winners_raw U (x :: t) = []).
  { unfold winners_raw.
    pose proof company_patterns_need_trigger as Hn.
    induction Hn as [|rx rxs Hrx _ IH]; [reflexivity|].
    cbn [flat_map]. rewrite IH. unfold candidates.
    rewrite (finditer_needs TRIGGERS _ _ Hrx Hc). reflexivity. }
  rewrite Hraw, amount_loop_nil. reflexivity.
Qed.

(** ** What [_call_llm] returns *)

Lemma incr_ok (k : str) (c : Counter) :
  (2 <= length k)%nat -> counter_ok c -> counter_ok (incr k c).
Proof.
  intros Hk. unfold counter_ok.
  induction 1 as [|[k' n] c [H1 H2] Hc IH]; cbn [incr].
  - repeat constructor; simpl; lia.
  - destruct (str_eqb k k'); constructor; simpl in *; auto; split; lia.
Qed.

Lemma llm_winner_ok (w : json) :
  Forall (fun w => (2 <= length (w_name w))%nat) (llm_winner U w).
Proof.
  unfold llm_winner. destruct w; try constructor.
  destruct (get (u "name") d) as [v|]; [|constructor].
  unfold norm_company_value. destruct v; try constructor.
  destruct (_norm_company U s) as [[|c nm]|] eqn:Hn; try constructor;
    [|constructor].
  apply (AwardsFacts.norm_company_length U _ _ Hn).
Qed.

Lemma llm_reason_ok (r : json) :
  Forall (fun r => (length r <= 100)%nat) (llm_reason r).
Proof.
  unfold llm_reason. destruct r; try constructor.
  destruct (strip s) as [|c rs]; constructor; [|constructor].
  pose proof (truncate_le (c :: rs) 100 ltac:(lia)). lia.
Qed.

Lemma llm_agency_ok (agency : json) (votes : Counter) :
  counter_ok votes -> counter_ok (llm_agency U agency votes).
Proof.
  intros H. unfold llm_agency. destruct (truthy agency); [|exact H].
  unfold norm_company_value. destruct agency; try exact H.
  destruct (_norm_company U s) as [[|c ag]|] eqn:Hn; try exact H.
  apply incr_ok; [|exact H].
  apply (AwardsFacts.norm_company_length U _ _ Hn).
Qed.

Lemma Forall_flat_map {A B : Type} (P : B -> Prop) (f : A -> list B)
      (l : list A) :
  (forall a, Forall P (f a)) -> Forall P (flat_map f l).
Proof.
  intros H. induction l as [|a l IH]; simpl; [constructor|].
  apply Forall_app. auto.
Qed.

Lemma chunk_step_ok (llm : Llm) (title url : str) (i : nat) (ch : str)
      (acc acc' : Acc) :
  acc_ok acc -> chunk_step U llm title url i ch acc = Ok acc' -> acc_ok acc'.
Proof.
  intros (Hw & Hr & Hv). unfold chunk_step. cbv zeta.
  destruct (iterate _) as [ws|]; cbn [bind]; [|discriminate].
  destruct (iterate _) as [rs|]; cbn [bind]; [|discriminate].
  intros H. injection H as <-. unfold acc_ok.
  cbn [winners_all reasons_all agency_votes].
  split; [|split].
  - apply Forall_app. split; [exact Hw|].
    apply Forall_flat_map, llm_winner_ok.
  - apply Forall_app. split; [exact Hr|].
    apply Forall_flat_map, llm_reason_ok.
  - apply llm_agency_ok, Hv.
Qed.

Lemma chunk_loop_ok (llm : Llm) (title url : str) (chunks : list str) :
  forall i acc acc',
    acc_ok acc ->
    chunk_loop U llm title url i chunks acc = Ok acc' -> acc_ok acc'.
Proof.
  induction chunks as [|ch chunks IH]; intros i acc acc' Hacc; cbn [chunk_loop].
  - intros H. injection H as <-. exact Hacc.
  - destruct (chunk_step U llm title url i ch acc) as [a|] eqn:E;
      cbn [bind]; [|discriminate].
    apply IH. eapply chunk_step_ok; eassumption.
Qed.

Lemma page_fallback_ok (body : str) (acc : Acc) :
  acc_ok acc -> acc_ok (page_fallback U body acc).
Proof.
  intros (Hw & Hr & Hv). unfold page_fallback.
  destruct (winners_all acc) as [|w ws] eqn:Ew; [|repeat split; try rewrite Ew; assumption].
  pose proof (fallback_winners_inv body) as (_ & _ & Hfw).
  pose proof (fallback_reasons_inv body) as (_ & _ & Hfr & Hfa).
  cbv zeta in Hfw, Hfr, Hfa.
  destruct (_fallback_extract U body) as [[fw fr] fa]. cbn [fst snd] in *.
  unfold acc_ok. cbn [winners_all reasons_all agency_votes].
  split; [|split].
  - eapply Forall_impl; [|exact Hfw]. intros a [H _]. exact H.
  - destruct (reasons_all acc); [|exact Hr].
    eapply Forall_impl; [|exact Hfr]. intros a [_ H]. exact H.
  - destruct (agency_votes acc) as [|v vs]; [|exact Hv].
    destruct fa as [[|c ag]|]; try constructor.
    + simpl. split; [|lia]. apply (Hfa _ eq_refl).
    + constructor.
Qed.

Lemma top_agency_ok (votes : Counter) :
  counter_ok votes ->
  top_agency votes = [] \/ (2 <= length (top_agency votes))%nat.
Proof.
  intros H. unfold top_agency.
  destruct (most_common 1 votes) as [|[ag n] l] eqn:E; [now left|right].
  assert (Hin : In (ag, n) (most_common 1 votes)) by (rewrite E; now left).
  unfold most_common in Hin. apply PyFacts.In_firstn in Hin.
  apply PyFacts.In_sort in Hin. unfold counter_ok in H.
  rewrite Forall_forall in H. apply (H _ Hin).
Qed.

(** What the loop over the chunks and the fallback leave. *)
Lemma call_llm_inv (llm : Llm) (i : nat) (title url body : str)
        (data : PageData) :
  _call_llm U llm i title url body = Ok data ->
  NoDup (map w_name (d_winners data))
  /\ Forall (fun w => (2 <= length (w_name w))%nat) (d_winners data)
  /\ Forall (fun r => (length r <= 100)%nat) (d_reasons data)
  /\ (d_agency data = [] \/ (2 <= length (d_agency data))%nat)
  /\ (forall acc,
        chunk_loop U llm title url i (_chunk_text body 9000)
          {| winners_all := []; reasons_all := []; agency_votes := [] |}
        = Ok acc ->
        winners_all acc <> [] ->
        d_winners data = dedup_by w_name [] (winners_all acc)).
Proof.
  unfold _call_llm. cbv zeta.
  destruct (chunk_loop U llm title url i (_chunk_text body 9000) _)
    as [acc|] eqn:Hloop; cbn [bind]; [|discriminate].
  intros H. injection H as <-. cbn [d_winners d_reasons d_agency].
  assert (Hacc : acc_ok (page_fallback U body acc)).
  { apply page_fallback_ok. eapply chunk_loop_ok; [|exact Hloop].
    repeat split; constructor. }
  destruct Hacc as (Hw & Hr & Hv).
  pose proof (AwardsFacts.dedup_by_fresh w_name
                (winners_all (page_fallback U body acc)) []) as Hf.
  apply fresh_NoDup in Hf. destruct Hf as [Hnd _].
  split; [exact Hnd|]. split.
  { apply Forall_forall. intros w Hin. apply AwardsFacts.dedup_by_In in Hin.
    rewrite Forall_forall in Hw. apply Hw, Hin. }
  split; [exact Hr|]. split; [apply top_agency_ok, Hv|].
  intros acc' E Hne. injection E as <-.
  unfold page_fallback.
  destruct (winners_all acc) as [|w l] eqn:Ew; [congruence|].
  rewrite Ew. reflexivity.
Qed.

(** X9. What [_call_llm] returns for a page: winners whose names are
    pairwise distinct and have at least two characters, reasons of at
    most 100 characters, and an agency that is empty or has at least two
    characters.  When the model gave a winner, the winners are the
    model's, each name once, and the deterministic extractor adds none. *)
Theorem call_llm_result (llm : Llm) (i : nat) (title url body : str)
        (data : PageData) :
  _call_llm U llm i title url body = Ok data ->
  NoDup (map w_name (d_winners data))
  /\ Forall (fun w => (2 <= length (w_name w))%nat) (d_winners data)
  /\ Forall (fun r => (length r <= 100)%nat) (d_reasons data)
  /\ (d_agency data = [] \/ (2 <= length (d_agency data))%nat)
  /\ (forall acc,
        chunk_loop U llm title url i (_chunk_text body 9000)
          {| winners_all := []; reasons_all := []; agency_votes := [] |}
        = Ok acc ->
        winners_all acc <> [] ->
        d_winners data = dedup_by w_name [] (winners_all acc)).
Proof. exact (call_llm_inv llm i title url body data). Qed.

End WithTables.

Lemma norm_company_accepts_witness :
  exists n,
    _norm_company basic_unicode (u "㈜ 한빛시스템") = Some n
    /\ n = cleaned_name (u "㈜ 한빛시스템")
    /\ (2 <= length n)%nat
    /\ contains_any BAN_TOKENS n = false
    /\ (exists c, In c n /\ (hangul c || upper c || lower c) = true)
    /\ 3 * Z.of_nat (length n) <= 5 * Z.of_nat (letters basic_unicode n)
    /\ (forall c t, n = c :: t -> is_in EDGE c = false)
    /\ (forall c t, n = t ++ [c] -> is_in EDGE c = false).
Proof.
  eexists. split.
  - vm_compute. reflexivity.
  - apply (norm_company_accepts basic_unicode (u "㈜ 한빛시스템")).
    vm_compute. reflexivity.
Defined.

Lemma fallback_needs_trigger_witness :
  contains_any TRIGGERS (_clean_html_ws (u "한빛시스템 1,200,000,000원"))
  = false
  /\ fst (fst (_fallback_extract basic_unicode
                 (u "한빛시스템 1,200,000,000원"))) = [].
Proof.
  split.
  - vm_compute. reflexivity.
  - apply (fallback_needs_trigger basic_unicode). vm_compute. reflexivity.
Defined.

Lemma call_llm_result_witness :
  exists data,
    _call_llm basic_unicode helpful 0 (u "t") (u "http://a") scenario_a_text
    = Ok data
    /\ NoDup (map w_name (d_winners data))
    /\ Forall (fun w => (2 <= length (w_name w))%nat) (d_winners data)
    /\ Forall (fun r => (length r <= 100)%nat) (d_reasons data)
    /\ (d_agency data = [] \/ (2 <= length (d_agency data))%nat)
    /\ (forall acc,
          chunk_loop basic_unicode helpful (u "t") (u "http://a") 0
            (_chunk_text scenario_a_text 9000)
            {| winners_all := []; reasons_all := []; agency_votes := [] |}
          = Ok acc ->
          winners_all acc <> [] ->
          d_winners data = dedup_by w_name [] (winners_all acc)).
Proof.
  eexists. split.
  - vm_compute. reflexivity.
  - apply (call_llm_result basic_unicode helpful 0 (u "t") (u "http://a")
             scenario_a_text).
    vm_compute. reflexivity.
Defined.

End AwardsMore.

(* ================================================================= *)
(** * Properties of the aggregation over the pages *)

Module SnapshotFacts.
Import Py Re Json Awards PySpec AwardsSpec MoreSpec ReFacts StrFacts.
Import AwardsMore.

(** ** Counters *)

Lemma incr_keys (k : str) (c : Counter) :
  map fst (incr k c)
  = if existsb (str_eqb k) (map fst c) then map fst c
    else map fst c ++ [k].
Proof.
  induction c as [|[k' n] c IH]; [reflexivity|].
  cbn [incr map fst existsb]. destruct (str_eqb k k'); [reflexivity|].
  cbn [map fst orb]. rewrite IH.
  destruct (existsb (str_eqb k) (map fst c)); reflexivity.
Qed.

Lemma incr_NoDup (k : str) (c : Counter) :
  NoDup (map fst c) -> NoDup (map fst (incr k c)).
Proof.
  intros H. rewrite incr_keys.
  destruct (existsb (str_eqb k) (map fst c)) eqn:E; [exact H|].
  apply NoDup_app; [exact H | repeat constructor; intros [] |].
  intros y Hy [<-|[]]. apply existsb_str_eqb in Hy. congruence.
Qed.

Lemma counter_of_NoDup (l : list str) : NoDup (map fst (counter_of l)).
Proof.
  unfold counter_of.
  assert (H : forall c, NoDup (map fst c) ->
                        NoDup (map fst (fold_left (fun c k => incr k c) l c))).
  { induction l as [|k l IH]; intros c Hc; simpl; [exact Hc|].
    apply IH, incr_NoDup, Hc. }
  apply H. constructor.
Qed.

Lemma incr_In (k : str) (c : Counter) (it : str * nat) :
  In it (incr k c) ->
  In it c \/ it = (k, 1%nat)
  \/ exists n, In (fst it, n) c /\ snd it = S n /\ fst it = k.
Proof.
  induction c as [|[k' n] c IH]; cbn [incr].
  - intros [<-|[]]. right. now left.
  - destruct (str_eqb k k') eqn:E.
    + apply PyFacts.str_eqb_eq in E. subst k'.
      intros [<-|H]; [|left; now right].
      right. right. exists n. cbn. repeat split. now left.
    + intros [<-|H]; [left; now left|].
      destruct (IH H) as [H1|[H1|(m & H1 & H2 & H3)]].
      * left. now right.
      * right. now left.
      * right. right. exists m. repeat split; auto. now right.
Qed.

Lemma counter_of_In (l : list str) (it : str * nat) :
  In it (counter_of l) -> In (fst it) l /\ (1 <= snd it)%nat.
Proof.
  unfold counter_of.
  assert (H : forall c,
             (forall x, In x c -> (In (fst x) l \/ In x c) /\ (1 <= snd x)%nat) ->
             True) by auto. clear H.
  assert (G : forall (l0 : list str) c,
             (forall x, In x c -> In (fst x) l /\ (1 <= snd x)%nat) ->
             incl l0 l ->
             forall x, In x (fold_left (fun c k => incr k c) l0 c) ->
                       In (fst x) l /\ (1 <= snd x)%nat).
  { induction l0 as [|k l0 IH]; intros c Hc Hin x; simpl; [apply Hc|].
    apply IH; [|intros y Hy; apply Hin; now right].
    intros y Hy. apply incr_In in Hy.
    destruct Hy as [Hy|[->|(n & Hy & Hs & Hk)]].
    - apply Hc, Hy.
    - simpl. split; [apply Hin; now left | lia].
    - destruct (Hc _ Hy) as [H1 H2]. simpl in H1. split; [exact H1 | lia]. }
  apply (G l []); [intros x [] | apply incl_refl].
Qed.

Lemma sort_Permutation {A : Type} (leb : A -> A -> bool) (l : list A) :
  Permutation (sort leb l) l.
Proof.
  assert (Hins : forall x s, Permutation (insert leb x s) (x :: s)).
  { intros x s. induction s as [|y s IH]; simpl; [reflexivity|].
    destruct (leb x y); [reflexivity|].
    rewrite IH. apply perm_swap. }
  induction l as [|x l IH]; simpl; [constructor|].
  rewrite Hins. constructor. exact IH.
Qed.

Lemma most_common_NoDup (n : nat) (c : Counter) :
  NoDup (map fst c) -> NoDup (map fst (most_common n c)).
Proof.
  intros H. unfold most_common. rewrite <- firstn_map.
  apply NoDup_firstn.
  eapply Permutation_NoDup; [|exact H].
  symmetry. apply Permutation_map, sort_Permutation.
Qed.

Lemma most_common_In (n : nat) (c : Counter) (it : str * nat) :
  In it (most_common n c) -> In it c.
Proof.
  unfold most_common. intros H. apply PyFacts.In_firstn in H.
  apply PyFacts.In_sort in H. exact H.
Qed.

(** ** Counting the winners *)

Lemma occ_app (k : str) (a b : list Winner) :
  occ k (a ++ b) = (occ k a + occ k b)%nat.
Proof. unfold occ. rewrite filter_app, length_app. reflexivity. Qed.

Lemma occ_NoDup (k : str) (ws : list Winner) :
  NoDup (map w_name ws) -> (occ k ws <= 1)%nat.
Proof.
  unfold occ. induction ws as [|w ws IH]; simpl; [lia|].
  intros H. inversion H as [|x l Hnin Hnd]; subst.
  destruct (str_eqb k (w_name w)) eqn:E; [|apply IH, Hnd].
  apply PyFacts.str_eqb_eq in E. subst k. simpl.
  assert (Hz : filter (fun w0 => str_eqb (w_name w) (w_name w0)) ws = []).
  { clear IH H Hnd. induction ws as [|v ws IH]; simpl; [reflexivity|].
    destruct (str_eqb (w_name w) (w_name v)) eqn:E.
    - apply PyFacts.str_eqb_eq in E. exfalso. apply Hnin. left. auto.
    - apply IH. intros Hin. apply Hnin. now right. }
  rewrite Hz. simpl. lia.
Qed.

Lemma occ_snoc (k : str) (L : list Winner) (w : Winner) :
  occ k (L ++ [w])
  = (occ k L + if str_eqb k (w_name w) then 1 else 0)%nat.
Proof.
  rewrite occ_app. unfold occ at 2. cbn [filter].
  destruct (str_eqb k (w_name w)); reflexivity.
Qed.

Lemma str_eqb_refl (k : str) : str_eqb k k = true.
Proof. apply PyFacts.str_eqb_eq. reflexivity. Qed.

Lemma count_names_inv (ws : list Winner) :
  forall c L,
    NoDup (map fst c) ->
    Forall (fun it => (2 <= length (fst it))%nat
                      /\ (1 <= snd it <= occ (fst it) L)%nat) c ->
    Forall (fun w => (2 <= length (w_name w))%nat) ws ->
    NoDup (map fst (count_names ws c))
    /\ Forall (fun it => (2 <= length (fst it))%nat
                         /\ (1 <= snd it <= occ (fst it) (L ++ ws))%nat)
              (count_names ws c).
Proof.
  induction ws as [|w ws IH]; intros c L Hnd Hc Hws;
    cbn [count_names fold_left].
  - rewrite app_nil_r. split; assumption.
  - inversion Hws as [|w0 ws0 Hw Hws']; subst.
    destruct (w_name w) as [|x nm] eqn:En; [simpl in Hw; lia|].
    replace (L ++ w :: ws) with ((L ++ [w]) ++ ws)
      by (rewrite <- app_assoc; reflexivity).
    apply IH; [apply incr_NoDup, Hnd | | exact Hws'].
    apply Forall_forall. intros it Hit. rewrite Forall_forall in Hc.
    rewrite occ_snoc, En.
    destruct (incr_In _ _ _ Hit) as [Hin|[->|(n & Hin & Hs & Hk)]].
    + destruct (Hc _ Hin) as [H1 H2]. split; [exact H1 | lia].
    + cbn [fst snd]. rewrite str_eqb_refl. split; [exact Hw | lia].
    + destruct (Hc _ Hin) as [H1 H2]. cbn [fst snd] in H1, H2.
      destruct it as [k' n']. cbn [fst snd] in *. subst k' n'.
      rewrite str_eqb_refl. split; [exact H1 | lia].
Qed.

Lemma incr_new (k : str) (c : Counter) :
  existsb (str_eqb k) (map fst c) = false -> incr k c = c ++ [(k, 1%nat)].
Proof.
  induction c as [|[k' n] c IH]; cbn [incr map fst existsb app];
    [reflexivity|].
  destruct (str_eqb k k'); cbn [orb]; [discriminate|].
  intros H. rewrite (IH H). reflexivity.
Qed.

Lemma orb_comm_true (a b : bool) : a || b = true -> b || a = true.
Proof. now destruct a, b. Qed.

Lemma fresh_seen (l : list Winner) :
  forall s1 s2,
    (forall z, existsb (str_eqb z) s2 = true ->
               existsb (str_eqb z) s1 = true) ->
    fresh w_name s1 l -> fresh w_name s2 l.
Proof.
  induction l as [|y l IHl]; intros s1 s2 Hs; cbn [fresh]; [auto|].
  intros (G1 & G2 & G3). split; [exact G1|]. split.
  - destruct (existsb (str_eqb (w_name y)) s2) eqn:E; [|reflexivity].
    rewrite (Hs _ E) in G2. discriminate.
  - apply (IHl (w_name y :: s1)); [|exact G3].
    intros z. cbn [existsb]. intros Hz.
    apply orb_true_iff in Hz. apply orb_true_iff.
    destruct Hz as [Hz|Hz]; [now left | right; apply Hs, Hz].
Qed.

(** Names that are new and pairwise distinct enter the counter in their
    order, once each. *)
Lemma count_names_fresh (ws : list Winner) :
  forall c,
    fresh w_name (map fst c) ws ->
    count_names ws c = c ++ map (fun w => (w_name w, 1%nat)) ws.
Proof.
  induction ws as [|w ws IH]; intros c; cbn [count_names fold_left fresh map].
  - intros _. now rewrite app_nil_r.
  - intros (Hne & Hs & Hf).
    destruct (w_name w) as [|x nm] eqn:En; [congruence|].
    rewrite (incr_new _ _ Hs).
    change (fold_left _ ws ?a) with (count_names ws a).
    rewrite IH; [rewrite <- app_assoc; reflexivity|].
    refine (fresh_seen _ _ _ _ Hf).
    intros z. rewrite map_app, existsb_app. cbn [map fst existsb].
    rewrite orb_false_r. apply orb_comm_true.
Qed.

(** ** The loop over the pages *)

Section WithTables.
Context (U : Unicode).

Lemma page_step_ok (llm : Llm) (acc acc' : PagesAcc) (p : Awards.Page) :
  page_step U llm acc p = Ok acc' -> pages_ok acc ->
  pages_ok acc' /\ evidences acc' = evidences acc ++ evidence_of_page p.
Proof.
  unfold page_step, evidence_of_page. cbv zeta.
  destruct (_clean_html_ws (Awards.or_empty (Awards.p_text p)))
    as [|c text] eqn:Et.
  - intros H Hacc. injection H as <-.
    split; [exact Hacc | now rewrite app_nil_r].
  - destruct (_call_llm U llm (calls acc) _ _ (c :: text)) as [data|e] eqn:Ec;
      cbn [bind]; [|discriminate].
    intros H (Hw & Ho & Hr & Ha & Hk). injection H as <-.
    pose proof (call_llm_inv U _ _ _ _ _ _ Ec) as (Hnd & Hlen & Hrs & Hag & _).
    split; [|reflexivity].
    unfold pages_ok.
    cbn [all_winners all_reasons agency_counts evidences].
    split; [|split; [|split; [|split]]].
    + apply Forall_app. split; assumption.
    + intros k. rewrite occ_app, length_app. cbn [length].
      pose proof (Ho k). pose proof (occ_NoDup k _ Hnd). lia.
    + apply Forall_app. split; assumption.
    + destruct (d_agency data) as [|x ag] eqn:Ed; [exact Ha|].
      apply incr_ok; [|exact Ha]. destruct Hag as [Hag|Hag]; [discriminate|].
      exact Hag.
    + destruct (d_agency data) as [|x ag]; [exact Hk|].
      apply incr_NoDup, Hk.
Qed.

Lemma page_loop_ok (llm : Llm) (pages : list Awards.Page) :
  forall acc acc',
    page_loop U llm acc pages = Ok acc' -> pages_ok acc ->
    pages_ok acc'
    /\ evidences acc' = evidences acc ++ flat_map evidence_of_page pages.
Proof.
  induction pages as [|p pages IH]; intros acc acc'; cbn [page_loop flat_map].
  - intros H Hacc. injection H as <-.
    split; [exact Hacc | now rewrite app_nil_r].
  - destruct (page_step U llm acc p) as [a|e] eqn:Es; cbn [bind];
      [|discriminate].
    intros Hl Hacc.
    destruct (page_step_ok _ _ _ _ Es Hacc) as [Ha Hev].
    destruct (IH _ _ Hl Ha) as [Ha' Hev'].
    split; [exact Ha'|]. rewrite Hev', Hev, app_assoc. reflexivity.
Qed.

Lemma no_page_ok : pages_ok no_page.
Proof.
  unfold pages_ok, no_page, counter_ok. cbn.
  repeat split; try constructor. 
Qed.

Lemma evidence_of_pages_length (pages : list Awards.Page) :
  (length (flat_map evidence_of_page pages) <= length pages)%nat.
Proof.
  induction pages as [|p pages IH]; cbn [flat_map length]; [lia|].
  rewrite length_app. unfold evidence_of_page at 1.
  destruct (_clean_html_ws _); cbn [length]; lia.
Qed.

(** ** The count of the winners *)

Lemma count_loop_counter (ws : list Winner) :
  forall c b c' b',
    count_loop U (c, b) ws = Ok (c', b') -> c' = count_names ws c.
Proof.
  induction ws as [|w ws IH]; intros c b c' b'; cbn [count_loop count_names fold_left].
  - intros H. injection H as <- <-. reflexivity.
  - destruct (count_step U (c, b) w) as [[c1 b1]|e] eqn:Es; cbn [bind];
      [|discriminate].
    intros Hl. rewrite (IH _ _ _ _ Hl). unfold count_names. f_equal.
    unfold count_step in Es.
    destruct (w_name w) as [|x nm]; [injection Es as <- _; reflexivity|].
    destruct (w_amount w) as [| | z | | amt | |];
      try (injection Es as <- _; reflexivity).
    + destruct (float_of_int z); cbn [bind] in Es; [|discriminate].
      injection Es as <- _; reflexivity.
    + destruct (Re.sub _ _ amt); [injection Es as <- _; reflexivity|].
      destruct (float_of_str U _); injection Es as <- _; reflexivity.
Qed.

(** ** The totals *)

Lemma fallback_of_no_text :
  fst (fst (_fallback_extract U (all_text []))) = [].
Proof. reflexivity. Qed.

Lemma occ_le_length (k : str) (ws : list Winner) :
  (occ k ws <= length ws)%nat.
Proof. unfold occ. apply filter_length_le. Qed.

Lemma totals_inv (llm : Llm) (pages : list Awards.Page) (t : Totals)
      (evs : list Evidence) :
  totals U llm pages = Ok (t, evs) ->
  wins_ok (length pages) (win_counter t)
  /\ evs = flat_map evidence_of_page pages
  /\ Forall (fun r => (length r <= 100)%nat) (reasons t)
  /\ counter_ok (agencies t)
  /\ NoDup (map fst (agencies t)).
Proof.
  unfold totals. fold no_page.
  destruct (page_loop U llm no_page pages) as [acc|e] eqn:El; cbn [bind];
    [|discriminate].
  destruct (page_loop_ok _ _ _ _ El no_page_ok)
    as ((Hw & Ho & Hr & Ha & Hk) & Hev).
  cbn [evidences no_page app] in Hev.
  destruct (count_loop U ([], []) (all_winners acc)) as [[wc bag]|e] eqn:Ec;
    cbn [bind]; [|discriminate].
  intros H. injection H as <- <-.
  apply count_loop_counter in Ec.
  split; [|split; [exact Hev|]].
  - unfold global_fallback. cbn [win_counter].
    destruct wc as [|it wc].
    + fold (all_text pages).
      pose proof (fallback_winners_inv U (all_text pages)) as (_ & Hnd & Hfw).
      cbv zeta in Hnd, Hfw.
      pose proof fallback_of_no_text as Hnil.
      destruct (_fallback_extract U (all_text pages)) as [[fw fr] fa] eqn:Ef.
      cbn [fst snd win_counter] in *.
      fold (count_names fw []).
      destruct (count_names_inv fw [] [] (NoDup_nil _) (Forall_nil _))
        as [H1 H2].
      { eapply Forall_impl; [|exact Hfw]. intros a [H _]. exact H. }
      split; [exact H1|].
      eapply Forall_impl; [|exact H2].
      intros [k n] [G1 G2]. cbn [fst snd app] in *. split; [exact G1|].
      pose proof (occ_NoDup k _ Hnd).
      destruct pages as [|p pages].
      * rewrite Ef in Hnil. cbn [fst] in Hnil. subst fw.
        unfold occ in G2. cbn in G2. lia.
      * cbn [length]. lia.
    + cbn [win_counter]. rewrite Ec.
      destruct (count_names_inv (all_winners acc) [] [] (NoDup_nil _)
                  (Forall_nil _) Hw) as [H1 H2].
      split; [exact H1|].
      eapply Forall_impl; [|exact H2].
      intros [k n] [G1 G2]. cbn [fst snd app] in *. split; [exact G1|].
      pose proof (Ho k). rewrite Hev in H.
      pose proof (evidence_of_pages_length pages). lia.
  - unfold global_fallback. cbn [win_counter].
    destruct wc as [|it wc]; [|cbn [reasons agencies]; auto].
    fold (all_text pages).
    pose proof (fallback_reasons_inv U (all_text pages)) as (_ & _ & Hfr & Hfa).
    cbv zeta in Hfr, Hfa.
    destruct (_fallback_extract U (all_text pages)) as [[fw fr] fa].
    cbn [fst snd reasons agencies] in *.
    split; [|].
    + destruct (all_reasons acc) as [|r rs]; [|exact Hr].
      eapply Forall_impl; [|exact Hfr]. intros a [_ H]. exact H.
    + destruct fa as [[|c ag]|]; auto.
      split; [apply incr_ok; [apply (Hfa _ eq_refl) | exact Ha]|].
      apply incr_NoDup, Hk.
Qed.

(** ** When the extraction returns *)

Lemma llm_winner_converts (w : json) :
  (forall dd z, w = JDict dd -> get (u "amount") dd = Some (JInt z) ->
                float_range z) ->
  Forall converts (llm_winner U w).
Proof.
  intros H. unfold llm_winner. destruct w as [| | | | |l|dd]; try constructor.
  destruct (match get (u "name") dd with
            | Some v => norm_company_value U v
            | None => None
            end) as [[|c nm]|]; constructor; [|constructor].
  unfold converts, amount_converts. cbn [w_amount].
  destruct (get (u "amount") dd) as [[| | z | | | |]|] eqn:E; try exact I.
  apply (H dd z eq_refl E).
Qed.

Lemma chunk_step_returns (llm : Llm) (title url : str) (i : nat) (ch : str)
      (acc : Acc) :
  answer_ok (llm i title url ch) ->
  Forall converts (winners_all acc) ->
  exists acc', chunk_step U llm title url i ch acc = Ok acc'
               /\ Forall converts (winners_all acc').
Proof.
  intros (ws & rs & Hws & Hrs & Hamt) Hacc. unfold chunk_step. cbv zeta.
  rewrite Hws, Hrs. cbn [bind]. eexists. split; [reflexivity|].
  cbn [winners_all]. apply Forall_app. split; [exact Hacc|].
  clear Hws. induction ws as [|w ws IH]; cbn [flat_map]; [constructor|].
  apply Forall_app. split.
  - apply llm_winner_converts. intros dd z -> E.
    apply (Hamt dd z); [now left | exact E].
  - apply IH. intros dd z Hin. apply Hamt. now right.
Qed.

Lemma chunk_loop_returns (llm : Llm) (title url : str) (chunks : list str) :
  (forall i title url ch, answer_ok (llm i title url ch)) ->
  forall i acc,
    Forall converts (winners_all acc) ->
    exists acc', chunk_loop U llm title url i chunks acc = Ok acc'
                 /\ Forall converts (winners_all acc').
Proof.
  intros Hllm. induction chunks as [|ch chunks IH]; intros i acc Hacc;
    cbn [chunk_loop].
  - exists acc. split; [reflexivity | exact Hacc].
  - destruct (chunk_step_returns llm title url i ch acc (Hllm _ _ _ _) Hacc)
      as (a & -> & Ha).
    cbn [bind]. apply IH, Ha.
Qed.

Lemma page_fallback_converts (body : str) (acc : Acc) :
  Forall converts (winners_all acc) ->
  Forall converts (winners_all (page_fallback U body acc)).
Proof.
  intros H. unfold page_fallback.
  destruct (winners_all acc) as [|w ws] eqn:Ew; [|rewrite Ew; exact H].
  pose proof (fallback_winners_inv U body) as (_ & _ & Hfw).
  cbv zeta in Hfw.
  destruct (_fallback_extract U body) as [[fw fr] fa].
  cbn [fst winners_all] in *.
  eapply Forall_impl; [|exact Hfw].
  intros a [_ [Hn|(s & Hs & _)]]; unfold converts; rewrite ?Hn, ?Hs; exact I.
Qed.

Lemma call_llm_returns (llm : Llm) (i : nat) (title url body : str) :
  (forall i title url ch, answer_ok (llm i title url ch)) ->
  exists data, _call_llm U llm i title url body = Ok data
               /\ Forall converts (d_winners data).
Proof.
  intros Hllm. unfold _call_llm. cbv zeta.
  destruct (chunk_loop_returns llm title url (_chunk_text body 9000) Hllm i
              {| winners_all := []; reasons_all := []; agency_votes := [] |}
              (Forall_nil _)) as (acc & -> & Hacc).
  cbn [bind]. eexists. split; [reflexivity|]. cbn [d_winners].
  apply Forall_forall. intros w Hin. apply AwardsFacts.dedup_by_In in Hin.
  pose proof (page_fallback_converts body acc Hacc) as Hf.
  rewrite Forall_forall in Hf. apply Hf, Hin.
Qed.

Lemma page_loop_returns (llm : Llm) (pages : list Awards.Page) :
  (forall i title url ch, answer_ok (llm i title url ch)) ->
  forall acc,
    Forall converts (all_winners acc) ->
    exists acc', page_loop U llm acc pages = Ok acc'
                 /\ Forall converts (all_winners acc').
Proof.
  intros Hllm. induction pages as [|p pages IH]; intros acc Hacc;
    cbn [page_loop].
  - exists acc. split; [reflexivity | exact Hacc].
  - unfold page_step. cbv zeta.
    destruct (_clean_html_ws (Awards.or_empty (Awards.p_text p)))
      as [|c text]; cbn [bind]; [apply IH, Hacc|].
    destruct (call_llm_returns llm (calls acc)
                (strip (Awards.or_empty (Awards.p_title p)))
                (strip (Awards.or_empty (Awards.p_url p))) (c :: text) Hllm)
      as (data & -> & Hd).
    cbn [bind]. apply IH. cbn [all_winners].
    apply Forall_app. split; assumption.
Qed.

Lemma count_loop_returns (ws : list Winner) :
  Forall converts ws ->
  forall st, exists st', count_loop U st ws = Ok st'.
Proof.
  induction 1 as [|w ws Hw _ IH]; intros st; cbn [count_loop].
  - exists st. reflexivity.
  - assert (Hs : exists st', count_step U st w = Ok st').
    { unfold count_step. destruct st as [c b].
      destruct (w_name w) as [|x nm]; [eexists; reflexivity|].
      unfold converts, amount_converts in Hw.
      destruct (w_amount w) as [| | z | | amt | |];
        try (eexists; reflexivity).
      - unfold float_of_int. unfold float_range in Hw.
        apply Z.ltb_lt in Hw. rewrite Hw. cbn [bind]. eexists; reflexivity.
      - destruct (Re.sub _ _ amt); [eexists; reflexivity|].
        destruct (float_of_str U _); eexists; reflexivity. }
    destruct Hs as (st' & ->). cbn [bind]. apply IH.
Qed.

(** X10. The extraction returns a payload whenever every answer of the
    model can be read: its winners and its reasons can be iterated, and
    no winner carries an integer amount that [float] cannot convert. *)
Theorem extraction_returns (llm : Llm) (pages : list Awards.Page)
        (query : str) :
  (forall i title url ch, answer_ok (llm i title url ch)) ->
  exists d, build_awards_snapshot_llm U (Some llm) pages query = Ok d.
Proof.
  intros Hllm. unfold build_awards_snapshot_llm, totals.
  destruct (page_loop_returns llm pages Hllm
              {| calls := 0; all_winners := []; all_reasons := [];
                 agency_counts := []; evidences := [] |} (Forall_nil _))
    as (acc & -> & Hacc).
  cbn [bind].
  destruct (count_loop_returns _ Hacc ([], [])) as ([wc bag] & ->).
  cbn [bind]. eexists. reflexivity.
Qed.

(** ** The payload *)

Lemma names_of_top_winners (bag : AmountBag) (l : Counter) :
  map row_name (map (top_winner bag) l) = map fst l.
Proof. rewrite map_map. apply map_ext. intros [k n]. reflexivity. Qed.

Lemma names_of_agencies (l : Counter) :
  map row_name (map top_agency_row l) = map fst l.
Proof. rewrite map_map. apply map_ext. intros [k n]. reflexivity. Qed.

Lemma reasons_of_top_reasons (l : Counter) :
  map row_reason (map top_reason l) = map fst l.
Proof. rewrite map_map. apply map_ext. intros [k n]. reflexivity. Qed.

Lemma stripped_reasons_In (rs : list str) (r : str) :
  Forall (fun r => (length r <= 100)%nat) rs ->
  In r (stripped_reasons rs) -> (1 <= length r <= 100)%nat.
Proof.
  intros Hrs Hin. unfold stripped_reasons in Hin.
  apply filter_In in Hin. destruct Hin as [Hin Hne].
  apply in_map_iff in Hin. destruct Hin as (r0 & <- & Hin).
  rewrite Forall_forall in Hrs. specialize (Hrs _ Hin).
  pose proof (strip_by_length isspace r0) as Hl. fold (strip r0) in Hl.
  destruct (strip r0); [discriminate|]. cbn [length] in *. lia.
Qed.

(** X13. Every entry of [topWinners] has a name of at least two
    characters that no other entry has, and a win count between 1 and
    the number of pages. *)
Theorem top_winners_entries (llm : option Llm) (pages : list Awards.Page)
        (query : str) (d : json) :
  build_awards_snapshot_llm U llm pages query = Ok d ->
  exists tw,
    path ["signals"; "topWinners"]%string d = Some (JList tw)
    /\ NoDup (map row_name tw)
    /\ Forall (fun r => (2 <= length (row_name r))%nat
                        /\ (1 <= row_wins r <= length pages)%nat) tw.
Proof.
  unfold build_awards_snapshot_llm. destruct llm as [llm|].
  - destruct (totals U llm pages) as [[t evs]|e] eqn:Et; cbn [bind];
      [|discriminate].
    intros H. injection H as <-.
    destruct (totals_inv _ _ _ _ Et) as ((Hnd & Hc) & _).
    eexists. split; [reflexivity|]. split.
    + rewrite names_of_top_winners. apply most_common_NoDup, Hnd.
    + apply Forall_forall. intros r Hr.
      apply in_map_iff in Hr. destruct Hr as ([k n] & <- & Hin).
      apply most_common_In in Hin. rewrite Forall_forall in Hc.
      destruct (Hc _ Hin) as [H1 H2]. cbn [fst snd] in H1, H2.
      change (row_name (top_winner (amount_bag t) (k, n))) with k.
      replace (row_wins (top_winner (amount_bag t) (k, n))) with n
        by (unfold row_wins; cbn; now rewrite Nat2Z.id).
      split; [exact H1 | exact H2].
  - intros H. injection H as <-.
    exists []. split; [reflexivity|]. split; constructor.
Qed.

(** X15. The entries of [topReasons] are pairwise distinct reasons of
    1 to 100 characters, the entries of [agencies] pairwise distinct
    names of at least two characters, each with a frequency of at least
    one. *)
Theorem top_reasons_and_agencies_entries
        (llm : option Llm) (pages : list Awards.Page) (query : str)
        (d : json) :
  build_awards_snapshot_llm U llm pages query = Ok d ->
  exists tr ta,
    path ["signals"; "topReasons"]%string d = Some (JList tr)
    /\ path ["signals"; "agencies"]%string d = Some (JList ta)
    /\ NoDup (map row_reason tr)
    /\ Forall (fun r => (1 <= length (row_reason r) <= 100)%nat
                        /\ (1 <= row_freq r)%nat) tr
    /\ NoDup (map row_name ta)
    /\ Forall (fun r => (2 <= length (row_name r))%nat
                        /\ (1 <= row_freq r)%nat) ta.
Proof.
  unfold build_awards_snapshot_llm. destruct llm as [llm|].
  - destruct (totals U llm pages) as [[t evs]|e] eqn:Et; cbn [bind];
      [|discriminate].
    intros H. injection H as <-.
    destruct (totals_inv _ _ _ _ Et) as (_ & _ & Hr & Ha & Hk).
    eexists. eexists. split; [reflexivity|]. split; [reflexivity|].
    split; [|split; [|split]].
    + rewrite reasons_of_top_reasons.
      apply most_common_NoDup, counter_of_NoDup.
    + apply Forall_forall. intros r Hin.
      apply in_map_iff in Hin. destruct Hin as ([k n] & <- & Hin).
      apply most_common_In, counter_of_In in Hin. cbn [fst snd] in Hin.
      destruct Hin as [H1 H2].
      change (row_reason (top_reason (k, n))) with k.
      replace (row_freq (top_reason (k, n))) with n
        by (unfold row_freq; cbn; now rewrite Nat2Z.id).
      split; [apply (stripped_reasons_In _ _ Hr H1) | exact H2].
    + rewrite names_of_agencies. apply most_common_NoDup, Hk.
    + apply Forall_forall. intros r Hin.
      apply in_map_iff in Hin. destruct Hin as ([k n] & <- & Hin).
      apply most_common_In in Hin. unfold counter_ok in Ha.
      rewrite Forall_forall in Ha. destruct (Ha _ Hin) as [H1 H2].
      cbn [fst snd] in H1, H2.
      change (row_name (top_agency_row (k, n))) with k.
      replace (row_freq (top_agency_row (k, n))) with n
        by (unfold row_freq; cbn; now rewrite Nat2Z.id).
      split; [exact H1 | exact H2].
  - intros H. injection H as <-.
    exists [], []. repeat split; constructor.
Qed.

(** X11. With the capability at hand, the evidences are those of the
    pages that have a text after cleaning, in the order of the pages and
    cut at 20: whatever the model answers, as long as the extraction
    returns.  Each snippet has at most 240 characters. *)
Theorem snapshot_evidences (llm : Llm) (pages : list Awards.Page)
        (query : str) (d : json) :
  build_awards_snapshot_llm U (Some llm) pages query = Ok d ->
  path ["evidences"]%string d
  = Some (JList (map evidence_row
                     (firstn 20 (flat_map evidence_of_page pages))))
  /\ Forall (fun e => (length (e_snippet e) <= 240)%nat)
            (flat_map evidence_of_page pages).
Proof.
  unfold build_awards_snapshot_llm.
  destruct (totals U llm pages) as [[t evs]|e] eqn:Et; cbn [bind];
    [|discriminate].
  intros H. injection H as <-.
  destruct (totals_inv _ _ _ _ Et) as (_ & -> & _).
  split; [reflexivity|].
  apply Forall_flat_map. intros p. unfold evidence_of_page.
  destruct (_clean_html_ws _) as [|c text]; constructor; [|constructor].
  cbn [e_snippet].
  pose proof (truncate_le (c :: text) 240 ltac:(lia)). lia.
Qed.

(** X12. The legacy [winners] are the first five entries of
    [topWinners], name by name and count by count. *)
Theorem legacy_winners_prefix (llm : option Llm) (pages : list Awards.Page)
        (query : str) (d : json) :
  build_awards_snapshot_llm U llm pages query = Ok d ->
  exists lw tw,
    path ["winners"]%string d = Some (JList lw)
    /\ path ["signals"; "topWinners"]%string d = Some (JList tw)
    /\ map legacy_item lw = firstn 5 (map row_item tw).
Proof.
  unfold build_awards_snapshot_llm. destruct llm as [llm|].
  - destruct (totals U llm pages) as [[t evs]|e]; cbn [bind];
      [|discriminate].
    intros H. injection H as <-.
    eexists. eexists. split; [reflexivity|]. split; [reflexivity|].
    rewrite !map_map.
    rewrite (map_ext _ (fun it => it)), map_id.
    2: { intros [k n]. unfold legacy_item. cbn. now rewrite Nat2Z.id. }
    rewrite (map_ext _ (fun it => it)), map_id.
    2: { intros it. apply AwardsFacts.row_item_top_winner. }
    unfold most_common. rewrite firstn_firstn. reflexivity.
  - intros H. injection H as <-.
    exists [], []. repeat split; reflexivity.
Qed.

(** X14. When the loop over the pages ends without a winner, the counter
    of wins is made by the last resort alone: the winners that the
    deterministic extractor finds in the texts of all the pages, joined
    by blank lines, in its order and with one win each. *)
Theorem last_resort_counts (llm : Llm) (pages : list Awards.Page)
        (acc : PagesAcc) :
  page_loop U llm no_page pages = Ok acc ->
  all_winners acc = [] ->
  exists t evs,
    totals U llm pages = Ok (t, evs)
    /\ win_counter t
       = map (fun w => (w_name w, 1%nat))
             (fst (fst (_fallback_extract U (all_text pages)))).
Proof.
  intros Hl Hnil. unfold totals. fold no_page. rewrite Hl. cbn [bind].
  rewrite Hnil. cbn [count_loop bind].
  eexists. eexists. split; [reflexivity|].
  unfold global_fallback. cbn [win_counter]. fold (all_text pages).
  pose proof (AwardsFacts.fallback_winners_fresh U (all_text pages)) as Hf.
  destruct (_fallback_extract U (all_text pages)) as [[fw fr] fa].
  cbn [fst win_counter] in *. fold (count_names fw []).
  apply (count_names_fresh fw []), Hf.
Qed.

End WithTables.

Lemma helpful_answers (i : nat) (title url ch : str) :
  answer_ok (helpful i title url ch).
Proof.
  eexists. eexists. split; [reflexivity|]. split; [reflexivity|].
  intros dd z [H|[]] E. injection H as <-.
  vm_compute in E. injection E as <-. vm_compute. reflexivity.
Qed.

Lemma extraction_returns_witness :
  (forall i title url ch, answer_ok (helpful i title url ch))
  /\ exists d,
      build_awards_snapshot_llm basic_unicode (Some helpful)
        two_winner_pages (u "q") = Ok d.
Proof.
  split.
  - exact helpful_answers.
  - apply (extraction_returns basic_unicode helpful two_winner_pages (u "q")).
    exact helpful_answers.
Defined.

Lemma top_winners_entries_witness :
  exists d,
    build_awards_snapshot_llm basic_unicode (Some helpful) two_winner_pages
      (u "q") = Ok d
    /\ exists tw,
        path ["signals"; "topWinners"]%string d = Some (JList tw)
        /\ NoDup (map row_name tw)
        /\ Forall (fun r => (2 <= length (row_name r))%nat
                            /\ (1 <= row_wins r
                                <= length two_winner_pages)%nat) tw.
Proof.
  eexists. split.
  - vm_compute. reflexivity.
  - apply (top_winners_entries basic_unicode (Some helpful) two_winner_pages
             (u "q")).
    vm_compute. reflexivity.
Defined.

Lemma top_reasons_and_agencies_entries_witness :
  exists d,
    build_awards_snapshot_llm basic_unicode (Some helpful) two_winner_pages
      (u "q") = Ok d
    /\ exists tr ta,
        path ["signals"; "topReasons"]%string d = Some (JList tr)
        /\ path ["signals"; "agencies"]%string d = Some (JList ta)
        /\ NoDup (map row_reason tr)
        /\ Forall (fun r => (1 <= length (row_reason r) <= 100)%nat
                            /\ (1 <= row_freq r)%nat) tr
        /\ NoDup (map row_name ta)
        /\ Forall (fun r => (2 <= length (row_name r))%nat
                            /\ (1 <= row_freq r)%nat) ta.
Proof.
  eexists. split.
  - vm_compute. reflexivity.
  - apply (top_reasons_and_agencies_entries basic_unicode (Some helpful)
             two_winner_pages (u "q")).
    vm_compute. reflexivity.
Defined.

Lemma snapshot_evidences_witness :
  exists d,
    build_awards_snapshot_llm basic_unicode (Some helpful) two_winner_pages
      (u "q") = Ok d
    /\ path ["evidences"]%string d
       = Some (JList (map evidence_row
                          (firstn 20 (flat_map evidence_of_page
                                               two_winner_pages))))
    /\ Forall (fun e => (length (e_snippet e) <= 240)%nat)
              (flat_map evidence_of_page two_winner_pages).
Proof.
  eexists. split.
  - vm_compute. reflexivity.
  - apply (snapshot_evidences basic_unicode helpful two_winner_pages (u "q")).
    vm_compute. reflexivity.
Defined.

Lemma legacy_winners_prefix_witness :
  exists d,
    build_awards_snapshot_llm basic_unicode (Some helpful) two_winner_pages
      (u "q") = Ok d
    /\ exists lw tw,
        path ["winners"]%string d = Some (JList lw)
        /\ path ["signals"; "topWinners"]%string d = Some (JList tw)
        /\ map legacy_item lw = firstn 5 (map row_item tw).
Proof.
  eexists. split.
  - vm_compute. reflexivity.
  - apply (legacy_winners_prefix basic_unicode (Some helpful)
             two_winner_pages (u "q")).
    vm_compute. reflexivity.
Defined.

Lemma last_resort_counts_witness :
  exists acc,
    page_loop basic_unicode silent no_page split_pages = Ok acc
    /\ all_winners acc = []
    /\ exists t evs,
        totals basic_unicode silent split_pages = Ok (t, evs)
        /\ win_counter t
           = map (fun w => (w_name w, 1%nat))
                 (fst (fst (_fallback_extract basic_unicode
                              (all_text split_pages)))).
Proof.
  eexists. split; [vm_compute; reflexivity|]. split; [reflexivity|].
  eapply (last_resort_counts basic_unicode silent split_pages);
    [vm_compute; reflexivity | reflexivity].
Defined.

End SnapshotFacts.

(* ================================================================= *)
(** * Properties of the award fields and the ranking of
      [competitor_intel.py] *)

Module IntelMore.
Import Py Re Json Intel IntelRank PySpec IntelSpec RankSpec.

(** ** Topic tags *)

Lemma split_rep_pieces (c : Z -> bool) (s : str) :
  forall cur skip,
    Forall (fun x => c x = false) cur ->
    Forall (Forall (fun x => c x = false))
           (split_go (Rep c 1 None) cur skip s).
Proof.
  induction s as [|x s IH]; intros cur skip Hcur; cbn [split_go].
  - constructor; [exact Hcur | constructor].
  - destruct skip as [|k]; [|apply IH, Hcur].
    rewrite ReFacts.match_at_rep. cbn [run].
    destruct (c x) eqn:Hx; cbn [Nat.leb].
    + constructor; [exact Hcur|]. apply IH. constructor.
    + apply IH. apply Forall_app. split; [exact Hcur|].
      constructor; [exact Hx | constructor].
Qed.

Lemma fromkeys_spec (l : list str) :
  forall seen,
    NoDup (fromkeys seen l)
    /\ forall t, In t (fromkeys seen l) ->
                 In t l /\ existsb (str_eqb t) seen = false.
Proof.
  induction l as [|t l IH]; intros seen; cbn [fromkeys].
  - split; [constructor | intros t []].
  - destruct (existsb (str_eqb t) seen) eqn:E.
    + destruct (IH seen) as [H1 H2]. split; [exact H1|].
      intros t' Hin. destruct (H2 _ Hin). split; [now right | assumption].
    + destruct (IH (t :: seen)) as [H1 H2]. split.
      * constructor; [|exact H1]. intros Hin.
        destruct (H2 _ Hin) as [_ Hs]. cbn [existsb] in Hs.
        rewrite (proj2 (PyFacts.str_eqb_eq t t) eq_refl) in Hs. discriminate.
      * intros t' [<-|Hin]; [split; [now left | exact E]|].
        destruct (H2 _ Hin) as [Hl Hs]. split; [now right|].
        cbn [existsb] in Hs. apply orb_false_elim in Hs. apply Hs.
Qed.

(** X16. The topic tags of a title are at most 8 and pairwise distinct;
    each has at least two characters, is not made of digits only, and
    holds no separator (whitespace, [/], [·], [:] or [,]). *)
Theorem tags_from_title_shape (isdigit : Z -> bool) (title : str) :
  let tags := _tags_from_title isdigit title in
  (length tags <= 8)%nat
  /\ NoDup tags
  /\ Forall (fun t => (2 <= length t)%nat
                      /\ str_isdigit isdigit t = false
                      /\ Forall (fun c => tag_sep c = false) t) tags.
Proof.
  cbv zeta. unfold _tags_from_title. cbv zeta.
  set (toks := Re.split (Rep tag_sep 1 None) _).
  match goal with
  | |- context [filter ?f toks] => set (kept := filter f toks)
  end.
  destruct (fromkeys_spec kept []) as [Hnd Hin].
  split; [apply firstn_le_length|].
  split; [apply AwardsMore.NoDup_firstn, Hnd|].
  apply Forall_forall. intros t Ht.
  apply PyFacts.In_firstn in Ht. destruct (Hin _ Ht) as [Hk _].
  apply filter_In in Hk. destruct Hk as [Htok Hc].
  apply andb_true_iff in Hc. destruct Hc as [Hlen Hdig].
  apply Nat.leb_le in Hlen. apply negb_true_iff in Hdig.
  split; [exact Hlen|]. split; [exact Hdig|].
  pose proof (split_rep_pieces tag_sep (Re.sub BRACKETED [32] title) [] 0
                (Forall_nil _)) as Hp.
  rewrite Forall_forall in Hp. apply Hp, Htok.
Qed.

(** ** Company names *)

Lemma sub_go_Forall (P : Z -> Prop) (r : re) (repl : str) (s : str) :
  Forall P repl -> Forall P s ->
  forall skip, Forall P (sub_go r repl skip s).
Proof.
  intros Hr. induction 1 as [|c s Hc Hs IH]; intros skip.
  - destruct skip; cbn [sub_go]; [|constructor].
    destruct (match_at r [] 0) as [[[|n] cs]|];
      rewrite ?app_nil_r; try exact Hr. constructor.
  - destruct skip as [|k]; cbn [sub_go]; [|apply IH].
    destruct (match_at r (c :: s) 0) as [[[|n] cs]|].
    + apply Forall_app. split; [exact Hr|]. constructor; [exact Hc | apply IH].
    + apply Forall_app. split; [exact Hr | apply IH].
    + constructor; [exact Hc | apply IH].
Qed.

Lemma lstrip_by_Forall (P : Z -> Prop) (p : Z -> bool) (s : str) :
  Forall P s -> Forall P (lstrip_by p s).
Proof.
  induction 1 as [|c s Hc Hs IH]; cbn [lstrip_by]; [constructor|].
  destruct (p c); [exact IH | constructor; assumption].
Qed.

Lemma strip_by_Forall (P : Z -> Prop) (p : Z -> bool) (s : str) :
  Forall P s -> Forall P (strip_by p s).
Proof.
  intros H. unfold strip_by, rstrip_by.
  apply Forall_rev, lstrip_by_Forall, Forall_rev, lstrip_by_Forall, H.
Qed.

Lemma run_firstn (c : Z -> bool) (s : str) :
  Forall (fun x => c x = true) (firstn (run c s) s).
Proof.
  induction s as [|x s IH]; cbn [run]; [constructor|].
  destruct (c x) eqn:Hx; cbn [firstn]; constructor; assumption.
Qed.

Lemma skipn_run_head (c : Z -> bool) (s : str) (y : Z) (t : str) :
  skipn (run c s) s = y :: t -> c y = false.
Proof.
  induction s as [|x s IH]; cbn [run]; [discriminate|].
  destruct (c x) eqn:Hx; cbn [skipn]; [exact IH|].
  intros H. injection H as <- _. exact Hx.
Qed.

Lemma spaced_sub (s : str) :
  (forall t x, s = t ++ [x] -> isspace x = false) ->
  spaced (Re.sub (Rep isspace 1 None) [32] s) = true.
Proof.
  remember (length s) as n eqn:Hn. revert s Hn.
  induction n as [n IH] using lt_wf_ind. intros s Hn Hlast.
  destruct s as [|x s].
  - rewrite ReFacts.sub_rep_nil by lia. reflexivity.
  - destruct (isspace x) eqn:Hx.
    + rewrite ReFacts.sub_rep_long;
        [|lia | exact Hx | cbn [run]; rewrite Hx; lia].
      pose proof (firstn_skipn (run isspace s) s) as Hsplit.
      pose proof (AwardsFacts.length_skipn_run isspace s) as Hlen.
      destruct (skipn (run isspace s) s) as [|y s2] eqn:E.
      * exfalso. rewrite app_nil_r in Hsplit.
        assert (Hall : Forall (fun z => isspace z = true) (x :: s)).
        { constructor; [exact Hx|]. rewrite <- Hsplit. apply run_firstn. }
        destruct (@exists_last _ (x :: s) ltac:(discriminate)) as (t & z & Ht).
        pose proof (Hlast _ _ Ht) as Hz.
        rewrite Forall_forall in Hall.
        rewrite (Hall z) in Hz; [discriminate|].
        rewrite Ht. apply in_or_app. right. now left.
      * pose proof (skipn_run_head _ _ _ _ E) as Hy.
        assert (Hs2 : spaced (Re.sub (Rep isspace 1 None) [32] (y :: s2))
                      = true).
        { apply (IH (length (y :: s2))); [subst n; cbn [length] in *; lia
                                         | reflexivity |].
          intros t z Ht. apply (Hlast ((x :: firstn (run isspace s) s) ++ t)).
          rewrite <- app_assoc, <- Ht. cbn [app]. now rewrite Hsplit. }
        rewrite ReFacts.sub_rep_other in Hs2 |- * by (lia || exact Hy).
        cbn [app spaced]. rewrite Hy.
        change (isspace 32) with true. cbn [negb andb Z.eqb Pos.eqb].
        cbn [spaced] in Hs2. rewrite Hy in Hs2. exact Hs2.
    + rewrite ReFacts.sub_rep_other by (lia || exact Hx).
      cbn [spaced]. rewrite Hx.
      apply (IH (length s)); [subst n; cbn [length]; lia | reflexivity |].
      intros t z Ht. apply (Hlast (x :: t)). rewrite Ht. reflexivity.
Qed.

Lemma spaced_last (s : str) :
  spaced s = true -> forall t x, s = t ++ [x] -> isspace x = false.
Proof.
  induction s as [|x0 s IH]; intros Hs t x Ht.
  - destruct t; discriminate.
  - destruct t as [|y t]; cbn [app] in Ht; injection Ht as -> ->.
    + cbn [spaced] in Hs. destruct (isspace x); [|reflexivity].
      rewrite andb_false_r in Hs. discriminate.
    + apply (IH ltac:(cbn [spaced] in Hs;
                      destruct (isspace y);
                      [apply andb_true_iff in Hs; apply Hs | exact Hs])
                t x eq_refl).
Qed.

Lemma strip_by_fixed (p : Z -> bool) (s : str) :
  (forall x t, s = x :: t -> p x = false) ->
  (forall t x, s = t ++ [x] -> p x = false) ->
  strip_by p s = s.
Proof.
  intros Hh Hl. unfold strip_by.
  assert (E : lstrip_by p s = s).
  { destruct s as [|x t]; [reflexivity|].
    cbn [lstrip_by]. now rewrite (Hh x t eq_refl). }
  rewrite E. unfold rstrip_by.
  destruct (rev s) as [|x r] eqn:Er.
  - cbn. apply (f_equal (@rev Z)) in Er. rewrite rev_involutive in Er.
    now rewrite Er.
  - assert (Es : s = rev r ++ [x]).
    { rewrite <- (rev_involutive s), Er. reflexivity. }
    cbn [lstrip_by]. rewrite (Hl _ _ Es). rewrite <- Er.
    apply rev_involutive.
Qed.

Lemma tidy_strip (s : str) : tidy s = true -> strip s = s.
Proof.
  intros H. apply strip_by_fixed.
  - intros x t ->. cbn [tidy] in H. apply andb_true_iff in H.
    destruct H as [H _]. now apply negb_true_iff in H.
  - destruct s as [|x0 s]; [intros [|? ?] ?; discriminate|].
    cbn [tidy] in H. apply andb_true_iff in H. destruct H as [_ H].
    apply spaced_last, H.
Qed.

Lemma canon_is_tidy (name : str) : tidy (_canon name) = true.
Proof.
  unfold _canon. cbv zeta.
  set (s0 := strip _).
  destruct (StrFacts.strip_by_edges isspace
              (replace (u "주식회사") [] (replace (u "㈜") [] name)))
    as [Hh Hl].
  fold (strip (replace (u "주식회사") [] (replace (u "㈜") [] name))) in Hh, Hl.
  fold s0 in Hh, Hl.
  pose proof (spaced_sub s0 (fun t x => Hl x t)) as Hs.
  destruct s0 as [|x t] eqn:E.
  - rewrite ReFacts.sub_rep_nil by lia. reflexivity.
  - pose proof (Hh x t eq_refl) as Hx.
    rewrite ReFacts.sub_rep_other in Hs |- * by (lia || exact Hx).
    cbn [tidy]. rewrite Hx, Hs. reflexivity.
Qed.

(** X18. A canonical company name neither starts nor ends with
    whitespace, has its words separated by single spaces, and holds no
    [㈜] sign; stripping it changes nothing. *)
Theorem canon_tidy (name : str) :
  tidy (_canon name) = true
  /\ strip (_canon name) = _canon name
  /\ no_char (ch "㈜") (_canon name).
Proof.
  split; [apply canon_is_tidy|].
  split; [apply tidy_strip, canon_is_tidy|].
  unfold _canon, no_char. cbv zeta.
  apply sub_go_Forall; [repeat constructor; discriminate|].
  apply strip_by_Forall.
  apply AwardsFacts.replace_go_Forall; [constructor|].
  apply (AwardsFacts.replace_char_no_char (ch "㈜") [] name). constructor.
Qed.

(** ** The agency *)

Lemma splitlines_go_lines (s : str) :
  forall cur after_cr,
    Forall (fun c => is_linebreak c = false) cur ->
    Forall (Forall (fun c => is_linebreak c = false))
           (splitlines_go cur after_cr s).
Proof.
  induction s as [|c s IH]; intros cur after_cr Hcur; cbn [splitlines_go].
  - destruct cur; constructor; [exact Hcur | constructor].
  - destruct (after_cr && (c =? 10)); [apply IH, Hcur|].
    destruct (is_linebreak c) eqn:Hc.
    + constructor; [exact Hcur | apply IH; constructor].
    + apply IH. apply Forall_app. split; [exact Hcur|].
      constructor; [exact Hc | constructor].
Qed.

Lemma contains_cons (k : str) (c : Z) (s : str) :
  contains k s = true -> contains k (c :: s) = true.
Proof. intros H. cbn [contains]. rewrite H. apply orb_true_r. Qed.

Lemma splitlines_go_within (k : str) (s : str) :
  forall cur after_cr line,
    (after_cr = true -> cur = []) ->
    In line (splitlines_go cur after_cr s) ->
    contains k line = true -> contains k (cur ++ s) = true.
Proof.
  induction s as [|c s IH]; intros cur after_cr line Hcr; cbn [splitlines_go].
  - rewrite app_nil_r. destruct cur; [intros []|].
    intros [<-|[]] H. exact H.
  - destruct (after_cr && (c =? 10)) eqn:E.
    + apply andb_true_iff in E. destruct E as [E _].
      rewrite (Hcr E). cbn [app]. intros Hin Hk.
      apply contains_cons.
      apply (IH [] false line ltac:(discriminate) Hin Hk).
    + destruct (is_linebreak c).
      * intros [<-|Hin] Hk.
        -- apply StrFacts.contains_app_l, Hk.
        -- apply StrFacts.contains_app_r. apply contains_cons.
           apply (IH [] (c =? 13) line (fun _ => eq_refl) Hin Hk).
      * intros Hin Hk.
        replace (cur ++ c :: s) with ((cur ++ [c]) ++ s)
          by (rewrite <- app_assoc; reflexivity).
        apply (IH (cur ++ [c]) false line ltac:(discriminate) Hin Hk).
Qed.

Lemma first_hint_line_shape (lines : list str) :
  Forall (Forall (fun c => is_linebreak c = false)) lines ->
  let ag := first_hint_line lines in
  (length ag <= 60)%nat
  /\ Forall (fun c => is_linebreak c = false) ag
  /\ (forall x t, ag = x :: t -> isspace x = false).
Proof.
  cbv zeta. induction 1 as [|line lines Hl Hls IH]; cbn [first_hint_line].
  - split; [cbn; lia|]. split; [constructor | discriminate].
  - destruct (contains_any AGENCY_HINTS line); [|exact IH].
    split; [apply firstn_le_length|].
    split; [apply AwardsMore.Forall_firstn, strip_by_Forall, Hl|].
    intros x t E.
    destruct (StrFacts.strip_by_edges isspace line) as [Hh _].
    fold (strip line) in Hh.
    destruct (strip line) as [|y r]; [discriminate|].
    cbn [firstn] in E. injection E as <- _. apply (Hh y r eq_refl).
Qed.

Lemma first_hint_line_none (lines : list str) :
  Forall (fun line => contains_any AGENCY_HINTS line = false) lines ->
  first_hint_line lines = [].
Proof.
  induction 1 as [|line lines Hl Hls IH]; cbn [first_hint_line];
    [reflexivity|].
  rewrite Hl. exact IH.
Qed.

(** X19. The agency guessed from a text is one line cut at 60
    characters: it holds no line break and does not start with
    whitespace.  It is empty when the text holds none of the hint
    words. *)
Theorem guess_agency_shape (text : str) :
  let ag := _guess_agency_from_text text in
  (length ag <= 60)%nat
  /\ Forall (fun c => is_linebreak c = false) ag
  /\ (forall x t, ag = x :: t -> isspace x = false)
  /\ (contains_any AGENCY_HINTS text = false -> ag = []).
Proof.
  cbv zeta. unfold _guess_agency_from_text.
  pose proof (splitlines_go_lines text [] false (Forall_nil _)) as Hlines.
  fold (splitlines text) in Hlines.
  destruct (first_hint_line_shape (firstn 80 (splitlines text))
              (AwardsMore.Forall_firstn _ _ _ Hlines)) as (H1 & H2 & H3).
  split; [exact H1|]. split; [exact H2|]. split; [exact H3|].
  intros Hno. apply first_hint_line_none.
  apply AwardsMore.Forall_firstn. apply Forall_forall. intros line Hin.
  destruct (contains_any AGENCY_HINTS line) eqn:E; [|reflexivity].
  rewrite <- Hno. unfold contains_any in *.
  apply existsb_exists in E. destruct E as (k & Hk & Hc).
  symmetry. apply existsb_exists. exists k. split; [exact Hk|].
  apply (splitlines_go_within k text [] false line (fun _ => eq_refl) Hin Hc).
Qed.

(** ** Award fields *)

Lemma contains_any_one (k s : str) :
  contains k s = false -> contains_any [k] s = false.
Proof. intros H. unfold contains_any. cbn [existsb]. now rewrite H. Qed.

Section Tables.
Variable isword : Z -> bool.
Variable isdigit : Z -> bool.
Variable py_float : str -> option Q.
Variable strptime_ymd : str -> option str.

(** X17. Without the word for the award in the text and in the title
    there is no winner; without the word for the amount in the text
    there is no amount; without a date label in the text there is no
    date. *)
Theorem award_fields_need_labels (title text : str) :
  let r := _extract_award_fields isword py_float strptime_ymd title text in
  (contains (u "낙찰") text = false -> contains (u "낙찰") title = false ->
   fst (fst r) = [])
  /\ (contains (u "금액") text = false -> snd (fst r) = None)
  /\ (contains_any DATE_LABELS text = false -> snd r = None).
Proof.
  cbv zeta. unfold _extract_award_fields. cbv zeta. cbn [fst snd].
  split; [|split].
  - intros H1 H2.
    rewrite (StrFacts.search_needs [u "낙찰"] (WINNER_PAT isword) text);
      [|vm_compute; reflexivity | apply contains_any_one, H1].
    rewrite (StrFacts.search_needs [u "낙찰"] (TITLE_WINNER_PAT isword) title);
      [|vm_compute; reflexivity | apply contains_any_one, H2].
    reflexivity.
  - intros H.
    rewrite (StrFacts.search_needs [u "금액"] AMOUNT_PAT text);
      [|vm_compute; reflexivity | apply contains_any_one, H].
    reflexivity.
  - intros H.
    rewrite (StrFacts.search_needs DATE_LABELS DATE_PAT text);
      [|vm_compute; reflexivity | exact H].
    reflexivity.
Qed.

End Tables.

(** ** The ranking *)

Section Sorted.
Context {A : Type} (leb : A -> A -> bool).
Hypothesis leb_total : forall a b, leb a b = false -> leb b a = true.
Hypothesis leb_trans :
  forall a b c, leb a b = true -> leb b c = true -> leb a c = true.

Lemma insert_sorted (x : A) (s : list A) :
  StronglySorted (fun a b => leb a b = true) s ->
  StronglySorted (fun a b => leb a b = true) (insert leb x s).
Proof.
  induction 1 as [|y s Hs IH Hf]; cbn [insert].
  - repeat constructor.
  - destruct (leb x y) eqn:E.
    + constructor; [constructor; assumption|].
      constructor; [exact E|].
      eapply Forall_impl; [|exact Hf]. intros z Hz. eapply leb_trans; eauto.
    + constructor; [exact IH|].
      apply Forall_forall. intros z Hz. apply PyFacts.In_insert in Hz.
      destruct Hz as [->|Hz]; [apply leb_total, E|].
      rewrite Forall_forall in Hf. apply Hf, Hz.
Qed.

Lemma sort_sorted (l : list A) :
  StronglySorted (fun a b => leb a b = true) (sort leb l).
Proof.
  induction l as [|x l IH]; cbn [sort fold_right]; [constructor|].
  apply insert_sorted, IH.
Qed.
End Sorted.

Lemma competitor_leb_by_rank (a b : Competitor) :
  competitor_leb a b = true <-> by_rank a b.
Proof.
  unfold competitor_leb, by_rank.
  rewrite orb_true_iff, andb_true_iff, Nat.ltb_lt, Nat.eqb_eq, Qle_bool_iff.
  reflexivity.
Qed.

Lemma competitor_leb_total (a b : Competitor) :
  competitor_leb a b = false -> competitor_leb b a = true.
Proof.
  intros H. apply competitor_leb_by_rank.
  assert (Hn : ~ by_rank a b).
  { intros Hr. apply competitor_leb_by_rank in Hr. congruence. }
  unfold by_rank in *.
  destruct (Nat.lt_trichotomy (c_wins a) (c_wins b)) as [Hlt|[Heq|Hgt]].
  - now left.
  - right. split; [now symmetry|].
    destruct (Qlt_le_dec (avg_or_0 a) (avg_or_0 b)) as [Hq|Hq].
    + apply Qlt_le_weak, Hq.
    + exfalso. apply Hn. right. split; assumption.
  - exfalso. apply Hn. now left.
Qed.

Lemma competitor_leb_trans (a b c : Competitor) :
  competitor_leb a b = true -> competitor_leb b c = true ->
  competitor_leb a c = true.
Proof.
  rewrite !competitor_leb_by_rank. unfold by_rank.
  intros [H1|[H1 Q1]] [H2|[H2 Q2]].
  - left. lia.
  - left. lia.
  - left. lia.
  - right. split; [lia|]. eapply Qle_trans; eassumption.
Qed.

Lemma tally_keys (name : str) (amt : option Q) (bc : ByComp) :
  map fst (tally name amt bc)
  = if existsb (str_eqb name) (map fst bc) then map fst bc
    else map fst bc ++ [name].
Proof.
  induction bc as [|[k [w a]] bc IH]; [reflexivity|].
  cbn [tally map fst existsb]. destruct (str_eqb name k); [reflexivity|].
  cbn [map fst orb]. rewrite IH.
  destruct (existsb (str_eqb name) (map fst bc)); reflexivity.
Qed.

Lemma wins_total_cons (it : str * (nat * list Q)) (bc : ByComp) :
  wins_total (it :: bc) = (fst (snd it) + wins_total bc)%nat.
Proof. reflexivity. Qed.

Lemma tally_ok (name : str) (amt : option Q) (bc : ByComp) (n : nat) :
  tidy name = true -> by_comp_ok n bc -> by_comp_ok (S n) (tally name amt bc).
Proof.
  intros Hname (Hnd & Hall & Htot). split; [|split].
  - rewrite tally_keys.
    destruct (existsb (str_eqb name) (map fst bc)) eqn:E; [exact Hnd|].
    apply NoDup_app; [exact Hnd | repeat constructor; intros [] |].
    intros y Hy [<-|[]]. apply AwardsMore.existsb_str_eqb in Hy. congruence.
  - clear Hnd Htot. induction Hall as [|[k [w a]] bc [H1 H2] Hall IH];
      cbn [tally].
    + constructor; [|constructor]. cbn [fst snd]. split; [exact Hname | lia].
    + destruct (str_eqb name k); constructor; cbn [fst snd] in *;
        try (split; [assumption | lia]); assumption.
  - subst n. clear Hnd Hall.
    induction bc as [|[k [w a]] bc IH]; [reflexivity|].
    cbn [tally]. destruct (str_eqb name k); rewrite !wins_total_cons;
      cbn [fst snd]; [reflexivity|].
    rewrite IH. apply Nat.add_succ_r.
Qed.

Lemma by_comp_of_ok (awards : list Award) :
  Forall (fun a => tidy (winner a) = true) awards ->
  by_comp_ok (length awards) (by_comp_of awards).
Proof.
  unfold by_comp_of. intros H.
  assert (G : forall bc n,
             by_comp_ok n bc ->
             by_comp_ok (n + length awards)
               (fold_left (fun bc a => tally (winner a) (amount a) bc)
                          awards bc)).
  { induction H as [|a awards Ha _ IH]; intros bc n Hbc; cbn [fold_left length].
    - now rewrite Nat.add_0_r.
    - rewrite <- Nat.add_succ_comm. apply IH, tally_ok; assumption. }
  apply (G [] 0%nat). repeat split; constructor.
Qed.

Lemma competitors_ok (bc : ByComp) (n : nat) :
  by_comp_ok n bc -> ranked_ok n (flat_map competitor_of bc).
Proof.
  intros (Hnd & Hall & Htot). subst n.
  assert (Hin : forall bc', Forall (fun it => tidy (fst it) = true
                                             /\ (1 <= fst (snd it))%nat) bc' ->
                forall nm, In nm (map c_name (flat_map competitor_of bc')) ->
                           In nm (map fst bc')).
  { induction 1 as [|[k [w a]] bc' [H1 H2] _ IH]; cbn [flat_map map];
      [auto|].
    intros nm. rewrite map_app, in_app_iff. unfold competitor_of at 1.
    cbn [fst snd] in *. intros [H|H]; [|right; apply IH, H].
    destruct k as [|x k]; [destruct H|].
    destruct H as [<-|[]]. left. cbn [c_name]. symmetry.
    apply tidy_strip, H1. }
  split; [|split].
  - induction Hall as [|[k [w a]] bc [H1 H2] Hall IH]; cbn [flat_map map];
      [constructor|].
    inversion Hnd as [|? ? Hk Hnd']; subst.
    specialize (IH Hnd'). unfold competitor_of at 1. cbn [fst snd] in *.
    destruct k as [|x k]; [exact IH|].
    cbn [app map c_name]. rewrite (tidy_strip _ H1).
    constructor; [|exact IH]. intros Hc. apply Hk, (Hin _ Hall), Hc.
  - clear Hnd Hin. induction Hall as [|[k [w a]] bc [H1 H2] Hall IH];
      cbn [flat_map]; [constructor|].
    apply Forall_app. split; [|exact IH].
    unfold competitor_of. cbn [fst snd] in *.
    destruct k as [|x k]; constructor; [|constructor].
    cbn [c_name c_wins]. rewrite (tidy_strip _ H1).
    split; [discriminate|]. split; assumption.
  - clear.
    induction bc as [|[k [w a]] bc IH]; [apply Nat.le_refl|].
    cbn [flat_map]. rewrite map_app, list_sum_app, wins_total_cons.
    apply Nat.add_le_mono; [|exact IH].
    unfold competitor_of. cbn [fst snd].
    destruct k; cbn; lia.
Qed.

Lemma list_sum_Permutation (l l' : list nat) :
  Permutation l l' -> list_sum l = list_sum l'.
Proof.
  induction 1 as [|x l l' _ IH|x y l|l l' l'' _ IH1 _ IH2].
  - reflexivity.
  - change (x + list_sum l = x + list_sum l')%nat. now rewrite IH.
  - change (y + (x + list_sum l) = x + (y + list_sum l))%nat. lia.
  - congruence.
Qed.

Lemma list_sum_firstn (n : nat) (l : list nat) :
  (list_sum (firstn n l) <= list_sum l)%nat.
Proof.
  revert n. induction l as [|x l IH]; intros [|n]; cbn [firstn];
    try apply Nat.le_0_l.
  change (x + list_sum (firstn n l) <= x + list_sum l)%nat.
  apply Nat.add_le_mono_l, IH.
Qed.

Lemma ranked_ok_top (n k : nat) (cs : list Competitor) :
  ranked_ok n cs -> ranked_ok n (firstn k (sort competitor_leb cs)).
Proof.
  intros (Hnd & Hall & Hsum).
  pose proof (SnapshotFacts.sort_Permutation competitor_leb cs) as Hp.
  split; [|split].
  - rewrite <- firstn_map. apply AwardsMore.NoDup_firstn.
    eapply Permutation_NoDup; [|exact Hnd].
    symmetry. apply Permutation_map, Hp.
  - apply AwardsMore.Forall_firstn.
    eapply Permutation_Forall; [symmetry; exact Hp | exact Hall].
  - rewrite <- firstn_map.
    etransitivity; [apply list_sum_firstn|].
    rewrite (list_sum_Permutation _ _ (Permutation_map c_wins Hp)).
    exact Hsum.
Qed.

Section Ranking.
Variable isword : Z -> bool.
Variable isdigit : Z -> bool.
Variable py_float : str -> option Q.
Variable strptime_ymd : str -> option str.

Lemma award_of_winner (p : Page) :
  tidy (winner (award_of isword isdigit py_float strptime_ymd p)) = true.
Proof.
  unfold award_of. cbv zeta.
  destruct (_extract_award_fields _ _ _ _ _) as [[w a] d].
  cbn [winner]. apply canon_is_tidy.
Qed.

(** X20. The top competitors are at most 5 entries of the ranking, in
    its order: more wins first, and among equal wins the larger average
    amount first.  Their names are pairwise distinct, not empty and tidy,
    each has at least one win, and their wins add up to at most the
    number of retained pages. *)
Theorem top_competitors_ranked (pages : list Page) (query : str) :
  let intel := build_intel isword isdigit py_float strptime_ymd pages query in
  exists cs,
    topCompetitors intel = map competitor_row cs
    /\ (length cs <= 5)%nat
    /\ StronglySorted by_rank cs
    /\ NoDup (map c_name cs)
    /\ Forall (fun c => c_name c <> [] /\ tidy (c_name c) = true
                        /\ (1 <= c_wins c)%nat) cs
    /\ (list_sum (map c_wins cs) <= length (filter retained pages))%nat.
Proof.
  cbv zeta. unfold build_intel, build_competitor_intel_from_pages.
  rewrite IntelFacts.page_loop_retained. cbn [app topCompetitors].
  unfold rank_competitors, ranked. rewrite firstn_map.
  set (awards := map (award_of isword isdigit py_float strptime_ymd)
                     (filter retained pages)).
  eexists. split; [reflexivity|].
  split; [apply firstn_le_length|].
  split.
  { apply PyFacts.StronglySorted_firstn.
    eapply PyFacts.StronglySorted_impl;
      [|apply (sort_sorted competitor_leb competitor_leb_total
                 competitor_leb_trans)].
    intros a b. apply competitor_leb_by_rank. }
  assert (Hok : ranked_ok (length (filter retained pages))
                  (firstn 5 (sort competitor_leb
                               (flat_map competitor_of (by_comp_of awards))))).
  { apply ranked_ok_top, competitors_ok.
    replace (length (filter retained pages)) with (length awards)
      by (unfold awards; apply length_map).
    apply by_comp_of_ok. unfold awards. apply Forall_map.
    apply Forall_forall. intros p _. apply award_of_winner. }
  exact Hok.
Qed.

End Ranking.

End IntelMore.
